(** * Insurance data mart ETL: classification, date assignment, dimensions, facts

    A shallow embedding of [etl_pipeline.py] and [etl_pipeline_mysql.py].
    Integers are [Z]; binary64 floats are [spec_float] values compared with
    the IEEE comparisons [SFltb]/[SFleb]; strings are [string]s whose
    characters are read as code points below 256; data frames are lists of
    records in row order. *)

From Stdlib Require Import ZArith List Bool Ascii String Lia Sorted Permutation.
From Stdlib Require Import DecimalString DecimalPos DecimalZ.
From Stdlib Require Import Floats.SpecFloat.
Import ListNotations.

Local Open Scope string_scope.
Local Open Scope list_scope.
Local Open Scope Z_scope.

(** ** Attribute classifier *)

Module Classifier.

(** [bins] of [age_band], as written in both pipeline files. *)
Definition bins : list (Z * Z * string) :=
  [ (0, 17, "0-17"); (18, 24, "18-24"); (25, 34, "25-34"); (35, 44, "35-44");
    (45, 54, "45-54"); (55, 64, "55-64"); (65, 200, "65+") ].

(** The [for lo,hi,label in bins] loop: first bin with [lo <= age <= hi]. *)
Fixpoint age_band_loop (bs : list (Z * Z * string)) (age : Z) : string :=
  match bs with
  | [] => "unknown"
  | (lo, hi, label) :: rest =>
      if (lo <=? age) && (age <=? hi) then label else age_band_loop rest age
  end.

Definition age_band (age : Z) : string := age_band_loop bins age.

(** The float literals of [bmi_category] as binary64 values
    (mantissa times two to the exponent). *)
Definition f18_5 : spec_float := S754_finite false 5207287069147136 (-48).
Definition f25 : spec_float := S754_finite false 7036874417766400 (-48).
Definition f30 : spec_float := S754_finite false 8444249301319680 (-48).
Definition fzero : spec_float := S754_zero false.

Definition bmi_category (bmi : spec_float) : string :=
  if SFltb bmi f18_5 then "Underweight"
  else if SFltb bmi f25 then "Normal"
  else if SFltb bmi f30 then "Overweight"
  else "Obese".

End Classifier.

(** ** Python values: exceptions, strings, decimal printing *)

Module Py.

(** The exceptions the modelled code can raise. *)
Inductive exn : Type :=
| ValueError
| OverflowError
| KeyError (name : string)
| NameError (name : string).

Inductive result (A : Type) : Type :=
| Ok (a : A)
| Raise (e : exn).
Arguments Ok {A} a.
Arguments Raise {A} e.

Definition bind {A B : Type} (r : result A) (k : A -> result B) : result B :=
  match r with
  | Ok a => k a
  | Raise e => Raise e
  end.

Definition code (c : ascii) : Z := Z.of_N (N_of_ascii c).
Definition chr (n : Z) : ascii := ascii_of_N (Z.to_N n).

(** [str.isspace] on a code point below 256: the characters that
    [str.strip()] removes. *)
Definition is_space (c : ascii) : bool :=
  let n := code c in
  ((9 <=? n) && (n <=? 13)) || ((28 <=? n) && (n <=? 32))
  || (n =? 133) || (n =? 160).

(** [str.lower] on a code point below 256: A-Z and the accented capitals
    192-222 (215, the multiplication sign, apart) move up by 32. *)
Definition lower_char (c : ascii) : ascii :=
  let n := code c in
  if ((65 <=? n) && (n <=? 90))
     || ((192 <=? n) && (n <=? 222) && negb (n =? 215))
  then chr (n + 32) else c.

Fixpoint lower (s : string) : string :=
  match s with
  | EmptyString => EmptyString
  | String c rest => String (lower_char c) (lower rest)
  end.

Fixpoint lstrip (s : string) : string :=
  match s with
  | EmptyString => EmptyString
  | String c rest => if is_space c then lstrip rest else s
  end.

(** [rstrip]: a character is kept when something after it is kept or it is
    not white space. *)
Fixpoint rstrip (s : string) : string :=
  match s with
  | EmptyString => EmptyString
  | String c rest =>
      match rstrip rest with
      | EmptyString => if is_space c then EmptyString else String c EmptyString
      | kept => String c kept
      end
  end.

Definition strip (s : string) : string := rstrip (lstrip s).

(** [str(n)] for an [int]: decimal digits, with a leading minus sign for a
    negative number. *)
Definition str (n : Z) : string := NilZero.string_of_int (Z.to_int n).

(** [s.encode()]: the code points of an ASCII string are its UTF-8 bytes. *)
Definition encode (s : string) : list Z := map code (list_ascii_of_string s).

(** Comparison of [str] values: lexicographic on code points. *)
Fixpoint str_compare (a b : string) : comparison :=
  match a, b with
  | String x a', String y b' =>
      match code x ?= code y with
      | Eq => str_compare a' b'
      | c => c
      end
  | String _ _, EmptyString => Gt
  | EmptyString, String _ _ => Lt
  | EmptyString, EmptyString => Eq
  end.

Definition str_le (a b : string) : bool :=
  match str_compare a b with Gt => false | _ => true end.

End Py.

(** ** hashlib.sha256 (FIPS 180-4), on bytes given as integers 0..255 *)

Module Sha256.

Definition w32 (x : Z) : Z := x mod 2 ^ 32.
Definition add32 (x y : Z) : Z := w32 (x + y).
Definition rotr (n x : Z) : Z :=
  Z.lor (Z.shiftr x n) (w32 (Z.shiftl x (32 - n))).
Definition not32 (x : Z) : Z := w32 (Z.lnot x).

Definition Ch (x y z : Z) : Z := Z.lxor (Z.land x y) (Z.land (not32 x) z).
Definition Maj (x y z : Z) : Z :=
  Z.lxor (Z.lxor (Z.land x y) (Z.land x z)) (Z.land y z).
Definition Sigma0 (x : Z) : Z :=
  Z.lxor (Z.lxor (rotr 2 x) (rotr 13 x)) (rotr 22 x).
Definition Sigma1 (x : Z) : Z :=
  Z.lxor (Z.lxor (rotr 6 x) (rotr 11 x)) (rotr 25 x).
Definition sigma0 (x : Z) : Z :=
  Z.lxor (Z.lxor (rotr 7 x) (rotr 18 x)) (Z.shiftr x 3).
Definition sigma1 (x : Z) : Z :=
  Z.lxor (Z.lxor (rotr 17 x) (rotr 19 x)) (Z.shiftr x 10).

(** The round constants and the initial hash value, in decimal. *)
Definition K : list Z :=
  [
    1116352408; 1899447441; 3049323471; 3921009573;
    961987163; 1508970993; 2453635748; 2870763221;
    3624381080; 310598401; 607225278; 1426881987;
    1925078388; 2162078206; 2614888103; 3248222580;
    3835390401; 4022224774; 264347078; 604807628;
    770255983; 1249150122; 1555081692; 1996064986;
    2554220882; 2821834349; 2952996808; 3210313671;
    3336571891; 3584528711; 113926993; 338241895;
    666307205; 773529912; 1294757372; 1396182291;
    1695183700; 1986661051; 2177026350; 2456956037;
    2730485921; 2820302411; 3259730800; 3345764771;
    3516065817; 3600352804; 4094571909; 275423344;
    430227734; 506948616; 659060556; 883997877;
    958139571; 1322822218; 1537002063; 1747873779;
    1955562222; 2024104815; 2227730452; 2361852424;
    2428436474; 2756734187; 3204031479; 3329325298 ].

Definition H0 : list Z :=
  [
    1779033703; 3144134277; 1013904242; 2773480762;
    1359893119; 2600822924; 528734635; 1541459225 ].

(** Big-endian value of a byte string. *)
Definition be_int (bs : list Z) : Z :=
  fold_left (fun acc b => acc * 256 + b) bs 0.

(** The [k] low bytes of [x], most significant first. *)
Fixpoint be_bytes (k : nat) (x : Z) : list Z :=
  match k with
  | O => []
  | S k' => (Z.shiftr x (8 * Z.of_nat k')) mod 256 :: be_bytes k' x
  end.

(** Padding: a one bit, zeros up to 56 modulo 64, the bit length on 8 bytes. *)
Definition pad (msg : list Z) : list Z :=
  let len := Z.of_nat (List.length msg) in
  let zeros := Z.to_nat ((55 - len) mod 64) in
  msg ++ [128] ++ repeat 0 zeros ++ be_bytes 8 (8 * len).

Fixpoint chunks (fuel : nat) (size : nat) (bs : list Z) : list (list Z) :=
  match fuel, bs with
  | O, _ | _, [] => []
  | S fuel', _ => firstn size bs :: chunks fuel' size (skipn size bs)
  end.

Definition words_of_block (block : list Z) : list Z :=
  map be_int (chunks 16 4 block).

(** Message schedule: sixteen block words extended to sixty-four. *)
Fixpoint extend (n : nat) (w : list Z) : list Z :=
  match n with
  | O => w
  | S n' =>
      let t := List.length w in
      let at_ k := nth (t - k) w 0 in
      extend n'
        (w ++ [add32 (add32 (add32 (sigma1 (at_ 2%nat)) (at_ 7%nat))
                            (sigma0 (at_ 15%nat))) (at_ 16%nat)])
  end.

Definition schedule (block : list Z) : list Z := extend 48 (words_of_block block).

Record regs : Type := Regs { ra : Z; rb : Z; rc : Z; rd : Z;
                             re : Z; rf : Z; rg : Z; rh : Z }.

Definition round (s : regs) (kw : Z * Z) : regs :=
  let (k, w) := kw in
  let t1 := add32 (add32 (add32 (add32 (rh s) (Sigma1 (re s)))
                                (Ch (re s) (rf s) (rg s))) k) w in
  let t2 := add32 (Sigma0 (ra s)) (Maj (ra s) (rb s) (rc s)) in
  Regs (add32 t1 t2) (ra s) (rb s) (rc s) (add32 (rd s) t1) (re s) (rf s) (rg s).

Definition regs_of (h : list Z) : regs :=
  Regs (nth 0 h 0) (nth 1 h 0) (nth 2 h 0) (nth 3 h 0)
       (nth 4 h 0) (nth 5 h 0) (nth 6 h 0) (nth 7 h 0).

Definition list_of (s : regs) : list Z :=
  [ra s; rb s; rc s; rd s; re s; rf s; rg s; rh s].

Definition compress (h : list Z) (block : list Z) : list Z :=
  let s := fold_left round (combine K (schedule block)) (regs_of h) in
  map (fun p => add32 (fst p) (snd p)) (combine h (list_of s)).

(** The 32 digest bytes. *)
Definition digest (msg : list Z) : list Z :=
  let padded := pad msg in
  let h := fold_left compress (chunks (List.length padded) 64 padded) H0 in
  flat_map (be_bytes 4) h.

Definition hex_digit (n : Z) : ascii :=
  if n <? 10 then Py.chr (48 + n) else Py.chr (87 + n).

(** [hexdigest()]: two lowercase hexadecimal digits per byte. *)
Fixpoint hex_of_bytes (bs : list Z) : string :=
  match bs with
  | [] => EmptyString
  | b :: rest => String (hex_digit (b / 16)) (String (hex_digit (b mod 16)) (hex_of_bytes rest))
  end.

Definition hexdigest (msg : list Z) : string := hex_of_bytes (digest msg).

Definition hex_value (c : ascii) : Z :=
  let n := Py.code c in
  if (48 <=? n) && (n <=? 57) then n - 48
  else if (97 <=? n) && (n <=? 102) then n - 87
  else n - 55.

(** [int(s, 16)] on a string of hexadecimal digits. *)
Definition int16 (s : string) : Z :=
  fold_left (fun acc c => acc * 16 + hex_value c) (list_ascii_of_string s) 0.

End Sha256.

(** ** datetime: the proleptic Gregorian calendar of the Python library *)

Module Datetime.
Import Py.

Definition MINYEAR : Z := 1.
Definition MAXYEAR : Z := 9999.
Definition _MAXORDINAL : Z := 3652059.

Definition _DAYS_IN_MONTH : list Z :=
  [-1; 31; 28; 31; 30; 31; 30; 31; 31; 30; 31; 30; 31].
Definition _DAYS_BEFORE_MONTH : list Z :=
  [-1; 0; 31; 59; 90; 120; 151; 181; 212; 243; 273; 304; 334].

Definition index (l : list Z) (i : Z) : Z := nth (Z.to_nat i) l 0.

Definition _is_leap (year : Z) : bool :=
  (year mod 4 =? 0) && (negb (year mod 100 =? 0) || (year mod 400 =? 0)).

Definition _days_before_year (year : Z) : Z :=
  let y := year - 1 in y * 365 + y / 4 - y / 100 + y / 400.

Definition _days_in_month (year month : Z) : Z :=
  if (month =? 2) && _is_leap year then 29 else index _DAYS_IN_MONTH month.

Definition _days_before_month (year month : Z) : Z :=
  index _DAYS_BEFORE_MONTH month
  + (if (2 <? month) && _is_leap year then 1 else 0).

Definition _ymd2ord (year month day : Z) : Z :=
  _days_before_year year + _days_before_month year month + day.

Definition _DI400Y : Z := 146097.
Definition _DI100Y : Z := 36524.
Definition _DI4Y : Z := 1461.

(** Ordinal to (year, month, day), with 0001-01-01 as day 1. *)
Definition _ord2ymd (n0 : Z) : Z * Z * Z :=
  let n := n0 - 1 in
  let n400 := n / _DI400Y in
  let n := n mod _DI400Y in
  let year := n400 * 400 + 1 in
  let n100 := n / _DI100Y in
  let n := n mod _DI100Y in
  let n4 := n / _DI4Y in
  let n := n mod _DI4Y in
  let n1 := n / 365 in
  let n := n mod 365 in
  let year := year + n100 * 100 + n4 * 4 + n1 in
  if (n1 =? 4) || (n100 =? 4) then (year - 1, 12, 31)
  else
    let leapyear := (n1 =? 3) && (negb (n4 =? 24) || (n100 =? 3)) in
    let month := Z.shiftr (n + 50) 5 in
    let preceding :=
      index _DAYS_BEFORE_MONTH month
      + (if (2 <? month) && leapyear then 1 else 0) in
    if n <? preceding then
      let month := month - 1 in
      let preceding :=
        preceding - (index _DAYS_IN_MONTH month
                     + (if (month =? 2) && leapyear then 1 else 0)) in
      (year, month, n - preceding + 1)
    else (year, month, n - preceding + 1).

(** A [datetime] at midnight without time zone: the time-of-day fields are
    zero in every value the pipeline builds, and adding whole days keeps
    them, so only the date fields are carried. *)
Record datetime : Type := Datetime { year : Z; month : Z; day : Z }.

(** [datetime(year, month, day)] with its range checks. *)
Definition new (y m d : Z) : result datetime :=
  if negb ((MINYEAR <=? y) && (y <=? MAXYEAR)) then Raise ValueError
  else if negb ((1 <=? m) && (m <=? 12)) then Raise ValueError
  else if negb ((1 <=? d) && (d <=? _days_in_month y m)) then Raise ValueError
  else Ok (Datetime y m d).

Definition toordinal (dt : datetime) : Z :=
  _ymd2ord (year dt) (month dt) (day dt).

Definition fromordinal (n : Z) : datetime :=
  let '(y, m, d) := _ord2ymd n in Datetime y m d.

(** [dt + timedelta(days=k)]. *)
Definition add_days (dt : datetime) (k : Z) : result datetime :=
  let days := toordinal dt + k in
  if (0 <? days) && (days <=? _MAXORDINAL) then Ok (fromordinal days)
  else Raise OverflowError.

(** [a <= b]: field by field, year first. *)
Definition le (a b : datetime) : bool :=
  match year a ?= year b with
  | Lt => true
  | Gt => false
  | Eq =>
      match month a ?= month b with
      | Lt => true
      | Gt => false
      | Eq => day a <=? day b
      end
  end.

(** [(b - a).days]. *)
Definition days_between (a b : datetime) : Z := toordinal b - toordinal a.

Definition weekday (dt : datetime) : Z := (toordinal dt + 6) mod 7.

Definition isoweekday (dt : datetime) : Z :=
  let r := toordinal dt mod 7 in if r =? 0 then 7 else r.

Definition day_names : list string :=
  ["Monday"; "Tuesday"; "Wednesday"; "Thursday"; "Friday"; "Saturday";
   "Sunday"].

Definition month_names : list string :=
  ["January"; "February"; "March"; "April"; "May"; "June"; "July";
   "August"; "September"; "October"; "November"; "December"].

(** [strftime("%A")] and [strftime("%B")]. *)
Definition strftime_A (dt : datetime) : string :=
  nth (Z.to_nat (weekday dt)) day_names "".
Definition strftime_B (dt : datetime) : string :=
  nth (Z.to_nat (month dt - 1)) month_names "".

(** [int(dt.strftime("%Y%m%d"))]: the year's digits followed by the
    two-digit month and the two-digit day, read as a decimal number. *)
Definition strftime_Ymd_int (dt : datetime) : Z :=
  year dt * 10000 + month dt * 100 + day dt.

(** Decimal digits of [n], padded with zeros to [width] characters. *)
Fixpoint zfill (width : nat) (n : Z) : string :=
  match width with
  | O => EmptyString
  | S w => (zfill w (n / 10) ++ String (chr (48 + n mod 10)) EmptyString)%string
  end.

(** [dt.date().isoformat()]. *)
Definition isoformat (dt : datetime) : string :=
  (zfill 4 (year dt) ++ "-" ++ zfill 2 (month dt) ++ "-" ++ zfill 2 (day dt))%string.

Definition digit_value (c : ascii) : option Z :=
  let n := code c in
  if (48 <=? n) && (n <=? 57) then Some (n - 48) else None.

Fixpoint digits_value (acc : Z) (cs : list ascii) : option Z :=
  match cs with
  | [] => Some acc
  | c :: rest =>
      match digit_value c with
      | Some v => digits_value (acc * 10 + v) rest
      | None => None
      end
  end.

(** [datetime.fromisoformat] on the spelling YYYY-MM-DD, the one the
    pipeline passes; anything else is reported as [ValueError]. *)
Definition fromisoformat (s : string) : result datetime :=
  match list_ascii_of_string s with
  | [y1; y2; y3; y4; s1; m1; m2; s2; d1; d2] =>
      if (code s1 =? 45) && (code s2 =? 45) then
        match digits_value 0 [y1; y2; y3; y4], digits_value 0 [m1; m2],
              digits_value 0 [d1; d2] with
        | Some y, Some m, Some d => new y m d
        | _, _, _ => Raise ValueError
        end
      else Raise ValueError
  | _ => Raise ValueError
  end.

End Datetime.

(** ** The date functions of the pipelines *)

Module Dates.
Import Py Datetime.

(** [deterministc_date_for_row(row_id, year)], the same in both files. *)
Definition deterministc_date_for_row (row_id year : Z) : result Z :=
  let rnd := Sha256.int16 (Sha256.hexdigest (encode (str row_id))) in
  let day_of_year := rnd mod 365 + 1 in
  bind (new year 1 1) (fun jan1 =>
  bind (add_days jan1 (day_of_year - 1)) (fun dt =>
  Ok (strftime_Ymd_int dt))).

Record DateRow : Type := {
  date_key : Z;
  full_date : string;
  day_of_week : Z;
  day_name : string;
  month_of_year : Z;
  month_name : string;
  calendar_quarter : Z;
  calendar_year : Z;
  is_weekend : Z
}.

(** The dictionary appended for [cur]. *)
Definition date_row (cur : datetime) : DateRow :=
  {| date_key := strftime_Ymd_int cur;
     full_date := isoformat cur;
     day_of_week := isoweekday cur;
     day_name := strftime_A cur;
     month_of_year := month cur;
     month_name := strftime_B cur;
     calendar_quarter := (month cur - 1) / 3 + 1;
     calendar_year := year cur;
     is_weekend := if 5 <=? weekday cur then 1 else 0 |}.

(** The [while cur <= end_dt] loop. [None] stands for a loop that has not
    finished within [fuel] iterations. *)
Fixpoint date_loop (fuel : nat) (cur end_dt : datetime) (rows : list DateRow)
  : option (result (list DateRow)) :=
  if le cur end_dt then
    match fuel with
    | O => None
    | S fuel' =>
        match add_days cur 1 with
        | Ok next => date_loop fuel' next end_dt (rows ++ [date_row cur])
        | Raise e => Some (Raise e)
        end
    end
  else Some (Ok rows).

(** [make_date_dim] once both arguments are parsed. The loop is given one
    iteration per day of the range. *)
Definition make_date_dim_from (start_dt end_dt : datetime)
  : option (result (list DateRow)) :=
  date_loop (Z.to_nat (days_between start_dt end_dt + 1)) start_dt end_dt [].

Definition make_date_dim (start end_ : string) : option (result (list DateRow)) :=
  match fromisoformat start with
  | Raise e => Some (Raise e)
  | Ok start_dt =>
      match fromisoformat end_ with
      | Raise e => Some (Raise e)
      | Ok end_dt => make_date_dim_from start_dt end_dt
      end
  end.

End Dates.

(** ** The calendar, stated without ordinals *)

Module Calendar.
Import Datetime.

(** A date the [datetime] constructor accepts. *)
Definition valid (dt : datetime) : Prop :=
  MINYEAR <= year dt <= MAXYEAR /\ 1 <= month dt <= 12 /\
  1 <= day dt <= _days_in_month (year dt) (month dt).

Definition max_date : datetime := Datetime 9999 12 31.

(** The following calendar day. *)
Definition next_day (dt : datetime) : datetime :=
  if day dt <? _days_in_month (year dt) (month dt)
  then Datetime (year dt) (month dt) (day dt + 1)
  else if month dt <? 12 then Datetime (year dt) (month dt + 1) 1
  else Datetime (year dt + 1) 1 1.

(** The calendar day [n] days after [dt]. *)
Fixpoint plus_days (dt : datetime) (n : nat) : datetime :=
  match n with
  | O => dt
  | S n' => next_day (plus_days dt n')
  end.

(** [n] consecutive calendar days starting at [dt]. *)
Fixpoint days_from (dt : datetime) (n : nat) : list datetime :=
  match n with
  | O => []
  | S n' => dt :: days_from (next_day dt) n'
  end.

(** The month and day of [_ord2ymd], given the zero-based day of the year
    and whether the year is a leap year. *)
Definition month_day (leapyear : bool) (n : Z) : Z * Z :=
  let month := Z.shiftr (n + 50) 5 in
  let preceding :=
    index _DAYS_BEFORE_MONTH month
    + (if (2 <? month) && leapyear then 1 else 0) in
  if n <? preceding then
    let month := month - 1 in
    let preceding :=
      preceding - (index _DAYS_IN_MONTH month
                   + (if (month =? 2) && leapyear then 1 else 0)) in
    (month, n - preceding + 1)
  else (month, n - preceding + 1).

(** The integers [lo], [lo + 1], ..., [lo + n - 1]. *)
Definition zrange (lo : Z) (n : nat) : list Z :=
  map (fun i => lo + Z.of_nat i) (seq 0 n).

(** Every day of every month, in both kinds of year, is recovered from its
    position in the year. *)
Definition month_day_table_ok : bool :=
  forallb (fun leap =>
    forallb (fun m =>
      forallb (fun d =>
        let dim := if (m =? 2) && leap then 29 else index _DAYS_IN_MONTH m in
        let before :=
          index _DAYS_BEFORE_MONTH m + (if (2 <? m) && leap then 1 else 0) in
        negb (d <=? dim) || negb (before + d - 1 <=? 364)
        || (let '(m', d') := month_day leap (before + d - 1) in
            (m' =? m) && (d' =? d)))
        (zrange 1 31))
      (zrange 1 12))
    [true; false].

End Calendar.

(** ** The date assignment rule, in the words of its description *)

Module DateRule.
Import Datetime.

(** The SHA-256 digest of the decimal string of [row_id], read as an
    unsigned big-endian integer, modulo 365. *)
Definition day_offset (row_id : Z) : Z :=
  Sha256.be_int (Sha256.digest (Py.encode (Py.str row_id))) mod 365.

Definition jan1 (y : Z) : datetime := Datetime y 1 1.
Definition dec31 (y : Z) : datetime := Datetime y 12 31.

(** January 1 of [y] plus [day_offset row_id] calendar days, as YYYYMMDD. *)
Definition assigned_key (row_id y : Z) : Z :=
  strftime_Ymd_int
    (Calendar.plus_days (jan1 y) (Z.to_nat (day_offset row_id))).

End DateRule.

(** ** pandas operations used by the pipelines, on frames as lists of rows *)

Module Pandas.
Import Py.

Section Frames.
Context {A : Type}.

(** Equality of two rows on the compared columns. *)
Variable eqb : A -> A -> bool.

(** [duplicated()], [keep="first"]: a row is marked when an equal row
    comes before it. *)
Fixpoint duplicated_from (prev rows : list A) : list bool :=
  match rows with
  | [] => []
  | r :: rest => existsb (eqb r) prev :: duplicated_from (prev ++ [r]) rest
  end.

Definition duplicated (rows : list A) : list bool := duplicated_from [] rows.

(** The rows that are not marked, in their order, when the rows [prev]
    came before. *)
Definition kept_from (prev rows : list A) : list A :=
  map fst (filter (fun p => negb (snd p))
             (combine rows (duplicated_from prev rows))).

(** [drop_duplicates()]: the frame without its marked rows. *)
Definition drop_duplicates (rows : list A) : list A := kept_from [] rows.

(** [sort_values(col)] with [le] the order on the column. Rows with equal
    values keep their relative order here; pandas does not fix the order
    of such ties. *)
Variable le : A -> A -> bool.

Fixpoint insert_sorted (x : A) (l : list A) : list A :=
  match l with
  | [] => [x]
  | y :: l' => if le x y then x :: l else y :: insert_sorted x l'
  end.

Definition sort_values (rows : list A) : list A :=
  fold_right insert_sorted [] rows.
End Frames.

(** [left.merge(right, on=..., how="left")]: every left row in order, once
    per right row with an equal key in the order of the right frame, and
    once with nulls when no right row has its key. *)
Definition merge_left {L R K : Type} (eqb : K -> K -> bool)
    (key_l : L -> K) (key_r : R -> K) (left : list L) (right : list R)
  : list (L * option R) :=
  flat_map (fun l =>
    match filter (fun r => eqb (key_l l) (key_r r)) right with
    | [] => [(l, None)]
    | matches => map (fun r => (l, Some r)) matches
    end) left.

(** [reset_index(drop=True)] followed by [frame.index + 1]: the rows
    numbered from 1. *)
Definition number_rows {A : Type} (rows : list A) : list (Z * A) :=
  combine (Calendar.zrange 1 (List.length rows)) rows.

(** [Series.apply] with a function that may raise. *)
Fixpoint apply {A B : Type} (f : A -> result B) (col : list A)
  : result (list B) :=
  match col with
  | [] => Ok []
  | x :: rest =>
      bind (f x) (fun y => bind (apply f rest) (fun ys => Ok (y :: ys)))
  end.

End Pandas.

(** ** Rows of the source, of the dimensions and of the fact table *)

Module Raw.
Record t : Type := Make {
  age : Z; sex : string; bmi : spec_float; children : Z;
  smoker : string; region : string; charges : spec_float }.
End Raw.

Module Provider.
Record t : Type := Make {
  region : string; preferred_provider : string; network_tier : string }.
End Provider.

(** A row of [insured]: the source columns, with the region normalised,
    and the two derived columns. *)
Module Ins.
Record t : Type := Make {
  age : Z; sex : string; bmi : spec_float; children : Z;
  smoker : string; region : string; charges : spec_float;
  age_band : string; bmi_category : string }.
End Ins.

(** The columns [["age","age_band","sex","smoker","bmi","bmi_category",
    "children"]]. *)
Module InsKey.
Record t : Type := Make {
  age : Z; age_band : string; sex : string; smoker : string;
  bmi : spec_float; bmi_category : string; children : Z }.
End InsKey.

Module InsuredDim.
Record t : Type := Make { cols : InsKey.t; insured_key : Z }.
End InsuredDim.

(** A row of the region frame; the enrichment columns are null when the
    left join found no reference entry. *)
Module RegionAttrs.
Record t : Type := Make {
  region : string;
  preferred_provider : option string;
  network_tier : option string }.
End RegionAttrs.

Module RegionDim.
Record t : Type := Make { attrs : RegionAttrs.t; region_key : Z }.
End RegionDim.

(** [fact]: the keys are null where a left join found no dimension row. *)
Module Fact.
Record t : Type := Make {
  insured_key : option Z; region_key : option Z;
  date_key : Z; charges : spec_float }.
End Fact.

(** The four tables handed to the loader. *)
Module Mart.
Record t (F : Type) : Type := Make {
  dim_date : list Dates.DateRow;
  dim_insured : list InsuredDim.t;
  dim_region : list RegionDim.t;
  fact_claims : list F }.
Arguments Make {F}.
Arguments dim_date {F}.
Arguments dim_insured {F}.
Arguments dim_region {F}.
Arguments fact_claims {F}.
End Mart.

(** ** The transform steps shared by the two pipelines *)

Module Pipeline.
Import Py Pandas.

(** Equality of two float cells when rows are compared for duplicates or
    joined: equal as numbers (so the two zeros are equal), or both NaN. *)
Definition is_nan (x : spec_float) : bool :=
  match x with S754_nan => true | _ => false end.

Definition float_cell_eqb (x y : spec_float) : bool :=
  SFeqb x y || (is_nan x && is_nan y).

Definition inskey_eqb (a b : InsKey.t) : bool :=
  (InsKey.age a =? InsKey.age b)
  && String.eqb (InsKey.age_band a) (InsKey.age_band b)
  && String.eqb (InsKey.sex a) (InsKey.sex b)
  && String.eqb (InsKey.smoker a) (InsKey.smoker b)
  && float_cell_eqb (InsKey.bmi a) (InsKey.bmi b)
  && String.eqb (InsKey.bmi_category a) (InsKey.bmi_category b)
  && (InsKey.children a =? InsKey.children b).

Definition option_string_eqb (a b : option string) : bool :=
  match a, b with
  | Some x, Some y => String.eqb x y
  | None, None => true
  | _, _ => false
  end.

Definition attrs_eqb (a b : RegionAttrs.t) : bool :=
  String.eqb (RegionAttrs.region a) (RegionAttrs.region b)
  && option_string_eqb (RegionAttrs.preferred_provider a)
                       (RegionAttrs.preferred_provider b)
  && option_string_eqb (RegionAttrs.network_tier a)
                       (RegionAttrs.network_tier b).

(** Steps 3 of [etl_pipeline.py] and 1 of [etl_pipeline_mysql.py]: the two
    derived columns, and [str.strip().str.lower()] on the region. *)
Definition transform_row (r : Raw.t) : Ins.t :=
  {| Ins.age := Raw.age r; Ins.sex := Raw.sex r; Ins.bmi := Raw.bmi r;
     Ins.children := Raw.children r; Ins.smoker := Raw.smoker r;
     Ins.region := lower (strip (Raw.region r));
     Ins.charges := Raw.charges r;
     Ins.age_band := Classifier.age_band (Raw.age r);
     Ins.bmi_category := Classifier.bmi_category (Raw.bmi r) |}.

Definition transform (insurance : list Raw.t) : list Ins.t :=
  map transform_row insurance.

Definition key_of (i : Ins.t) : InsKey.t :=
  {| InsKey.age := Ins.age i; InsKey.age_band := Ins.age_band i;
     InsKey.sex := Ins.sex i; InsKey.smoker := Ins.smoker i;
     InsKey.bmi := Ins.bmi i; InsKey.bmi_category := Ins.bmi_category i;
     InsKey.children := Ins.children i |}.

(** A row of the left join of the distinct regions with the reference. *)
Definition attrs_of (p : string * option Provider.t) : RegionAttrs.t :=
  {| RegionAttrs.region := fst p;
     RegionAttrs.preferred_provider :=
       option_map Provider.preferred_provider (snd p);
     RegionAttrs.network_tier := option_map Provider.network_tier (snd p) |}.

Definition region_le (a b : RegionAttrs.t) : bool :=
  str_le (RegionAttrs.region a) (RegionAttrs.region b).

(** The region dimension. A frame built from an empty list of documents has
    no column at all, so joining on "region" raises [KeyError].
    [dedup_joined] is the [drop_duplicates()] that only
    [etl_pipeline_mysql.py] applies to the joined frame. *)
Definition build_regions (dedup_joined : bool) (insured : list Ins.t)
    (providers : list Provider.t) : result (list RegionDim.t) :=
  match providers with
  | [] => Raise (KeyError "region")
  | _ =>
      let distinct := drop_duplicates String.eqb (map Ins.region insured) in
      let joined :=
        map attrs_of
          (merge_left String.eqb (fun s => s) Provider.region
             distinct providers) in
      let joined :=
        if dedup_joined then drop_duplicates attrs_eqb joined else joined in
      let sorted := sort_values region_le joined in
      Ok (map (fun p => RegionDim.Make (snd p) (fst p)) (number_rows sorted))
  end.

(** The insured dimension. *)
Definition build_insured_dim (insured : list Ins.t) : list InsuredDim.t :=
  map (fun p => InsuredDim.Make (snd p) (fst p))
    (number_rows (drop_duplicates inskey_eqb (map key_of insured))).

(** [ins_enriched] after the two left joins of the fact step: each row of
    [insured] with the insured dimension row and the
    [regions[["region","region_key"]]] row it was joined with. *)
Definition enrich (insured : list Ins.t) (insured_dim : list InsuredDim.t)
    (regions : list RegionDim.t)
  : list (Ins.t * option InsuredDim.t * option (string * Z)) :=
  merge_left String.eqb (fun p => Ins.region (fst p)) fst
    (merge_left inskey_eqb key_of InsuredDim.cols insured insured_dim)
    (map (fun r => (RegionAttrs.region (RegionDim.attrs r),
                    RegionDim.region_key r)) regions).

Definition fact_row
    (row : Ins.t * option InsuredDim.t * option (string * Z)) (dk : Z)
  : Fact.t :=
  let '(i, d, r) := row in
  {| Fact.insured_key := option_map InsuredDim.insured_key d;
     Fact.region_key := option_map snd r;
     Fact.date_key := dk;
     Fact.charges := Ins.charges i |}.

(** The stages of a run, in the order of the numbered comments of [main]. *)
Inductive stage : Type :=
| Extracting | Transforming | BuildingFact | Loading.

(** A run: the stages entered so far and the value or the exception. *)
Definition run (A : Type) : Type := (list stage * result A)%type.

Definition ret {A : Type} (a : A) : run A := ([], Ok a).
Definition lift {A : Type} (r : result A) : run A := ([], r).
Definition enter (s : stage) : run unit := ([s], Ok tt).
Definition then_ {A B : Type} (m : run A) (k : A -> run B) : run B :=
  match snd m with
  | Ok a => (fst m ++ fst (k a), snd (k a))
  | Raise e => (fst m, Raise e)
  end.

(** Looking a global name up: the module namespace, then the builtins. *)
Definition load_global (globals builtins : list string) (name : string)
  : result unit :=
  if existsb (String.eqb name) (globals ++ builtins) then Ok tt
  else Raise (NameError name).

(** The builtins the two modules refer to; none of the builtins of Python
    is called [np]. *)
Definition builtins : list string :=
  ["int"; "str"; "len"; "range"; "open"; "print"; "list"; "Exception";
   "__file__"; "__name__"].

(** The date dimension both [main]s build; the loop is known to finish. *)
Definition dim_date_2010 : result (list Dates.DateRow) :=
  match Dates.make_date_dim "2010-01-01" "2010-12-31" with
  | Some r => r
  | None => Ok []
  end.

End Pipeline.

(** ** Natural keys as values *)

Module Keys.

(** The two zeros are one value. *)
Definition canon_float (x : spec_float) : spec_float :=
  match x with
  | S754_zero _ => S754_zero false
  | _ => x
  end.

(** The natural-key tuple of the insured dimension as a value: the tuple
    with its float cell in canonical form. *)
Definition canon_key (k : InsKey.t) : InsKey.t :=
  {| InsKey.age := InsKey.age k; InsKey.age_band := InsKey.age_band k;
     InsKey.sex := InsKey.sex k; InsKey.smoker := InsKey.smoker k;
     InsKey.bmi := canon_float (InsKey.bmi k);
     InsKey.bmi_category := InsKey.bmi_category k;
     InsKey.children := InsKey.children k |}.

Definition float_eq_dec (a b : spec_float) : {a = b} + {a <> b}.
Proof.
  decide equality; first [apply Bool.bool_dec | apply Pos.eq_dec | apply Z.eq_dec].
Defined.

Definition inskey_eq_dec (a b : InsKey.t) : {a = b} + {a <> b}.
Proof.
  decide equality;
    first [apply Z.eq_dec | apply string_dec | apply float_eq_dec].
Defined.

(** The number of distinct natural-key tuples in a column of tuples. *)
Definition distinct_keys (keys : list InsKey.t) : nat :=
  List.length (nodup inskey_eq_dec (map canon_key keys)).

(** The number of distinct labels in a column of strings. *)
Definition distinct_labels (labels : list string) : nat :=
  List.length (nodup string_dec labels).

(** A reference in which the entries of one region are all the same
    entry. *)
Definition consistent (providers : list Provider.t) : Prop :=
  forall p q,
    In p providers -> In q providers ->
    Provider.region p = Provider.region q -> p = q.

(** The normalised region label of a source record. *)
Definition label (r : Raw.t) : string := Py.lower (Py.strip (Raw.region r)).

(** The first insured dimension row with the natural key of [i]. *)
Definition lookup_insured (insured_dim : list InsuredDim.t) (i : Ins.t)
  : option InsuredDim.t :=
  find (fun d => Pipeline.inskey_eqb (Pipeline.key_of i) (InsuredDim.cols d))
    insured_dim.

(** The first [(region, region_key)] pair with the region of [i]. *)
Definition lookup_region (regions : list RegionDim.t) (i : Ins.t)
  : option (string * Z) :=
  find (fun p => String.eqb (Ins.region i) (fst p))
    (map (fun r => (RegionAttrs.region (RegionDim.attrs r),
                    RegionDim.region_key r)) regions).

(** What holds between the record at position [fst ir] and its fact row:
    same charges, the date key assigned to the position and present in the
    date dimension, the key of an insured dimension row with the record's
    natural-key tuple, the key of a region dimension row with the record's
    normalised label. *)
Definition fact_of_record (mart : Mart.t Fact.t) (ir : Z * Raw.t) (f : Fact.t)
  : Prop :=
  Fact.charges f = Raw.charges (snd ir) /\
  Fact.date_key f = DateRule.assigned_key (fst ir) 2010 /\
  In (Fact.date_key f) (map Dates.date_key (Mart.dim_date mart)) /\
  (exists d, In d (Mart.dim_insured mart) /\
     Fact.insured_key f = Some (InsuredDim.insured_key d) /\
     Pipeline.inskey_eqb
       (Pipeline.key_of (Pipeline.transform_row (snd ir)))
       (InsuredDim.cols d) = true) /\
  (exists g, In g (Mart.dim_region mart) /\
     Fact.region_key f = Some (RegionDim.region_key g) /\
     RegionAttrs.region (RegionDim.attrs g) = label (snd ir)).

End Keys.

(** ** etl_pipeline.py *)

Module Sqlite.
Import Py Pandas Pipeline.

(** The names bound at module level: the imports, the constants and the
    functions. *)
Definition module_globals : list string :=
  ["os"; "json"; "sqlite3"; "random"; "hashlib"; "pd"; "datetime";
   "timedelta"; "PROJECT_ROOT"; "DATA_DIR"; "SQL_DIR"; "SOURCES_DIR";
   "MART_DB"; "CLASSICMODELS_DB"; "exec_sql_script";
   "build_classicmodels_sqlite"; "make_date_dim"; "age_band";
   "bmi_category"; "deterministc_date_for_row"; "main"].

(** [fact] with its [claim_key] column. *)
Record claim : Type := Claim { fact : Fact.t; claim_key : Z }.

(** Step 7: the two joins, then [np.arange] for the row identifiers and
    again for the claim keys. *)
Definition build_fact (insured : list Ins.t)
    (insured_dim : list InsuredDim.t) (regions : list RegionDim.t)
  : result (list claim) :=
  let ins_enriched := enrich insured insured_dim regions in
  bind (load_global module_globals builtins "np") (fun _ =>
  let row_id := Calendar.zrange 1 (List.length ins_enriched) in
  bind (apply (fun i => Dates.deterministc_date_for_row i 2010) row_id)
    (fun date_key =>
  let fact := map (fun p => fact_row (fst p) (snd p))
                (combine ins_enriched date_key) in
  bind (load_global module_globals builtins "np") (fun _ =>
  Ok (map (fun p => Claim (snd p) (fst p)) (number_rows fact))))).

Definition main (insurance : list Raw.t) (providers : list Provider.t)
  : run (Mart.t claim) :=
  then_ (enter Extracting) (fun _ =>
  then_ (enter Transforming) (fun _ =>
  let insured := transform insurance in
  then_ (lift (build_regions false insured providers)) (fun regions =>
  let insured_dim := build_insured_dim insured in
  then_ (lift dim_date_2010) (fun dim_date =>
  then_ (enter BuildingFact) (fun _ =>
  then_ (lift (build_fact insured insured_dim regions)) (fun fact =>
  then_ (enter Loading) (fun _ =>
  ret (Mart.Make dim_date insured_dim regions fact)))))))).

End Sqlite.

(** ** etl_pipeline_mysql.py *)

Module Mysql.
Import Py Pandas Pipeline.

(** Step 5: the two joins, [range(1, len(ins_enriched)+1)] for the row
    identifiers, the date keys, and the four fact columns. *)
Definition build_fact (insured : list Ins.t)
    (insured_dim : list InsuredDim.t) (regions : list RegionDim.t)
  : result (list Fact.t) :=
  let ins_enriched := enrich insured insured_dim regions in
  let row_id := Calendar.zrange 1 (List.length ins_enriched) in
  bind (apply (fun i => Dates.deterministc_date_for_row i 2010) row_id)
    (fun date_key =>
  Ok (map (fun p => fact_row (fst p) (snd p))
        (combine ins_enriched date_key))).

Definition main (insurance : list Raw.t) (providers : list Provider.t)
  : run (Mart.t Fact.t) :=
  then_ (enter Extracting) (fun _ =>
  then_ (enter Transforming) (fun _ =>
  let insured := transform insurance in
  then_ (lift (build_regions true insured providers)) (fun regions =>
  let insured_dim := build_insured_dim insured in
  then_ (lift dim_date_2010) (fun dim_date =>
  then_ (enter BuildingFact) (fun _ =>
  then_ (lift (build_fact insured insured_dim regions)) (fun fact =>
  then_ (enter Loading) (fun _ =>
  ret (Mart.Make dim_date insured_dim regions fact)))))))).

End Mysql.

(** ** The three-record scenario *)

Module Scenario.
Import Pipeline.

Definition f22 : spec_float := S754_finite false 6192449487634432 (-48).
Definition f31 : spec_float := S754_finite false 8725724278030336 (-48).
Definition f1000 : spec_float := S754_finite false 8796093022208000 (-43).
Definition f5000 : spec_float := S754_finite false 5497558138880000 (-40).
Definition f1200 : spec_float := S754_finite false 5277655813324800 (-42).
Definition f7200 : spec_float := S754_finite false 7916483719987200 (-40).

Definition records : list Raw.t :=
  [ Raw.Make 25 "F" f22 0 "no" " East " f1000;
    Raw.Make 70 "M" f31 2 "yes" "east" f5000;
    Raw.Make 25 "F" f22 0 "no" "west" f1200 ].

(** A reference with one entry for each of the two regions. *)
Definition reference : list Provider.t :=
  [ Provider.Make "east" "Atlantic Care" "gold";
    Provider.Make "west" "Pacific Health" "silver" ].

(** A reference whose entries for the east spell the region with a capital
    or with spaces around it. *)
Definition reference_spelled : list Provider.t :=
  [ Provider.Make "East" "Atlantic Care" "gold";
    Provider.Make " east " "Atlantic Care" "gold";
    Provider.Make "west" "Pacific Health" "silver" ].

(** A reference with two different entries for the east. *)
Definition reference_twice : list Provider.t :=
  [ Provider.Make "east" "Atlantic Care" "gold";
    Provider.Make "east" "Bay Clinics" "silver" ].

(** The sum of a column of charges in binary64 arithmetic, from zero. *)
Definition total_charges (facts : list Fact.t) : spec_float :=
  fold_left (fun acc f => SFadd 53 1024 acc (Fact.charges f)) facts
    (S754_zero false).

End Scenario.

(** ** The schema statements of etl_pipeline_mysql.py *)

Module Ddl.

(** [s.split(sep)] for a separator of one character: the pieces between
    the separators, empty pieces included. *)
Fixpoint split_on (sep : ascii) (s : string) : list string :=
  match s with
  | EmptyString => [EmptyString]
  | String c rest =>
      if Ascii.eqb c sep then EmptyString :: split_on sep rest
      else
        match split_on sep rest with
        | piece :: pieces => String c piece :: pieces
        | [] => [String c EmptyString]
        end
  end.

(** Truth value of a [str]: false for the empty string only. *)
Definition truthy (s : string) : bool :=
  match s with
  | EmptyString => false
  | String _ _ => true
  end.

(** [[s.strip() for s in ddl.split(";") if s.strip()]]: the statements
    step 7 executes, in order. *)
Definition statements (ddl : string) : list string :=
  map Py.strip (filter (fun s => truthy (Py.strip s)) (split_on ";" ddl)).

(** [sep.join(pieces)]. *)
Fixpoint join_with (sep : ascii) (pieces : list string) : string :=
  match pieces with
  | [] => EmptyString
  | [p] => p
  | p :: rest => (p ++ String sep (join_with sep rest))%string
  end.

(** Whether the character occurs in the string. *)
Fixpoint occurs (c : ascii) (s : string) : bool :=
  match s with
  | EmptyString => false
  | String x rest => Ascii.eqb x c || occurs c rest
  end.

(** A script that writes each statement followed by a semicolon and a
    line feed. *)
Fixpoint script_of (stmts : list string) : string :=
  match stmts with
  | [] => EmptyString
  | st :: rest =>
      (st ++ String ";" (String (Py.chr 10) (script_of rest)))%string
  end.

End Ddl.

(** ** build_classicmodels_sqlite and exec_sql_script of etl_pipeline.py *)

Module Classicmodels.

(** A failed file or database operation, with its message. *)
Inductive failure : Type := Failure (message : string).

(** What the function does to the outside, in order. *)
Inductive action : Type :=
| Print (message : string)
| PrintError (message : string) (e : failure)
| Connect
| Pragma
| ReadScript
| ExecuteScript
| Commit
| Query
| WriteCsv
| Close.

Definition failure_eq_dec (a b : failure) : {a = b} + {a <> b}.
Proof. decide equality. apply string_dec. Defined.

Definition action_eq_dec (a b : action) : {a = b} + {a <> b}.
Proof.
  decide equality; first [apply string_dec | apply failure_eq_dec].
Defined.

(** How the outside answers: whether the SQL file is there, and for each
    operation whether it fails; the query answers with the number of its
    rows. *)
Record world : Type := {
  sql_exists : bool;
  connect : option failure;
  pragma : option failure;
  read_script : option failure;
  executescript : option failure;
  commit : option failure;
  query : failure + Z;
  to_csv : option failure;
  close : option failure }.

(** [exec_sql_script]: read the file, run it as one script. *)
Definition exec_sql_script (w : world) : list action * option failure :=
  match read_script w with
  | Some e => ([ReadScript], Some e)
  | None => ([ReadScript; ExecuteScript], executescript w)
  end.

(** The inner [try]: the query, the CSV file and the message; any failure
    is printed and dropped. *)
Definition extract_offices (w : world) : list action :=
  match query w with
  | inl e =>
      [Query;
       PrintError
         "Extraction query failed (likely due to SQLite type quirks), continuing. Error:"
         e]
  | inr rows =>
      match to_csv w with
      | Some e =>
          [Query; WriteCsv;
           PrintError
             "Extraction query failed (likely due to SQLite type quirks), continuing. Error:"
             e]
      | None =>
          [Query; WriteCsv;
           Print ("Extracted " ++ Py.str rows
                  ++ " office rows from SQL source.")%string]
      end
  end.

(** The body of the outer [try]. *)
Definition try_body (w : world) : list action * option failure :=
  match exec_sql_script w with
  | (t, Some e) => (t, Some e)
  | (t, None) =>
      match commit w with
      | Some e => (t ++ [Commit], Some e)
      | None => (t ++ [Commit] ++ extract_offices w, None)
      end
  end.

(** [build_classicmodels_sqlite]: the actions and the exception that
    leaves the function, if any. A failure of [close] in the [finally]
    clause replaces the one of the body. *)
Definition build_classicmodels_sqlite (w : world)
  : list action * option failure :=
  if negb (sql_exists w) then
    ([Print "classicmodels SQL not found; skipping SQL extraction step."],
     None)
  else
    match connect w with
    | Some e => ([Connect], Some e)
    | None =>
        match pragma w with
        | Some e => ([Connect; Pragma], Some e)
        | None =>
            let (t, r) := try_body w in
            match close w with
            | Some e => ([Connect; Pragma] ++ t ++ [Close], Some e)
            | None => ([Connect; Pragma] ++ t ++ [Close], r)
            end
        end
    end.

End Classicmodels.

(** ** Notions used to state further properties *)

Module Notions.
Import Pipeline.

(** Equality of two source records on the five source columns of the
    insured dimension. *)
Definition source_key_eqb (a b : Raw.t) : bool :=
  (Raw.age a =? Raw.age b)
  && String.eqb (Raw.sex a) (Raw.sex b)
  && String.eqb (Raw.smoker a) (Raw.smoker b)
  && float_cell_eqb (Raw.bmi a) (Raw.bmi b)
  && (Raw.children a =? Raw.children b).

(** The five source columns as a value. *)
Definition source_key (r : Raw.t) : Z * string * string * spec_float * Z :=
  (Raw.age r, Raw.sex r, Raw.smoker r, Keys.canon_float (Raw.bmi r),
   Raw.children r).


(** The left join of the distinct regions of [insured] with the
    reference, before it is sorted and numbered. *)
Definition joined (insured : list Ins.t) (providers : list Provider.t)
  : list RegionAttrs.t :=
  map attrs_of
    (Pandas.merge_left String.eqb (fun s => s) Provider.region
       (Pandas.drop_duplicates String.eqb (map Ins.region insured))
       providers).

(** The enrichment of a label: the first reference entry of that region. *)
Definition enrich_label (providers : list Provider.t) (s : string)
  : RegionAttrs.t :=
  attrs_of
    (s, find (fun e => String.eqb s (Provider.region e)) providers).

(** The date dimension of a whole year. *)
Definition year_dim (y : Z) : option (Py.result (list Dates.DateRow)) :=
  Dates.make_date_dim (Datetime.isoformat (DateRule.jan1 y))
    (Datetime.isoformat (DateRule.dec31 y)).

End Notions.

(** ** Properties of the attribute classifier *)

Module ClassifierFacts.
Import Classifier.

(** The three thresholds denote 18.5, 25 and 30: all share the exponent
    [-48], so each mantissa is the threshold times [2^48]. *)
Example thresholds_values :
  2 * 5207287069147136 = 37 * 2 ^ 48 /\
  7036874417766400 = 25 * 2 ^ 48 /\
  8444249301319680 = 30 * 2 ^ 48.
Proof. repeat split; reflexivity. Qed.

Example thresholds_are_binary64 :
  valid_binary 53 1024 f18_5 = true /\
  valid_binary 53 1024 f25 = true /\
  valid_binary 53 1024 f30 = true.
Proof. repeat split; reflexivity. Qed.

Lemma age_band_unfold (age : Z) :
  age_band age =
    if (0 <=? age) && (age <=? 17) then "0-17"
    else if (18 <=? age) && (age <=? 24) then "18-24"
    else if (25 <=? age) && (age <=? 34) then "25-34"
    else if (35 <=? age) && (age <=? 44) then "35-44"
    else if (45 <=? age) && (age <=? 54) then "45-54"
    else if (55 <=? age) && (age <=? 64) then "55-64"
    else if (65 <=? age) && (age <=? 200) then "65+"
    else "unknown".
Proof. reflexivity. Qed.

Ltac decide_lebs :=
  repeat first [ rewrite (proj2 (Z.leb_le _ _)) by lia
               | rewrite (proj2 (Z.leb_gt _ _)) by lia ];
  cbn [andb].

(** C5, as the code has it: each label is returned exactly on its inclusive
    range, the last range being [65,200]; "unknown" is returned exactly for
    negative ages and for ages above 200. *)
Theorem age_band_ranges (age : Z) :
  (age_band age = "0-17" <-> 0 <= age <= 17) /\
  (age_band age = "18-24" <-> 18 <= age <= 24) /\
  (age_band age = "25-34" <-> 25 <= age <= 34) /\
  (age_band age = "35-44" <-> 35 <= age <= 44) /\
  (age_band age = "45-54" <-> 45 <= age <= 54) /\
  (age_band age = "55-64" <-> 55 <= age <= 64) /\
  (age_band age = "65+" <-> 65 <= age <= 200) /\
  (age_band age = "unknown" <-> age < 0 \/ 200 < age).
Proof.
  rewrite age_band_unfold.
  assert (age < 0 \/ 0 <= age <= 17 \/ 18 <= age <= 24 \/ 25 <= age <= 34 \/
          35 <= age <= 44 \/ 45 <= age <= 54 \/ 55 <= age <= 64 \/
          65 <= age <= 200 \/ 200 < age) as Hcase by lia.
  repeat (destruct Hcase as [Hcase|Hcase]);
    decide_lebs; repeat split; intros; try reflexivity; try congruence; lia.
Qed.

(** C5 as stated fails above 200: the last bin is closed at 200. *)
Lemma age_band_above_200_unknown :
  age_band 201 = "unknown" /\
  ~ (forall age : Z, 65 <= age -> age_band age = "65+").
Proof.
  split; [reflexivity|].
  intros H. specialize (H 201 ltac:(lia)). discriminate H.
Qed.

(** Comparisons of a non-negative finite float against a positive finite
    float reduce to the lexicographic order on (exponent, mantissa). *)
Lemma SFltb_pos_finite (m c : positive) (e k : Z) :
  SFltb (S754_finite false m e) (S754_finite false c k) =
    (e <? k) || ((e =? k) && (Pos.ltb m c)).
Proof.
  unfold SFltb, SFcompare. rewrite Pos.compare_cont_spec. cbn [Pos.switch_Eq].
  destruct (Z.compare_spec e k), (Z.ltb_spec e k), (Z.eqb_spec e k);
    try lia; cbn [orb andb]; try reflexivity.
  unfold Pos.ltb. destruct (m ?= c)%positive; reflexivity.
Qed.

Lemma SFleb_pos_finite (m c : positive) (e k : Z) :
  SFleb (S754_finite false c k) (S754_finite false m e) =
    (k <? e) || ((k =? e) && (Pos.leb c m)).
Proof.
  unfold SFleb, SFcompare. rewrite Pos.compare_cont_spec. cbn [Pos.switch_Eq].
  destruct (Z.compare_spec k e), (Z.ltb_spec k e), (Z.eqb_spec k e);
    try lia; cbn [orb andb]; try reflexivity.
  unfold Pos.leb. destruct (c ?= m)%positive; reflexivity.
Qed.

(** Away from NaN the two comparisons are complementary. *)
Lemma SFleb_negb_SFltb (x y : spec_float) :
  x <> S754_nan -> y <> S754_nan -> SFleb y x = negb (SFltb x y).
Proof.
  intros Hx Hy. unfold SFleb, SFltb.
  destruct x as [sx|sx| |sx mx ex], y as [sy|sy| |sy my ey];
    try congruence; cbn;
    try (destruct sx; reflexivity); try (destruct sy; reflexivity);
    try (destruct sx, sy; reflexivity).
  rewrite !Pos.compare_cont_spec. cbn [Pos.switch_Eq].
  rewrite (Z.compare_antisym ex ey), (Pos.compare_antisym mx my).
  destruct sx, sy; try reflexivity;
    destruct (ex ?= ey); cbn; try reflexivity;
    destruct (mx ?= my)%positive; reflexivity.
Qed.

(** Below one threshold means below every larger one. *)
Lemma SFltb_thresholds (m : positive) (e : Z) :
  (SFltb (S754_finite false m e) f18_5 = true ->
   SFltb (S754_finite false m e) f25 = true) /\
  (SFltb (S754_finite false m e) f25 = true ->
   SFltb (S754_finite false m e) f30 = true).
Proof.
  unfold f18_5, f25, f30. rewrite !SFltb_pos_finite.
  destruct (Z.ltb_spec e (-48)); cbn [orb]; [split; reflexivity|].
  destruct (Z.eqb_spec e (-48)); cbn [andb]; [|split; intros; assumption].
  rewrite !Pos.ltb_lt.
  split; intros Hm; (eapply Pos.lt_trans; [exact Hm | reflexivity]).
Qed.

(** C6: on every float [b >= 0] the category is "Underweight" exactly when
    [b < 18.5], "Normal" exactly when [18.5 <= b < 25], "Overweight" exactly
    when [25 <= b < 30] and "Obese" exactly when [30 <= b]. *)
Theorem bmi_category_ranges (b : spec_float) (Hb : SFleb fzero b = true) :
  (bmi_category b = "Underweight" <-> SFltb b f18_5 = true) /\
  (bmi_category b = "Normal" <->
     SFleb f18_5 b = true /\ SFltb b f25 = true) /\
  (bmi_category b = "Overweight" <->
     SFleb f25 b = true /\ SFltb b f30 = true) /\
  (bmi_category b = "Obese" <-> SFleb f30 b = true).
Proof.
  destruct b as [s|s| |s m e]; try discriminate Hb.
  - cbn. repeat split; intros; try reflexivity; try discriminate;
      destruct H; discriminate.
  - destruct s; [discriminate Hb|].
    cbn. repeat split; intros; try reflexivity; try discriminate;
      destruct H; discriminate.
  - destruct s; [discriminate Hb|]. clear Hb.
    destruct (SFltb_thresholds m e) as [H12 H23].
    unfold bmi_category.
    rewrite !(SFleb_negb_SFltb (S754_finite false m e)) by discriminate.
    destruct (SFltb (S754_finite false m e) f18_5),
             (SFltb (S754_finite false m e) f25),
             (SFltb (S754_finite false m e) f30);
      cbn [negb]; repeat split; intros;
      try reflexivity; try discriminate;
      try (destruct H; discriminate);
      try (specialize (H12 eq_refl); discriminate);
      try (specialize (H23 eq_refl); discriminate).
Qed.

(** The boundary cases listed with C6: 17.9, 18.5, 24.99, 25.0, 29.99, 30.0
    (each written as the binary64 value nearest to the decimal). *)
Example bmi_category_boundaries :
  bmi_category (S754_finite false 5038402083120742 (-48)) = "Underweight" /\
  bmi_category f18_5 = "Normal" /\
  bmi_category (S754_finite false 7034059667999293 (-48)) = "Normal" /\
  bmi_category f25 = "Overweight" /\
  bmi_category (S754_finite false 8441434551552573 (-48)) = "Overweight" /\
  bmi_category f30 = "Obese".
Proof. repeat split; reflexivity. Qed.

Lemma bmi_category_ranges_witness :
  SFleb fzero f18_5 = true /\ bmi_category f18_5 = "Normal".
Proof.
  split; [reflexivity|].
  apply (bmi_category_ranges f18_5 eq_refl). split; reflexivity.
Defined.

End ClassifierFacts.

(** ** The library models on known values *)

Module LibraryChecks.
Import Py Datetime.

(** SHA-256 on the standard test messages, on a message that needs two
    blocks, and on the decimal string of row 1. *)
Example sha256_vectors :
  Sha256.hexdigest (encode "") =
    "e3b0c44298fc1c149afbf4c8996fb92427ae41e4649b934ca495991b7852b855" /\
  Sha256.hexdigest (encode "abc") =
    "ba7816bf8f01cfea414140de5dae2223b00361a396177a9cb410ff61f20015ad" /\
  Sha256.hexdigest
    (encode "abcdbcdecdefdefgefghfghighijhijkijkljklmklmnlmnomnopnopq") =
    "248d6a61d20638b8e5c026930c3e6039a33ce45964ff2167f6ecedd419db06c1" /\
  Sha256.hexdigest (encode (str 1)) =
    "6b86b273ff34fce19d6b804eff5a3f5747ada4eaa22f1d49c01e52ddb7875b4b".
Proof. repeat split; vm_compute; reflexivity. Qed.

Example str_values :
  str 0 = "0" /\ str 1338 = "1338" /\ str (-15) = "-15".
Proof. repeat split; reflexivity. Qed.

Example strip_lower_values :
  lower (strip " East ") = "east" /\
  strip "  Ea st  " = "Ea st" /\
  lower "North-West 2" = "north-west 2" /\
  str_le "east" "west" = true /\ str_le "west" "east" = false.
Proof. repeat split; reflexivity. Qed.

(** Ordinals, week days and keys of known dates: 2012-02-29 is day 734562,
    2010-01-01 was a Friday, day 146097 closes the first 400 years. *)
Example calendar_values :
  toordinal (Datetime 2012 2 29) = 734562 /\
  fromordinal 734562 = Datetime 2012 2 29 /\
  fromordinal 1 = Datetime 1 1 1 /\
  fromordinal 146097 = Datetime 400 12 31 /\
  fromordinal _MAXORDINAL = Datetime 9999 12 31 /\
  strftime_A (Datetime 2010 1 1) = "Friday" /\
  isoweekday (Datetime 2010 1 3) = 7 /\
  strftime_Ymd_int (Datetime 2010 8 15) = 20100815 /\
  isoformat (Datetime 987 6 5) = "0987-06-05" /\
  fromisoformat "2010-12-31" = Ok (Datetime 2010 12 31) /\
  fromisoformat "2010-02-30" = Raise ValueError.
Proof. repeat split; vm_compute; reflexivity. Qed.

(** The date keys of the first five rows in 2010. *)
Example date_keys_of_first_rows :
  map (fun i => Dates.deterministc_date_for_row i 2010) [1; 2; 3; 4; 5] =
  [Ok 20100131; Ok 20100815; Ok 20100817; Ok 20101224; Ok 20100514].
Proof. vm_compute. reflexivity. Qed.

End LibraryChecks.

(** ** Ordinals and calendar dates agree *)

Module CalendarFacts.
Import Py Datetime Calendar.

Lemma zrange_In (lo : Z) (n : nat) (x : Z) :
  lo <= x < lo + Z.of_nat n -> In x (zrange lo n).
Proof.
  intros H. unfold zrange. apply in_map_iff.
  exists (Z.to_nat (x - lo)). split; [lia|].
  apply in_seq. lia.
Qed.

Lemma is_leap_spec (y : Z) :
  _is_leap y = true <->
  y mod 4 = 0 /\ (y mod 100 <> 0 \/ y mod 400 = 0).
Proof.
  unfold _is_leap.
  rewrite andb_true_iff, orb_true_iff, negb_true_iff, !Z.eqb_eq, Z.eqb_neq.
  tauto.
Qed.

(** The length of a year in days. *)
Lemma days_before_year_succ (y : Z) :
  _days_before_year (y + 1) =
  _days_before_year y + 365 + (if _is_leap y then 1 else 0).
Proof.
  unfold _days_before_year.
  destruct (_is_leap y) eqn:L.
  - apply is_leap_spec in L.
    replace (y + 1 - 1) with y by lia.
    Z.div_mod_to_equations. lia.
  - assert (~ (y mod 4 = 0 /\ (y mod 100 <> 0 \/ y mod 400 = 0))) as N
      by (rewrite <- is_leap_spec; congruence).
    replace (y + 1 - 1) with y by lia.
    Z.div_mod_to_equations. lia.
Qed.

(** [_ord2ymd] with its month and day computation named. *)
Lemma ord2ymd_unfold (n0 : Z) :
  _ord2ymd n0 =
    let n := n0 - 1 in
    let n400 := n / 146097 in
    let n := n mod 146097 in
    let n100 := n / 36524 in
    let n := n mod 36524 in
    let n4 := n / 1461 in
    let n := n mod 1461 in
    let n1 := n / 365 in
    let n := n mod 365 in
    let y := n400 * 400 + 1 + n100 * 100 + n4 * 4 + n1 in
    if (n1 =? 4) || (n100 =? 4) then (y - 1, 12, 31)
    else
      let '(m, d) :=
        month_day ((n1 =? 3) && (negb (n4 =? 24) || (n100 =? 3))) n in
      (y, m, d).
Proof.
  unfold _ord2ymd, month_day, _DI400Y, _DI100Y, _DI4Y. cbv zeta.
  destruct ((_ =? 4) || (_ =? 4)); [reflexivity|].
  destruct (_ <? _); reflexivity.
Qed.

Lemma div_mod_eq (x k q r : Z) :
  0 <= r < k -> x = k * q + r -> x / k = q /\ x mod k = r.
Proof.
  intros Hr Hx. split.
  - symmetry. apply (Z.div_unique x k q r); [left; exact Hr | exact Hx].
  - symmetry. apply (Z.mod_unique x k q r); [left; exact Hr | exact Hx].
Qed.

(** A year counted from zero splits into 400-year, 100-year and 4-year
    cycles and single years. *)
Lemma year_decompose (y : Z) :
  1 <= y ->
  exists a b c e,
    y = 400 * a + 100 * b + 4 * c + e + 1 /\
    0 <= a /\ 0 <= b <= 3 /\ 0 <= c <= 24 /\ 0 <= e <= 3.
Proof.
  intros Hy.
  exists ((y - 1) / 400), ((y - 1) mod 400 / 100),
    ((y - 1) mod 400 mod 100 / 4), ((y - 1) mod 400 mod 100 mod 4).
  Z.div_mod_to_equations. lia.
Qed.

Section Cycles.
Variables a b c e : Z.
Hypothesis Ha : 0 <= a.
Hypothesis Hb : 0 <= b <= 3.
Hypothesis Hc : 0 <= c <= 24.
Hypothesis He : 0 <= e <= 3.

Let y := 400 * a + 100 * b + 4 * c + e + 1.

Lemma is_leap_cycles :
  _is_leap y = (e =? 3) && (negb (c =? 24) || (b =? 3)).
Proof.
  unfold _is_leap, y.
  destruct (Z.eqb_spec e 3) as [E|E].
  - destruct (div_mod_eq (400 * a + 100 * b + 4 * c + e + 1) 4
                (100 * a + 25 * b + c + 1) 0) as [_ ->]; [lia|lia|].
    cbn [Z.eqb andb].
    destruct (Z.eqb_spec c 24) as [C|C].
    + destruct (div_mod_eq (400 * a + 100 * b + 4 * c + e + 1) 100
                  (4 * a + b + 1) 0) as [_ ->]; [lia|lia|].
      cbn [Z.eqb negb orb].
      destruct (Z.eqb_spec b 3) as [B|B].
      * destruct (div_mod_eq (400 * a + 100 * b + 4 * c + e + 1) 400
                    (a + 1) 0) as [_ ->]; [lia|lia|]. reflexivity.
      * destruct (div_mod_eq (400 * a + 100 * b + 4 * c + e + 1) 400
                    a (100 * b + 100)) as [_ ->]; [lia|lia|].
        destruct (Z.eqb_spec (100 * b + 100) 0); [lia|reflexivity].
    + destruct (div_mod_eq (400 * a + 100 * b + 4 * c + e + 1) 100
                  (4 * a + b) (4 * c + 4)) as [_ ->]; [lia|lia|].
      destruct (Z.eqb_spec (4 * c + 4) 0); [lia|reflexivity].
  - destruct (div_mod_eq (400 * a + 100 * b + 4 * c + e + 1) 4
                (100 * a + 25 * b + c) (e + 1)) as [_ ->]; [lia|lia|].
    destruct (Z.eqb_spec (e + 1) 0); [lia|reflexivity].
Qed.

Lemma days_before_year_cycles :
  _days_before_year y = 146097 * a + 36524 * b + 1461 * c + 365 * e.
Proof.
  unfold _days_before_year, y. cbv zeta.
  replace (400 * a + 100 * b + 4 * c + e + 1 - 1)
    with (400 * a + 100 * b + 4 * c + e) by lia.
  destruct (div_mod_eq (400 * a + 100 * b + 4 * c + e) 4
              (100 * a + 25 * b + c) e) as [-> _]; [lia|lia|].
  destruct (div_mod_eq (400 * a + 100 * b + 4 * c + e) 100
              (4 * a + b) (4 * c + e)) as [-> _]; [lia|lia|].
  destruct (div_mod_eq (400 * a + 100 * b + 4 * c + e) 400
              a (100 * b + 4 * c + e)) as [-> _]; [lia|lia|].
  lia.
Qed.

(** Days 0..364 of the year: the split returns the year and the day. *)
Lemma split_cycles_inner (r : Z) :
  0 <= r <= 364 ->
  let n := 146097 * a + 36524 * b + 1461 * c + 365 * e + r in
  n / 146097 = a /\
  n mod 146097 / 36524 = b /\
  n mod 146097 mod 36524 / 1461 = c /\
  n mod 146097 mod 36524 mod 1461 / 365 = e /\
  n mod 146097 mod 36524 mod 1461 mod 365 = r.
Proof.
  intros Hr n.
  destruct (div_mod_eq n 146097 a (36524 * b + 1461 * c + 365 * e + r))
    as [E1 M1]; [lia| unfold n; lia |].
  rewrite M1, E1.
  destruct (div_mod_eq (36524 * b + 1461 * c + 365 * e + r) 36524 b
              (1461 * c + 365 * e + r)) as [E2 M2]; [lia|lia|].
  rewrite M2, E2.
  destruct (div_mod_eq (1461 * c + 365 * e + r) 1461 c (365 * e + r))
    as [E3 M3]; [lia|lia|].
  rewrite M3, E3.
  destruct (div_mod_eq (365 * e + r) 365 e r) as [E4 M4]; [lia|lia|].
  rewrite M4, E4. repeat split; reflexivity.
Qed.

(** Day 365 of a leap year: one of the two cycle counts reaches 4. *)
Lemma split_cycles_last :
  e = 3 -> c <> 24 \/ b = 3 ->
  let n := 146097 * a + 36524 * b + 1461 * c + 365 * e + 365 in
  n / 146097 = a /\
  ((n mod 146097 / 36524 = 4 /\
    n mod 146097 mod 36524 / 1461 = 0 /\
    n mod 146097 mod 36524 mod 1461 / 365 = 0 /\ b = 3 /\ c = 24)
   \/
   (n mod 146097 / 36524 = b /\
    n mod 146097 mod 36524 / 1461 = c /\
    n mod 146097 mod 36524 mod 1461 / 365 = 4)).
Proof.
  intros E L n.
  destruct (div_mod_eq n 146097 a (36524 * b + 1461 * c + 365 * e + 365))
    as [E1 M1]; [lia| unfold n; lia |].
  rewrite M1, E1. split; [reflexivity|].
  destruct (Z.eq_dec c 24) as [C|C].
  - left. assert (b = 3) as B by lia. subst b c e. cbn. auto.
  - right.
    destruct (div_mod_eq (36524 * b + 1461 * c + 365 * e + 365) 36524 b
                (1461 * c + 365 * e + 365)) as [E2 M2]; [lia|lia|].
    rewrite M2, E2.
    destruct (div_mod_eq (1461 * c + 365 * e + 365) 1461 c
                (365 * e + 365)) as [E3 M3]; [lia|lia|].
    rewrite M3, E3. subst e. cbn. auto.
Qed.
End Cycles.

Ltac feed H :=
  repeat match type of H with
         | ?P -> _ =>
             match type of P with
             | Prop => specialize (H ltac:(first [assumption | lia]))
             end
         end.

Ltac month_cases m :=
  let H := fresh "Hm" in
  assert (m = 1 \/ m = 2 \/ m = 3 \/ m = 4 \/ m = 5 \/ m = 6 \/ m = 7 \/
          m = 8 \/ m = 9 \/ m = 10 \/ m = 11 \/ m = 12) as H by lia;
  repeat (destruct H as [H|H]); subst m.

Ltac table_calc :=
  cbv [index _DAYS_IN_MONTH _DAYS_BEFORE_MONTH nth Z.to_nat Pos.to_nat
       Pos.iter_op Nat.add Z.eqb Z.ltb Z.compare Pos.compare Pos.compare_cont
       Pos.eqb andb orb negb] in *.

Lemma month_day_table : month_day_table_ok = true.
Proof. vm_compute. reflexivity. Qed.

(** The month and day are recovered from the position in the year. *)
Lemma month_day_ok (y m d : Z) :
  1 <= m <= 12 -> 1 <= d <= _days_in_month y m ->
  _days_before_month y m + d - 1 <= 364 ->
  month_day (_is_leap y) (_days_before_month y m + d - 1) = (m, d).
Proof.
  intros Hm Hd Hr.
  pose proof month_day_table as T. unfold month_day_table_ok in T.
  rewrite forallb_forall in T.
  specialize (T (_is_leap y)
                ltac:(destruct (_is_leap y); cbn; auto)).
  rewrite forallb_forall in T.
  specialize (T m ltac:(apply zrange_In; cbn; lia)).
  rewrite forallb_forall in T.
  assert (d <= 31) as Hd31.
  { unfold _days_in_month in Hd.
    destruct ((m =? 2) && _is_leap y); [lia|].
    month_cases m; table_calc; lia. }
  specialize (T d ltac:(apply zrange_In; cbn; lia)).
  cbv zeta in T. unfold _days_in_month, _days_before_month in *.
  destruct (Z.leb_spec d
              (if (m =? 2) && _is_leap y then 29 else index _DAYS_IN_MONTH m));
    [|lia].
  destruct (Z.leb_spec
              (index _DAYS_BEFORE_MONTH m
               + (if (2 <? m) && _is_leap y then 1 else 0) + d - 1) 364);
    [|lia].
  cbn [negb orb] in T.
  destruct (month_day _ _) as [m' d'].
  apply andb_true_iff in T. destruct T as [T1 T2].
  apply Z.eqb_eq in T1, T2. congruence.
Qed.

(** The position of a day in its year is below the year's length. *)
Lemma day_of_year_bound (y m d : Z) :
  1 <= m <= 12 -> 1 <= d <= _days_in_month y m ->
  0 <= _days_before_month y m + d - 1
    < 365 + (if _is_leap y then 1 else 0).
Proof.
  intros Hm Hd. unfold _days_in_month, _days_before_month in *.
  destruct (_is_leap y); month_cases m; table_calc; lia.
Qed.

(** Only December 31 of a leap year is at position 365. *)
Lemma day_of_year_365 (y m d : Z) :
  1 <= m <= 12 -> 1 <= d <= _days_in_month y m ->
  _days_before_month y m + d - 1 = 365 ->
  m = 12 /\ d = 31 /\ _is_leap y = true.
Proof.
  intros Hm Hd. unfold _days_in_month, _days_before_month in *.
  destruct (_is_leap y); month_cases m; table_calc; lia.
Qed.

(** [_ord2ymd] inverts [_ymd2ord] on every calendar date. *)
Lemma ord2ymd_ymd2ord (y m d : Z) :
  1 <= y -> 1 <= m <= 12 -> 1 <= d <= _days_in_month y m ->
  _ord2ymd (_ymd2ord y m d) = (y, m, d).
Proof.
  intros Hy Hm Hd.
  pose proof (day_of_year_bound y m d Hm Hd) as Hr.
  pose proof (month_day_ok y m d Hm Hd) as Hmd.
  pose proof (day_of_year_365 y m d Hm Hd) as H365.
  rewrite ord2ymd_unfold. unfold _ymd2ord.
  set (r := _days_before_month y m + d - 1) in *.
  replace (_days_before_year y + _days_before_month y m + d - 1)
    with (_days_before_year y + r) by (unfold r; lia).
  clearbody r.
  destruct (year_decompose y Hy) as (a & b & c & e & Ey & Ha & Hb & Hc & He).
  pose proof (is_leap_cycles a b c e) as L. feed L.
  pose proof (days_before_year_cycles a b c e) as D. feed D.
  rewrite <- Ey in L, D. rewrite D. cbv zeta.
  destruct (Z.eq_dec r 365) as [R|R].
  - destruct (H365 R) as (-> & -> & Lp). rewrite Lp in L.
    symmetry in L. apply andb_true_iff in L. destruct L as [L1 L2].
    apply Z.eqb_eq in L1.
    rewrite orb_true_iff, negb_true_iff, Z.eqb_neq, Z.eqb_eq in L2.
    subst r.
    pose proof (split_cycles_last a b c e) as S. feed S.
    destruct S as [E1 [(E2 & E3 & E4 & B & C)|(E2 & E3 & E4)]];
      cbv zeta in *; rewrite E1, E2, E3, E4;
      cbn [Z.eqb Pos.eqb orb]; f_equal; f_equal; lia.
  - assert (0 <= r <= 364) as R' by (destruct (_is_leap y); lia).
    pose proof (split_cycles_inner a b c e) as S. feed S.
    specialize (S r R'). destruct S as (E1 & E2 & E3 & E4 & E5).
    cbv zeta in *. rewrite E1, E2, E3, E4, E5.
    destruct (Z.eqb_spec e 4); [lia|].
    destruct (Z.eqb_spec b 4); [lia|]. cbn [orb].
    rewrite <- L, Hmd by lia. f_equal. f_equal. lia.
Qed.

Lemma fromordinal_toordinal (dt : datetime) :
  valid dt -> fromordinal (toordinal dt) = dt.
Proof.
  intros (Hy & Hm & Hd). unfold fromordinal, toordinal, MINYEAR in *.
  rewrite ord2ymd_ymd2ord by (assumption || lia).
  destruct dt; reflexivity.
Qed.

Lemma toordinal_inj (a b : datetime) :
  valid a -> valid b -> toordinal a = toordinal b -> a = b.
Proof.
  intros Va Vb E.
  rewrite <- (fromordinal_toordinal a Va), <- (fromordinal_toordinal b Vb).
  congruence.
Qed.

Lemma days_before_year_mono (y1 y2 : Z) :
  y1 <= y2 -> _days_before_year y1 <= _days_before_year y2.
Proof.
  intros H. replace y2 with (y1 + Z.of_nat (Z.to_nat (y2 - y1))) by lia.
  induction (Z.to_nat (y2 - y1)) as [|k IH].
  - rewrite Z.add_0_r. lia.
  - replace (y1 + Z.of_nat (S k)) with (y1 + Z.of_nat k + 1) by lia.
    rewrite days_before_year_succ. destruct (_is_leap _); lia.
Qed.

(** A date lies within its year. *)
Lemma toordinal_in_year (dt : datetime) :
  valid dt ->
  _days_before_year (year dt) < toordinal dt
    <= _days_before_year (year dt + 1).
Proof.
  intros (Hy & Hm & Hd). unfold toordinal, _ymd2ord.
  pose proof (day_of_year_bound _ _ _ Hm Hd).
  rewrite days_before_year_succ. lia.
Qed.

Lemma toordinal_bounds (dt : datetime) :
  valid dt -> 1 <= toordinal dt <= _MAXORDINAL.
Proof.
  intros V. pose proof (toordinal_in_year dt V) as B.
  destruct V as (Hy & _). unfold MINYEAR, MAXYEAR in Hy.
  pose proof (days_before_year_mono 1 (year dt) ltac:(lia)) as L.
  pose proof (days_before_year_mono (year dt + 1) 10000 ltac:(lia)) as U.
  change (_days_before_year 1) with 0 in L.
  change (_days_before_year 10000) with 3652059 in U.
  unfold _MAXORDINAL. lia.
Qed.

Lemma toordinal_max_date : toordinal max_date = _MAXORDINAL.
Proof. reflexivity. Qed.

Lemma valid_max_date : valid max_date.
Proof.
  unfold valid, max_date, MINYEAR, MAXYEAR. cbn [year month day].
  change (_days_in_month 9999 12) with 31. lia.
Qed.

(** The days before a month and its own days make the days before the
    next month. *)
Lemma days_before_month_succ (y m : Z) :
  1 <= m <= 11 ->
  _days_before_month y (m + 1) = _days_before_month y m + _days_in_month y m.
Proof.
  intros Hm. unfold _days_before_month, _days_in_month.
  assert (m = 1 \/ m = 2 \/ 3 <= m <= 11) as [->|[->|H3]] by lia.
  - destruct (_is_leap y); reflexivity.
  - destruct (_is_leap y); reflexivity.
  - replace ((m =? 2) && _is_leap y) with false
      by (destruct (Z.eqb_spec m 2); [lia|reflexivity]).
    replace (2 <? m + 1) with true by (symmetry; apply Z.ltb_lt; lia).
    replace (2 <? m) with true by (symmetry; apply Z.ltb_lt; lia).
    assert (index _DAYS_BEFORE_MONTH (m + 1) =
            index _DAYS_BEFORE_MONTH m + index _DAYS_IN_MONTH m) as E
      by (month_cases m; try lia; reflexivity).
    lia.
Qed.

Lemma days_in_month_bounds (y m : Z) :
  1 <= m <= 12 -> 28 <= _days_in_month y m <= 31.
Proof.
  intros Hm. unfold _days_in_month.
  destruct ((m =? 2) && _is_leap y); [lia|].
  month_cases m; table_calc; lia.
Qed.

Lemma valid_next_day (dt : datetime) :
  valid dt -> dt <> max_date -> valid (next_day dt).
Proof.
  intros (Hy & Hm & Hd) Hmax. unfold next_day, valid, MINYEAR, MAXYEAR in *.
  destruct dt as [y m d]. cbn [year month day] in *.
  destruct (Z.ltb_spec d (_days_in_month y m)); cbn [year month day].
  - lia.
  - destruct (Z.ltb_spec m 12); cbn [year month day].
    + pose proof (days_in_month_bounds y (m + 1)). lia.
    + assert (m = 12) by lia. subst m.
      change (_days_in_month y 12) with 31 in *.
      change (_days_in_month (y + 1) 1) with 31.
      assert (d = 31) by lia. subst d.
      assert (y <> 9999) by (intros ->; apply Hmax; reflexivity).
      lia.
Qed.

Lemma toordinal_next_day (dt : datetime) :
  valid dt -> toordinal (next_day dt) = toordinal dt + 1.
Proof.
  intros (Hy & Hm & Hd). unfold next_day, toordinal, _ymd2ord.
  destruct dt as [y m d]. cbn [year month day] in *.
  destruct (Z.ltb_spec d (_days_in_month y m)); cbn [year month day].
  - lia.
  - destruct (Z.ltb_spec m 12); cbn [year month day].
    + rewrite days_before_month_succ by lia. lia.
    + assert (m = 12) by lia. subst m.
      rewrite days_before_year_succ.
      change (_days_in_month y 12) with 31 in *.
      change (_days_before_month (y + 1) 1) with 0.
      unfold _days_before_month.
      destruct (_is_leap y); table_calc; lia.
Qed.

(** Adding one day is stepping to the next calendar day. *)
Lemma add_days_1 (dt : datetime) :
  valid dt -> dt <> max_date -> add_days dt 1 = Ok (next_day dt).
Proof.
  intros V Hmax. unfold add_days.
  pose proof (valid_next_day dt V Hmax) as V'.
  pose proof (toordinal_bounds _ V') as B.
  rewrite <- (toordinal_next_day dt V).
  destruct (Z.ltb_spec 0 (toordinal (next_day dt))); [|lia].
  destruct (Z.leb_spec (toordinal (next_day dt)) _MAXORDINAL); [|lia].
  cbn [andb]. rewrite fromordinal_toordinal by assumption. reflexivity.
Qed.

(** The field-by-field order is the order of the ordinals. *)
Lemma toordinal_lt_year (a b : datetime) :
  valid a -> valid b -> year a < year b -> toordinal a < toordinal b.
Proof.
  intros Va Vb H.
  pose proof (toordinal_in_year a Va). pose proof (toordinal_in_year b Vb).
  pose proof (days_before_year_mono (year a + 1) (year b) ltac:(lia)). lia.
Qed.

Lemma days_before_month_mono (y m1 m2 : Z) :
  1 <= m1 -> m1 < m2 <= 12 ->
  _days_before_month y m1 + _days_in_month y m1 <= _days_before_month y m2.
Proof.
  intros H1 H2.
  replace m2 with (m1 + 1 + Z.of_nat (Z.to_nat (m2 - m1 - 1))) in * by lia.
  induction (Z.to_nat (m2 - m1 - 1)) as [|k IH].
  - rewrite Z.add_0_r, days_before_month_succ by lia. lia.
  - replace (m1 + 1 + Z.of_nat (S k)) with (m1 + 1 + Z.of_nat k + 1) in * by lia.
    rewrite days_before_month_succ by lia.
    pose proof (days_in_month_bounds y (m1 + 1 + Z.of_nat k) ltac:(lia)).
    specialize (IH ltac:(lia)). lia.
Qed.

Lemma toordinal_lt_month (a b : datetime) :
  valid a -> valid b -> year a = year b -> month a < month b ->
  toordinal a < toordinal b.
Proof.
  intros (_ & Hma & Hda) (_ & Hmb & Hdb) Ey Hm. unfold toordinal, _ymd2ord.
  rewrite Ey in *.
  pose proof (days_before_month_mono (year b) (month a) (month b)
                ltac:(lia) ltac:(lia)). lia.
Qed.

Lemma le_iff_toordinal (a b : datetime) :
  valid a -> valid b -> (le a b = true <-> toordinal a <= toordinal b).
Proof.
  intros Va Vb. unfold le.
  destruct (Z.compare_spec (year a) (year b)) as [Ey|Hy|Hy].
  - destruct (Z.compare_spec (month a) (month b)) as [Em|Hm|Hm].
    + unfold toordinal, _ymd2ord. rewrite Ey, Em, Z.leb_le. lia.
    + pose proof (toordinal_lt_month a b Va Vb Ey Hm). intuition lia.
    + pose proof (toordinal_lt_month b a Vb Va (eq_sym Ey) Hm).
      split; [discriminate|lia].
  - pose proof (toordinal_lt_year a b Va Vb Hy). intuition lia.
  - pose proof (toordinal_lt_year b a Vb Va Hy). split; [discriminate|lia].
Qed.

(** The date key grows from one day to the next. *)
Lemma key_next_day (dt : datetime) :
  valid dt -> strftime_Ymd_int dt < strftime_Ymd_int (next_day dt).
Proof.
  intros (Hy & Hm & Hd). unfold next_day, strftime_Ymd_int.
  pose proof (days_in_month_bounds (year dt) (month dt) Hm).
  destruct (Z.ltb_spec (day dt) (_days_in_month (year dt) (month dt)));
    cbn [year month day]; [lia|].
  destruct (Z.ltb_spec (month dt) 12); cbn [year month day]; lia.
Qed.

End CalendarFacts.

(** ** The date dimension *)

Module DateDimFacts.
Import Py Datetime Calendar Dates CalendarFacts.

Lemma days_from_length (k : nat) (cur : datetime) :
  List.length (days_from cur k) = k.
Proof. revert cur. induction k; intros; cbn; [|rewrite IHk]; reflexivity. Qed.

Lemma not_max_of_ordinal (dt : datetime) :
  valid dt -> toordinal dt < _MAXORDINAL -> dt <> max_date.
Proof. intros V H ->. rewrite toordinal_max_date in H. lia. Qed.

Lemma ordinal_below_max (dt : datetime) :
  valid dt -> dt <> max_date -> toordinal dt < _MAXORDINAL.
Proof.
  intros V H. pose proof (toordinal_bounds dt V).
  assert (toordinal dt <> _MAXORDINAL); [|lia].
  intros E. apply H. apply toordinal_inj; auto using valid_max_date.
Qed.

(** The loop appends one row per calendar day up to [end_dt] and stops
    within its fuel. *)
Lemma date_loop_run (k : nat) :
  forall fuel cur end_dt rows,
    valid cur -> valid end_dt -> end_dt <> max_date ->
    toordinal end_dt - toordinal cur + 1 = Z.of_nat k ->
    (k <= fuel)%nat ->
    date_loop fuel cur end_dt rows =
      Some (Ok (rows ++ map date_row (days_from cur k))).
Proof.
  induction k as [|k IH]; intros fuel cur end_dt rows Vc Ve Hmax Hk Hf.
  - assert (le cur end_dt = false) as L.
    { destruct (le cur end_dt) eqn:E; [|reflexivity].
      apply le_iff_toordinal in E; auto. lia. }
    destruct fuel; cbn; rewrite L, app_nil_r; reflexivity.
  - destruct fuel as [|fuel]; [lia|].
    assert (le cur end_dt = true) as L
      by (apply le_iff_toordinal; auto; lia).
    pose proof (ordinal_below_max end_dt Ve Hmax) as Hlt.
    assert (cur <> max_date) as Hc
      by (apply not_max_of_ordinal; auto; lia).
    cbn [date_loop]. rewrite L, (add_days_1 cur Vc Hc).
    rewrite (IH fuel (next_day cur) end_dt (rows ++ [date_row cur])).
    + cbn [days_from map]. rewrite <- app_assoc. reflexivity.
    + apply valid_next_day; assumption.
    + assumption.
    + assumption.
    + rewrite toordinal_next_day by assumption. lia.
    + lia.
Qed.

Lemma last_default {A : Type} (x : A) (l : list A) (d d' : A) :
  last (x :: l) d = last (x :: l) d'.
Proof.
  revert x. induction l as [|y l IH]; intros x; [reflexivity|].
  change (last (y :: l) d = last (y :: l) d'). apply IH.
Qed.

(** The days of a range: all are calendar dates, the keys grow strictly,
    and the last one is the end of the range. *)
Lemma days_from_range (k : nat) :
  forall cur end_dt,
    valid cur -> valid end_dt -> end_dt <> max_date ->
    toordinal end_dt - toordinal cur + 1 = Z.of_nat k ->
    Forall valid (days_from cur k) /\
    Sorted Z.lt (map strftime_Ymd_int (days_from cur k)) /\
    (k <> 0%nat -> last (days_from cur k) cur = end_dt).
Proof.
  induction k as [|k IH]; intros cur end_dt Vc Ve Hmax Hk.
  - cbn. repeat split; auto. congruence.
  - pose proof (ordinal_below_max end_dt Ve Hmax) as Hlt.
    assert (cur <> max_date) as Hc
      by (apply not_max_of_ordinal; auto; lia).
    pose proof (valid_next_day cur Vc Hc) as Vn.
    pose proof (key_next_day cur Vc) as Kn.
    destruct (IH (next_day cur) end_dt Vn Ve Hmax) as (F & Srt & Lst).
    { rewrite toordinal_next_day by assumption. lia. }
    cbn [days_from map]. repeat split.
    + constructor; assumption.
    + constructor; [assumption|].
      destruct k; cbn [days_from map]; constructor. exact Kn.
    + intros _. destruct k as [|k].
      * cbn. apply toordinal_inj; auto. lia.
      * specialize (Lst ltac:(discriminate)).
        cbn [days_from] in *.
        change (last (next_day cur :: days_from (next_day (next_day cur)) k)
                  cur = end_dt).
        rewrite (last_default _ _ cur (next_day cur)). exact Lst.
Qed.

(** *** Parsing the ISO spelling of a date *)

Lemma digit_value_chr (k : Z) :
  0 <= k <= 9 -> digit_value (chr (48 + k)) = Some k.
Proof.
  intros H. unfold digit_value, code, chr.
  rewrite N_ascii_embedding by (change 256%N with (Z.to_N 256); lia).
  rewrite Z2N.id by lia.
  destruct (Z.leb_spec 48 (48 + k)); [|lia].
  destruct (Z.leb_spec (48 + k) 57); [|lia].
  cbn [andb]. f_equal. lia.
Qed.

Lemma digits_zfill4 (n : Z) :
  0 <= n < 10000 ->
  exists c1 c2 c3 c4,
    zfill 4 n = String c1 (String c2 (String c3 (String c4 EmptyString))) /\
    digits_value 0 [c1; c2; c3; c4] = Some n.
Proof.
  intros H. do 4 eexists. split; [reflexivity|].
  cbn [digits_value].
  rewrite !digit_value_chr by (Z.div_mod_to_equations; lia).
  f_equal. Z.div_mod_to_equations. lia.
Qed.

Lemma digits_zfill2 (n : Z) :
  0 <= n < 100 ->
  exists c1 c2,
    zfill 2 n = String c1 (String c2 EmptyString) /\
    digits_value 0 [c1; c2] = Some n.
Proof.
  intros H. do 2 eexists. split; [reflexivity|].
  cbn [digits_value].
  rewrite !digit_value_chr by (Z.div_mod_to_equations; lia).
  f_equal. Z.div_mod_to_equations. lia.
Qed.

Lemma new_valid (dt : datetime) :
  valid dt -> new (year dt) (month dt) (day dt) = Ok dt.
Proof.
  intros (Hy & Hm & Hd). unfold new.
  replace ((MINYEAR <=? year dt) && (year dt <=? MAXYEAR)) with true
    by (symmetry; apply andb_true_iff; split; apply Z.leb_le; lia).
  replace ((1 <=? month dt) && (month dt <=? 12)) with true
    by (symmetry; apply andb_true_iff; split; apply Z.leb_le; lia).
  replace ((1 <=? day dt)
           && (day dt <=? _days_in_month (year dt) (month dt))) with true
    by (symmetry; apply andb_true_iff; split; apply Z.leb_le; lia).
  destruct dt; reflexivity.
Qed.

(** The ISO spelling of a calendar date parses back to the date. *)
Lemma fromisoformat_isoformat (dt : datetime) :
  valid dt -> fromisoformat (isoformat dt) = Ok dt.
Proof.
  intros V. pose proof V as (Hy & Hm & Hd).
  pose proof (days_in_month_bounds (year dt) (month dt) Hm) as Hdim.
  unfold MINYEAR, MAXYEAR in Hy.
  destruct (digits_zfill4 (year dt) ltac:(lia)) as (y1 & y2 & y3 & y4 & Ey & Dy).
  destruct (digits_zfill2 (month dt) ltac:(lia)) as (m1 & m2 & Em & Dm).
  destruct (digits_zfill2 (day dt) ltac:(lia)) as (d1 & d2 & Ed & Dd).
  unfold fromisoformat, isoformat. rewrite Ey, Em, Ed.
  cbn [append list_ascii_of_string].
  change (code "-" =? 45) with true. cbn [andb].
  rewrite Dy, Dm, Dd. apply new_valid, V.
Qed.

Lemma weekday_range (dt : datetime) : 0 <= weekday dt <= 6.
Proof. unfold weekday. pose proof (Z.mod_pos_bound (toordinal dt + 6) 7). lia. Qed.

(** The weekend flag is set exactly on the rows named Saturday or Sunday,
    which are the rows with ISO day number 6 or 7. *)
Lemma weekend_flag (dt : datetime) :
  (is_weekend (date_row dt) = 1 <->
     day_name (date_row dt) = "Saturday" \/
     day_name (date_row dt) = "Sunday") /\
  (is_weekend (date_row dt) = 1 <->
     day_of_week (date_row dt) = 6 \/ day_of_week (date_row dt) = 7) /\
  (is_weekend (date_row dt) = 0 \/ is_weekend (date_row dt) = 1).
Proof.
  cbn [is_weekend day_name day_of_week date_row].
  unfold strftime_A, isoweekday.
  pose proof (weekday_range dt) as W.
  assert (toordinal dt mod 7 = (weekday dt + 1) mod 7) as I.
  { unfold weekday. rewrite Zplus_mod_idemp_l.
    replace (toordinal dt + 6 + 1) with (toordinal dt + 1 * 7) by lia.
    rewrite Z.mod_add by lia. reflexivity. }
  rewrite I.
  assert (weekday dt = 0 \/ weekday dt = 1 \/ weekday dt = 2 \/
          weekday dt = 3 \/ weekday dt = 4 \/ weekday dt = 5 \/
          weekday dt = 6) as C by lia.
  repeat (destruct C as [C|C]); rewrite C; cbn;
    repeat split; intros; auto; try lia; try discriminate;
    try (destruct H; discriminate).
Qed.

(** C7, as the code has it: for calendar dates with [end_dt] before
    9999-12-31, a range with [start_dt <= end_dt] yields
    [(end_dt - start_dt).days + 1] rows, one per calendar day from
    [start_dt] to [end_dt] without gaps, with strictly ascending and hence
    distinct date keys, and the weekend flag set exactly on Saturdays and
    Sundays; a range with [end_dt < start_dt] yields no row and no error. *)
Theorem make_date_dim_rows (start_dt end_dt : datetime) :
  valid start_dt -> valid end_dt -> end_dt <> max_date ->
  (le start_dt end_dt = true ->
   exists rows,
     make_date_dim (isoformat start_dt) (isoformat end_dt)
       = Some (Ok rows) /\
     Z.of_nat (List.length rows) = days_between start_dt end_dt + 1 /\
     rows = map date_row (days_from start_dt (List.length rows)) /\
     last (days_from start_dt (List.length rows)) start_dt = end_dt /\
     StronglySorted Z.lt (map date_key rows) /\
     NoDup (map date_key rows) /\
     Forall (fun r => is_weekend r = 1 <->
                      day_name r = "Saturday" \/ day_name r = "Sunday") rows) /\
  (le start_dt end_dt = false ->
   make_date_dim (isoformat start_dt) (isoformat end_dt) = Some (Ok [])).
Proof.
  intros Vs Ve Hmax.
  unfold make_date_dim. rewrite !fromisoformat_isoformat by assumption.
  split.
  - intros L. apply le_iff_toordinal in L; auto.
    set (k := Z.to_nat (days_between start_dt end_dt + 1)).
    assert (toordinal end_dt - toordinal start_dt + 1 = Z.of_nat k) as Hk
      by (unfold k, days_between; lia).
    exists (map date_row (days_from start_dt k)).
    destruct (days_from_range k start_dt end_dt Vs Ve Hmax Hk)
      as (F & Srt & Lst).
    assert (StronglySorted Z.lt
              (map date_key (map date_row (days_from start_dt k)))) as SS.
    { rewrite map_map. cbn [date_key date_row].
      apply Sorted_StronglySorted; [|exact Srt].
      intros x y z; apply Z.lt_trans. }
    rewrite length_map, days_from_length.
    repeat split.
    + unfold make_date_dim_from. fold k.
      rewrite (date_loop_run k k start_dt end_dt []) by auto. reflexivity.
    + unfold days_between. lia.
    + apply Lst. lia.
    + exact SS.
    + clear -SS. induction SS as [|x l _ IH Hx]; constructor; auto.
      intros Hin. rewrite Forall_forall in Hx. specialize (Hx x Hin). lia.
    + apply Forall_forall. intros r Hr. apply in_map_iff in Hr.
      destruct Hr as (d & <- & _). apply weekend_flag.
  - intros L. unfold make_date_dim_from.
    destruct (Z.to_nat _); cbn; rewrite L; reflexivity.
Qed.

Lemma make_date_dim_rows_witness :
  exists rows,
    make_date_dim "2010-01-01" "2010-12-31" = Some (Ok rows) /\
    Z.of_nat (List.length rows) = 365.
Proof.
  assert (valid (Datetime 2010 1 1)) as Vs
    by (unfold valid, MINYEAR, MAXYEAR; cbn [year month day];
        change (_days_in_month 2010 1) with 31; lia).
  assert (valid (Datetime 2010 12 31)) as Ve
    by (unfold valid, MINYEAR, MAXYEAR; cbn [year month day];
        change (_days_in_month 2010 12) with 31; lia).
  assert (Datetime 2010 12 31 <> max_date) as Hmax by discriminate.
  destruct (make_date_dim_rows _ _ Vs Ve Hmax) as [H _].
  destruct (H eq_refl) as (rows & E & Len & _).
  exists rows. split; [exact E|exact Len].
Defined.

(** C7 as stated fails at the last representable day: after the row for
    9999-12-31 the loop steps past the range of [datetime]. *)
Lemma make_date_dim_last_day_overflows :
  le max_date max_date = true /\
  make_date_dim "9999-12-31" "9999-12-31" = Some (Raise OverflowError).
Proof. split; reflexivity. Qed.

End DateDimFacts.

(** ** The deterministic date assigner *)

Module DateAssignFacts.
Import Py Datetime Calendar Dates DateRule CalendarFacts.

Lemma code_chr (n : Z) : 0 <= n < 256 -> code (chr n) = n.
Proof.
  intros H. unfold code, chr.
  rewrite N_ascii_embedding; [lia|].
  change 256%N with (Z.to_N 256). lia.
Qed.

Lemma hex_value_digit (n : Z) :
  0 <= n < 16 -> Sha256.hex_value (Sha256.hex_digit n) = n.
Proof.
  intros H.
  assert (forallb (fun v => Sha256.hex_value (Sha256.hex_digit v) =? v)
            (zrange 0 16) = true) as T by (vm_compute; reflexivity).
  rewrite forallb_forall in T. apply Z.eqb_eq, T, zrange_In. cbn. lia.
Qed.

Lemma int16_hex_fold (bs : list Z) :
  Forall (fun b => 0 <= b < 256) bs ->
  forall acc,
    fold_left (fun acc c => acc * 16 + Sha256.hex_value c)
      (list_ascii_of_string (Sha256.hex_of_bytes bs)) acc =
    fold_left (fun acc b => acc * 256 + b) bs acc.
Proof.
  induction 1 as [|b bs Hb F IH]; intros acc; [reflexivity|].
  cbn [Sha256.hex_of_bytes list_ascii_of_string fold_left].
  rewrite IH.
  rewrite !hex_value_digit by (Z.div_mod_to_equations; lia).
  f_equal. Z.div_mod_to_equations. lia.
Qed.

(** Reading the hexadecimal digest back gives the big-endian value of the
    digest bytes. *)
Lemma int16_hex_of_bytes (bs : list Z) :
  Forall (fun b => 0 <= b < 256) bs ->
  Sha256.int16 (Sha256.hex_of_bytes bs) = Sha256.be_int bs.
Proof. intros F. apply int16_hex_fold. exact F. Qed.

Lemma be_bytes_range (k : nat) (x : Z) :
  Forall (fun b => 0 <= b < 256) (Sha256.be_bytes k x).
Proof.
  induction k as [|k IH]; cbn [Sha256.be_bytes]; constructor; [|exact IH].
  apply Z.mod_pos_bound. lia.
Qed.

Lemma digest_range (msg : list Z) :
  Forall (fun b => 0 <= b < 256) (Sha256.digest msg).
Proof.
  unfold Sha256.digest. cbv zeta.
  generalize (fold_left Sha256.compress
                (Sha256.chunks (List.length (Sha256.pad msg)) 64
                   (Sha256.pad msg)) Sha256.H0) as h.
  induction h as [|x h IH]; cbn [flat_map]; [constructor|].
  apply Forall_app. split; [apply be_bytes_range | exact IH].
Qed.

Lemma rnd_is_digest_value (msg : list Z) :
  Sha256.int16 (Sha256.hexdigest msg) = Sha256.be_int (Sha256.digest msg).
Proof. apply int16_hex_of_bytes, digest_range. Qed.

(** [str] prints the decimal numeral of its argument: reading the string
    as a signed decimal gives the number back. *)
Lemma str_decimal (n : Z) :
  option_map Z.of_int (NilZero.int_of_string (str n)) = Some n.
Proof.
  unfold str. rewrite NilZero.isi.
  - cbn [option_map]. rewrite DecimalZ.of_to. reflexivity.
  - destruct n; cbn; try discriminate.
    intros E. injection E. apply Unsigned.to_uint_nonnil.
  - destruct n; cbn; try discriminate.
    intros E. injection E. apply Unsigned.to_uint_nonnil.
Qed.

Lemma valid_jan1 (y : Z) : MINYEAR <= y <= MAXYEAR -> valid (jan1 y).
Proof.
  intros H. unfold valid, jan1. cbn [year month day].
  change (_days_in_month y 1) with 31. lia.
Qed.

Lemma new_jan1 (y : Z) : MINYEAR <= y <= MAXYEAR -> new y 1 1 = Ok (jan1 y).
Proof.
  intros H. unfold new.
  replace ((MINYEAR <=? y) && (y <=? MAXYEAR)) with true
    by (symmetry; apply andb_true_iff; split; apply Z.leb_le; lia).
  reflexivity.
Qed.

Lemma toordinal_jan1 (y : Z) : toordinal (jan1 y) = _days_before_year y + 1.
Proof.
  unfold toordinal, jan1, _ymd2ord. cbn [year month day].
  change (_days_before_month y 1) with 0. lia.
Qed.

(** Only December 31 is followed by a day of another year. *)
Lemma year_next_day (dt : datetime) :
  valid dt ->
  toordinal dt < _days_before_year (year dt + 1) ->
  year (next_day dt) = year dt.
Proof.
  intros (Hy & Hm & Hd) H. unfold next_day.
  destruct (Z.ltb_spec (day dt) (_days_in_month (year dt) (month dt)));
    [reflexivity|].
  destruct (Z.ltb_spec (month dt) 12); [reflexivity|]. exfalso.
  assert (month dt = 12) as E by lia.
  revert H. unfold toordinal, _ymd2ord. rewrite days_before_year_succ, E in *.
  change (_days_in_month (year dt) 12) with 31 in *.
  unfold _days_before_month. destruct (_is_leap (year dt)); table_calc; lia.
Qed.

(** The first 365 days counted from January 1 stay within the year. *)
Lemma plus_days_in_year (y : Z) (n : nat) :
  MINYEAR <= y <= MAXYEAR -> (n <= 364)%nat ->
  valid (plus_days (jan1 y) n) /\
  year (plus_days (jan1 y) n) = y /\
  toordinal (plus_days (jan1 y) n) = toordinal (jan1 y) + Z.of_nat n.
Proof.
  intros Hy. induction n as [|n IH]; intros Hn.
  - cbn [plus_days].
    split; [apply valid_jan1; assumption | split; [reflexivity | lia]].
  - destruct (IH ltac:(lia)) as (V & Y & O).
    cbn [plus_days].
    assert (toordinal (plus_days (jan1 y) n) < _days_before_year (y + 1))
      as Hin.
    { rewrite O, toordinal_jan1, days_before_year_succ.
      destruct (_is_leap y); lia. }
    assert (plus_days (jan1 y) n <> max_date) as Hmax.
    { apply DateDimFacts.not_max_of_ordinal; [assumption|].
      pose proof (days_before_year_mono (y + 1) 10000) as M.
      unfold MAXYEAR in Hy. specialize (M ltac:(lia)).
      change (_days_before_year 10000) with 3652059 in M.
      unfold _MAXORDINAL. lia. }
    split; [|split].
    + apply valid_next_day; assumption.
    + rewrite year_next_day; [assumption|assumption|].
      rewrite Y. exact Hin.
    + rewrite toordinal_next_day by assumption. lia.
Qed.

Lemma day_offset_range (row_id : Z) : 0 <= day_offset row_id <= 364.
Proof.
  unfold day_offset.
  pose proof (Z.mod_pos_bound
                (Sha256.be_int (Sha256.digest (encode (str row_id)))) 365).
  lia.
Qed.

(** The assigned day: a day of the given year, [day_offset] days after
    January 1. *)
Lemma assigned_day (row_id y : Z) :
  MINYEAR <= y <= MAXYEAR ->
  let dt := plus_days (jan1 y) (Z.to_nat (day_offset row_id)) in
  valid dt /\ year dt = y /\
  toordinal dt = toordinal (jan1 y) + day_offset row_id.
Proof.
  intros Hy dt. pose proof (day_offset_range row_id) as Hd.
  destruct (plus_days_in_year y (Z.to_nat (day_offset row_id)) Hy
              ltac:(lia)) as (V & Y & O).
  rewrite Z2Nat.id in O by lia. auto.
Qed.

(** The function returns the key of the assigned day. *)
Lemma date_for_row_ok (row_id y : Z) :
  MINYEAR <= y <= MAXYEAR ->
  deterministc_date_for_row row_id y = Ok (assigned_key row_id y).
Proof.
  intros Hy. pose proof (day_offset_range row_id) as Hd.
  destruct (assigned_day row_id y Hy) as (V & Y & O).
  unfold deterministc_date_for_row. cbv zeta.
  rewrite rnd_is_digest_value, (new_jan1 y Hy).
  fold (day_offset row_id). cbn [bind]. unfold add_days.
  replace (day_offset row_id + 1 - 1) with (day_offset row_id) by lia.
  pose proof (toordinal_bounds _ V) as B. rewrite O in B.
  destruct (Z.ltb_spec 0 (toordinal (jan1 y) + day_offset row_id)); [|lia].
  destruct (Z.leb_spec (toordinal (jan1 y) + day_offset row_id) _MAXORDINAL);
    [|lia].
  cbn [andb bind]. rewrite <- O, fromordinal_toordinal by assumption.
  reflexivity.
Qed.

(** C2, as the code has it: for every integer [row_id] and every year from
    1 to 9999, the function returns the YYYYMMDD encoding of January 1 of
    the year plus [d] calendar days, [d] being the SHA-256 digest of the
    decimal string of [row_id] read as an unsigned integer, modulo 365; the
    date is in the given year, between January 1 and December 31, and in a
    leap year it is never December 31 (day 366). The result depends on the
    two arguments only. *)
Theorem deterministc_date_for_row_rule (row_id y : Z) :
  MINYEAR <= y <= MAXYEAR ->
  let d := day_offset row_id in
  let dt := plus_days (jan1 y) (Z.to_nat d) in
  deterministc_date_for_row row_id y = Ok (assigned_key row_id y) /\
  0 <= d <= 364 /\
  valid dt /\ year dt = y /\
  toordinal dt - toordinal (jan1 y) = d /\
  y * 10000 + 101 <= assigned_key row_id y <= y * 10000 + 1231 /\
  (_is_leap y = true -> dt <> dec31 y).
Proof.
  intros Hy d dt.
  pose proof (day_offset_range row_id) as Hd. fold d in Hd.
  destruct (assigned_day row_id y Hy) as (V & Y & O).
  fold d in V, Y, O. fold dt in V, Y, O.
  split; [apply date_for_row_ok, Hy|].
  split; [exact Hd|split; [exact V|split; [exact Y|split;
    [lia|split; [split|]]]]].
  - destruct V as (_ & Hm & Hday). unfold assigned_key. fold d dt.
    unfold strftime_Ymd_int. lia.
  - destruct V as (_ & Hm & Hday). unfold assigned_key. fold d dt.
    pose proof (days_in_month_bounds (year dt) (month dt) Hm).
    unfold strftime_Ymd_int. lia.
  - intros L E. rewrite E in O. revert O.
    rewrite toordinal_jan1. unfold toordinal, dec31, _ymd2ord.
    cbn [year month day]. unfold _days_before_month. rewrite L.
    table_calc. lia.
Qed.

Lemma deterministc_date_for_row_rule_witness :
  deterministc_date_for_row 1 2010 = Ok 20100131.
Proof.
  destruct (deterministc_date_for_row_rule 1 2010) as [E _].
  - unfold MINYEAR, MAXYEAR. lia.
  - rewrite E. vm_compute. reflexivity.
Defined.

(** C2 as stated fails for a year [datetime] cannot represent. *)
Lemma deterministc_date_for_row_year_0 :
  deterministc_date_for_row 1 0 = Raise ValueError /\
  deterministc_date_for_row 1 10000 = Raise ValueError.
Proof. split; vm_compute; reflexivity. Qed.

End DateAssignFacts.

(** ** Properties of the frame operations *)

Module PandasFacts.
Import Py Pandas.

Section DropDuplicates.
Context {A C : Type}.
Variable eqb : A -> A -> bool.

(** The compared columns have a canonical form: two rows are equal on
    them exactly when their canonical forms are the same. *)
Variable canon : A -> C.
Hypothesis eqb_canon : forall a b, eqb a b = true <-> canon a = canon b.

Lemma kept_from_cons (prev : list A) (r : A) (rest : list A) :
  kept_from eqb prev (r :: rest) =
    if existsb (eqb r) prev then kept_from eqb (prev ++ [r]) rest
    else r :: kept_from eqb (prev ++ [r]) rest.
Proof.
  unfold kept_from. cbn [duplicated_from combine filter snd].
  destruct (existsb (eqb r) prev); reflexivity.
Qed.

Lemma drop_duplicates_kept (rows : list A) :
  drop_duplicates eqb rows = kept_from eqb [] rows.
Proof. reflexivity. Qed.

Lemma existsb_canon (x : A) (prev : list A) :
  existsb (eqb x) prev = true <-> In (canon x) (map canon prev).
Proof.
  rewrite existsb_exists, in_map_iff. split.
  - intros (y & Hy & E). exists y. split; [symmetry; apply eqb_canon, E|exact Hy].
  - intros (y & E & Hy). exists y. split; [exact Hy|apply eqb_canon; auto].
Qed.

Lemma existsb_canon_false (x : A) (prev : list A) :
  existsb (eqb x) prev = false <-> ~ In (canon x) (map canon prev).
Proof.
  rewrite <- existsb_canon. destruct (existsb (eqb x) prev); intuition congruence.
Qed.

(** A kept row is a row of the frame whose value did not come before. *)
Lemma kept_from_In (rows : list A) :
  forall prev x,
    In x (kept_from eqb prev rows) ->
    In x rows /\ ~ In (canon x) (map canon prev).
Proof.
  induction rows as [|r rest IH]; intros prev x H; [destruct H|].
  rewrite kept_from_cons in H.
  destruct (existsb (eqb r) prev) eqn:E.
  - destruct (IH _ _ H) as (Hin & Hn). split; [right; exact Hin|].
    intros Hp. apply Hn. rewrite map_app, in_app_iff. left. exact Hp.
  - destruct H as [<-|H].
    + split; [left; reflexivity|]. apply existsb_canon_false, E.
    + destruct (IH _ _ H) as (Hin & Hn). split; [right; exact Hin|].
      intros Hp. apply Hn. rewrite map_app, in_app_iff. left. exact Hp.
Qed.

(** No value is kept twice. *)
Lemma kept_from_NoDup (rows : list A) :
  forall prev, NoDup (map canon (kept_from eqb prev rows)).
Proof.
  induction rows as [|r rest IH]; intros prev; [constructor|].
  rewrite kept_from_cons. destruct (existsb (eqb r) prev); [apply IH|].
  cbn [map]. constructor; [|apply IH].
  intros Hin. apply in_map_iff in Hin. destruct Hin as (y & Ey & Hy).
  apply kept_from_In in Hy. destruct Hy as (_ & Hn). apply Hn.
  rewrite map_app, in_app_iff. right. left. symmetry. exact Ey.
Qed.

(** Every value of the frame either came before or is kept. *)
Lemma kept_from_cover (rows : list A) :
  forall prev x,
    In x rows ->
    In (canon x) (map canon prev) \/
    In (canon x) (map canon (kept_from eqb prev rows)).
Proof.
  induction rows as [|r rest IH]; intros prev x H; [destruct H|].
  rewrite kept_from_cons.
  destruct (existsb (eqb r) prev) eqn:E.
  - apply existsb_canon in E.
    destruct H as [<-|H]; [left; exact E|].
    destruct (IH (prev ++ [r]) x H) as [Hp|Hk]; [|right; exact Hk].
    rewrite map_app, in_app_iff in Hp. destruct Hp as [Hp|[Hr|[]]].
    + left; exact Hp.
    + left. rewrite <- Hr. exact E.
  - destruct H as [<-|H]; [right; left; reflexivity|].
    destruct (IH (prev ++ [r]) x H) as [Hp|Hk]; [|right; right; exact Hk].
    rewrite map_app, in_app_iff in Hp. destruct Hp as [Hp|[Hr|[]]].
    + left; exact Hp.
    + right. left. exact Hr.
Qed.

(** Scanning the frame in order, a row is kept exactly when no equal row
    came before it. *)
Lemma kept_from_snoc (rows : list A) :
  forall prev x,
    kept_from eqb prev (rows ++ [x]) =
    kept_from eqb prev rows
    ++ (if existsb (eqb x) (prev ++ rows) then [] else [x]).
Proof.
  induction rows as [|r rest IH]; intros prev x.
  - cbn [app]. rewrite kept_from_cons, app_nil_r.
    destruct (existsb (eqb x) prev); reflexivity.
  - cbn [app]. rewrite !kept_from_cons, IH, <- app_assoc. cbn [app].
    destruct (existsb (eqb r) prev); reflexivity.
Qed.

Lemma drop_duplicates_snoc (rows : list A) (x : A) :
  drop_duplicates eqb (rows ++ [x]) =
  drop_duplicates eqb rows ++ (if existsb (eqb x) rows then [] else [x]).
Proof. rewrite !drop_duplicates_kept. apply kept_from_snoc. Qed.

Lemma drop_duplicates_NoDup (rows : list A) :
  NoDup (map canon (drop_duplicates eqb rows)).
Proof. apply kept_from_NoDup. Qed.

Lemma drop_duplicates_In (rows : list A) (x : A) :
  In x (drop_duplicates eqb rows) -> In x rows.
Proof. intros H. apply (kept_from_In rows [] x H). Qed.

Lemma drop_duplicates_cover (rows : list A) (x : A) :
  In x rows -> In (canon x) (map canon (drop_duplicates eqb rows)).
Proof.
  intros H. destruct (kept_from_cover rows [] x H) as [[]|Hk]. exact Hk.
Qed.

(** The kept values are the values of the frame, each once. *)
Lemma drop_duplicates_count (dec : forall a b : C, {a = b} + {a <> b})
    (rows : list A) :
  List.length (drop_duplicates eqb rows) =
  List.length (nodup dec (map canon rows)).
Proof.
  rewrite <- (length_map canon). apply Permutation_length.
  apply NoDup_Permutation.
  - apply drop_duplicates_NoDup.
  - apply NoDup_nodup.
  - intros c. rewrite nodup_In, !in_map_iff. split.
    + intros (x & E & H). exists x. split; [exact E|].
      apply drop_duplicates_In, H.
    + intros (x & E & H). rewrite <- E. apply in_map_iff.
      apply drop_duplicates_cover, H.
Qed.

(** A frame without equal rows is left as it is. *)
Lemma kept_from_id (rows : list A) :
  forall prev,
    NoDup (map canon (prev ++ rows)) -> kept_from eqb prev rows = rows.
Proof.
  induction rows as [|r rest IH]; intros prev H; [reflexivity|].
  rewrite kept_from_cons.
  assert (existsb (eqb r) prev = false) as E.
  { apply existsb_canon_false. intros Hin.
    rewrite map_app in H. cbn [map] in H.
    apply NoDup_remove_2 in H. apply H.
    rewrite in_app_iff. left. exact Hin. }
  rewrite E. f_equal. apply IH.
  rewrite <- app_assoc. exact H.
Qed.
End DropDuplicates.

Section Merge.
Context {L R K C : Type}.
Variable eqb : K -> K -> bool.
Variable canon : K -> C.
Hypothesis eqb_canon : forall a b, eqb a b = true <-> canon a = canon b.
Variable key_l : L -> K.
Variable key_r : R -> K.

(** A row of the join is a left row with a right row of the same key, or
    a left row without partner and no right row of its key. *)
Lemma merge_left_In (left : list L) (right : list R) (l : L) (o : option R) :
  In (l, o) (merge_left eqb key_l key_r left right) <->
  In l left /\
  match o with
  | Some r => In r right /\ canon (key_l l) = canon (key_r r)
  | None => forall r, In r right -> canon (key_l l) <> canon (key_r r)
  end.
Proof.
  unfold merge_left. rewrite in_flat_map. split.
  - intros (l' & Hl' & H).
    destruct (filter _ right) as [|m ms] eqn:F.
    + destruct H as [H|[]]. injection H as <- <-. split; [exact Hl'|].
      intros r Hr E. apply eqb_canon in E.
      assert (In r (filter (fun r => eqb (key_l l') (key_r r)) right)) as X
        by (apply filter_In; auto).
      rewrite F in X. destruct X.
    + rewrite <- F in H. apply in_map_iff in H.
      destruct H as (r & E & Hr). injection E as <- <-.
      apply filter_In in Hr. destruct Hr as (Hr & Er).
      split; [exact Hl'|]. split; [exact Hr|apply eqb_canon, Er].
  - intros (Hl & H). exists l. split; [exact Hl|].
    destruct o as [r|].
    + destruct H as (Hr & E). apply eqb_canon in E.
      assert (In r (filter (fun r => eqb (key_l l) (key_r r)) right)) as X
        by (apply filter_In; auto).
      destruct (filter _ right) as [|m ms] eqn:F; [destruct X|].
      rewrite <- F. apply (in_map (fun r => (l, Some r))). rewrite F. exact X.
    + assert (filter (fun r => eqb (key_l l) (key_r r)) right = []) as F.
      { destruct (filter _ right) as [|m ms] eqn:F; [reflexivity|].
        assert (In m (m :: ms)) as X by (left; reflexivity).
        rewrite <- F in X. apply filter_In in X. destruct X as (Hm & Em).
        apply eqb_canon in Em. destruct (H m Hm Em). }
      rewrite F. left. reflexivity.
Qed.

(** When no two right rows have the same key, the rows with a given key
    are at most one: the first. *)
Lemma filter_unique_key (right : list R) (k : K) :
  NoDup (map (fun r => canon (key_r r)) right) ->
  filter (fun r => eqb k (key_r r)) right =
    match find (fun r => eqb k (key_r r)) right with
    | Some r => [r]
    | None => []
    end.
Proof.
  induction right as [|r right IH]; intros N; [reflexivity|].
  cbn [map] in N. inversion N as [|? ? Hn N']; subst.
  cbn [filter find]. destruct (eqb k (key_r r)) eqn:E.
  - f_equal. apply eqb_canon in E.
    destruct (filter _ right) as [|m ms] eqn:F; [reflexivity|]. exfalso.
    assert (In m (m :: ms)) as X by (left; reflexivity).
    rewrite <- F in X. apply filter_In in X. destruct X as (Hm & Em).
    apply eqb_canon in Em. apply Hn. rewrite <- E, Em.
    apply (in_map (fun r => canon (key_r r))). exact Hm.
  - apply IH. exact N'.
Qed.

(** With distinct right keys the join has one row per left row. *)
Lemma merge_left_unique (left : list L) (right : list R) :
  NoDup (map (fun r => canon (key_r r)) right) ->
  merge_left eqb key_l key_r left right =
    map (fun l => (l, find (fun r => eqb (key_l l) (key_r r)) right)) left.
Proof.
  intros N. induction left as [|l left IH]; [reflexivity|].
  change (merge_left eqb key_l key_r (l :: left) right)
    with (match filter (fun r => eqb (key_l l) (key_r r)) right with
          | [] => [(l, None)]
          | matches => map (fun r => (l, Some r)) matches
          end ++ merge_left eqb key_l key_r left right).
  rewrite IH, (filter_unique_key right _ N). cbn [map].
  destruct (find _ right); reflexivity.
Qed.

Lemma find_key_some (right : list R) (k : K) :
  In (canon k) (map (fun r => canon (key_r r)) right) ->
  exists r, find (fun r => eqb k (key_r r)) right = Some r /\
            In r right /\ canon k = canon (key_r r).
Proof.
  intros H. apply in_map_iff in H. destruct H as (r0 & E0 & H0).
  destruct (find (fun r => eqb k (key_r r)) right) as [r|] eqn:F.
  - exists r. apply find_some in F. destruct F as (Hr & Er).
    repeat split; auto. apply eqb_canon, Er.
  - exfalso. pose proof (find_none _ _ F r0 H0) as X. cbn in X.
    assert (eqb k (key_r r0) = true) by (apply eqb_canon; auto).
    congruence.
Qed.
End Merge.

Section Sorting.
Context {A : Type}.
Variable le : A -> A -> bool.
Hypothesis le_total : forall a b, le a b = false -> le b a = true.

Lemma insert_sorted_perm (x : A) (l : list A) :
  Permutation (insert_sorted le x l) (x :: l).
Proof.
  induction l as [|y l IH]; cbn [insert_sorted]; [reflexivity|].
  destruct (le x y); [reflexivity|].
  rewrite IH. apply perm_swap.
Qed.

Lemma sort_values_perm (l : list A) : Permutation (sort_values le l) l.
Proof.
  induction l as [|x l IH]; cbn; [constructor|].
  rewrite insert_sorted_perm. constructor. exact IH.
Qed.

Lemma insert_sorted_sorted (x : A) (l : list A) :
  Sorted (fun a b => le a b = true) l ->
  Sorted (fun a b => le a b = true) (insert_sorted le x l).
Proof.
  induction l as [|y l IH]; intros S; cbn [insert_sorted].
  - repeat constructor.
  - destruct (le x y) eqn:E.
    + constructor; [exact S|constructor; exact E].
    + inversion S as [|? ? S' Hd]; subst.
      constructor; [apply IH, S'|].
      destruct l as [|z l]; cbn [insert_sorted].
      * constructor. apply le_total, E.
      * destruct (le x z); constructor.
        -- apply le_total, E.
        -- inversion Hd; subst. assumption.
Qed.

Lemma sort_values_sorted (l : list A) :
  Sorted (fun a b => le a b = true) (sort_values le l).
Proof.
  induction l as [|x l IH]; cbn; [constructor|].
  apply insert_sorted_sorted, IH.
Qed.
End Sorting.

Lemma zrange_length (lo : Z) (n : nat) : List.length (Calendar.zrange lo n) = n.
Proof. unfold Calendar.zrange. rewrite length_map, length_seq. reflexivity. Qed.

Lemma NoDup_map_injective {A B : Type} (f : A -> B) (l : list A) :
  (forall x y, In x l -> In y l -> f x = f y -> x = y) ->
  NoDup l -> NoDup (map f l).
Proof.
  intros Hf N. induction N as [|x l Hx N IH]; cbn [map]; constructor.
  - intros Hin. apply in_map_iff in Hin. destruct Hin as (y & E & Hy).
    apply Hx. rewrite (Hf x y); auto; [left; reflexivity|right; exact Hy].
  - apply IH. intros a b Ha Hb. apply Hf; right; assumption.
Qed.

Lemma zrange_NoDup (lo : Z) (n : nat) : NoDup (Calendar.zrange lo n).
Proof.
  unfold Calendar.zrange. apply NoDup_map_injective.
  - intros i j _ _ H. lia.
  - apply seq_NoDup.
Qed.

Lemma zrange_In_iff (lo : Z) (n : nat) (x : Z) :
  In x (Calendar.zrange lo n) <-> lo <= x < lo + Z.of_nat n.
Proof.
  split; [|apply CalendarFacts.zrange_In].
  unfold Calendar.zrange. rewrite in_map_iff.
  intros (i & <- & Hi). apply in_seq in Hi. lia.
Qed.

Lemma map_fst_combine {A B : Type} (l : list A) (l' : list B) :
  List.length l = List.length l' -> map fst (combine l l') = l.
Proof.
  revert l'. induction l as [|x l IH]; intros [|y l'] H;
    try discriminate; [reflexivity|].
  cbn. f_equal. apply IH. injection H. auto.
Qed.

Lemma map_snd_combine {A B : Type} (l : list A) (l' : list B) :
  List.length l = List.length l' -> map snd (combine l l') = l'.
Proof.
  revert l'. induction l as [|x l IH]; intros [|y l'] H;
    try discriminate; [reflexivity|].
  cbn. f_equal. apply IH. injection H. auto.
Qed.

Lemma firstn_succ_nth {A : Type} (l : list A) (n : nat) (x : A) :
  nth_error l n = Some x -> firstn (S n) l = firstn n l ++ [x].
Proof.
  revert l. induction n as [|n IH]; intros [|y l] E; try discriminate.
  - injection E as ->. reflexivity.
  - cbn [firstn app]. f_equal. apply IH. exact E.
Qed.

Section Numbering.
Context {A : Type}.

Lemma number_rows_fst (rows : list A) :
  map fst (number_rows rows) = Calendar.zrange 1 (List.length rows).
Proof.
  unfold number_rows. apply map_fst_combine.
  rewrite zrange_length. reflexivity.
Qed.

Lemma number_rows_snd (rows : list A) :
  map snd (number_rows rows) = rows.
Proof.
  unfold number_rows. apply map_snd_combine.
  rewrite zrange_length. reflexivity.
Qed.

Lemma number_rows_length (rows : list A) :
  List.length (number_rows rows) = List.length rows.
Proof.
  unfold number_rows. rewrite length_combine, zrange_length. lia.
Qed.
End Numbering.

End PandasFacts.

(** ** The dimension builders *)

Module DimensionFacts.
Import Py Pandas Pipeline Keys PandasFacts.

Lemma float_cell_eqb_canon (x y : spec_float) :
  float_cell_eqb x y = true <-> canon_float x = canon_float y.
Proof.
  unfold float_cell_eqb, SFeqb.
  destruct x as [sx|sx| |sx mx ex], y as [sy|sy| |sy my ey];
    cbn [SFcompare is_nan andb orb canon_float];
    try (split; [reflexivity|reflexivity]);
    try (split; [discriminate|discriminate]);
    try (destruct sx; split; discriminate);
    try (destruct sy; split; discriminate).
  - destruct sx, sy; split; try reflexivity; discriminate.
  - rewrite !Pos.compare_cont_spec. cbn [Pos.switch_Eq].
    destruct sx, sy; try (split; discriminate);
      destruct (Z.compare_spec ex ey) as [E|E|E];
      try (split; [discriminate|intros H; injection H; lia]);
      destruct (Pos.compare_spec mx my) as [M|M|M]; cbn [CompOpp orb];
      try (split; [discriminate|intros H; injection H; lia]);
      subst; split; reflexivity.
Qed.

Lemma inskey_eqb_canon (a b : InsKey.t) :
  inskey_eqb a b = true <-> canon_key a = canon_key b.
Proof.
  unfold inskey_eqb, canon_key. destruct a, b. cbn.
  rewrite !andb_true_iff, !Z.eqb_eq, !String.eqb_eq, float_cell_eqb_canon.
  split.
  - intros ((((((-> & ->) & ->) & ->) & ->) & ->) & ->). reflexivity.
  - intros H. injection H. intuition.
Qed.

Lemma string_eqb_canon (a b : string) :
  String.eqb a b = true <-> (fun s : string => s) a = (fun s : string => s) b.
Proof. apply String.eqb_eq. Qed.

Lemma option_string_eqb_eq (a b : option string) :
  option_string_eqb a b = true <-> a = b.
Proof.
  destruct a, b; cbn; try (split; congruence).
  rewrite String.eqb_eq. split; congruence.
Qed.

Lemma attrs_eqb_canon (a b : RegionAttrs.t) :
  attrs_eqb a b = true <-> (fun x : RegionAttrs.t => x) a = (fun x : RegionAttrs.t => x) b.
Proof.
  unfold attrs_eqb. destruct a, b. cbn.
  rewrite !andb_true_iff, String.eqb_eq, !option_string_eqb_eq.
  split.
  - intros ((-> & ->) & ->). reflexivity.
  - intros H. injection H. intuition.
Qed.

(** C3: the insured dimension holds the natural-key tuples of the records
    without repetition, in the order of their first occurrence (scanning
    the records, a record adds a row exactly when no earlier record has its
    tuple), numbered 1..N in that order; the number of rows is the number
    of distinct tuples, no two rows share a tuple, and no key repeats. *)
Theorem build_insured_dim_spec (insurance : list Raw.t) :
  let keys := map key_of (transform insurance) in
  let dim := build_insured_dim (transform insurance) in
  map InsuredDim.cols dim = drop_duplicates inskey_eqb keys /\
  (forall n : nat,
     drop_duplicates inskey_eqb (firstn (S n) keys) =
     drop_duplicates inskey_eqb (firstn n keys)
     ++ match nth_error keys n with
        | Some k => if existsb (inskey_eqb k) (firstn n keys) then [] else [k]
        | None => []
        end) /\
  map InsuredDim.insured_key dim = Calendar.zrange 1 (List.length dim) /\
  List.length dim = distinct_keys keys /\
  NoDup (map canon_key (map InsuredDim.cols dim)) /\
  (forall k, In k keys ->
     exists d, In d dim /\ inskey_eqb k (InsuredDim.cols d) = true) /\
  NoDup (map InsuredDim.insured_key dim).
Proof.
  intros keys dim.
  assert (map InsuredDim.cols dim = drop_duplicates inskey_eqb keys) as Ecols.
  { unfold dim, build_insured_dim. rewrite map_map. cbn [InsuredDim.cols].
    apply number_rows_snd. }
  assert (map InsuredDim.insured_key dim =
          Calendar.zrange 1 (List.length dim)) as Ekeys.
  { unfold dim, build_insured_dim.
    rewrite map_map, length_map, number_rows_length. cbn [InsuredDim.insured_key].
    apply number_rows_fst. }
  split; [exact Ecols|]. split; [|split; [exact Ekeys|split; [|split; [|split]]]].
  - intros n. destruct (nth_error keys n) as [k|] eqn:E.
    + rewrite (firstn_succ_nth keys n k E). apply (drop_duplicates_snoc inskey_eqb).
    + apply nth_error_None in E.
      rewrite !firstn_all2 by lia. rewrite app_nil_r. reflexivity.
  - rewrite <- (length_map InsuredDim.cols dim), Ecols.
    apply (drop_duplicates_count inskey_eqb canon_key inskey_eqb_canon).
  - rewrite Ecols.
    apply (drop_duplicates_NoDup inskey_eqb canon_key inskey_eqb_canon).
  - intros k Hk.
    pose proof (drop_duplicates_cover inskey_eqb canon_key inskey_eqb_canon
                  keys k Hk) as H.
    rewrite <- Ecols, map_map in H. apply in_map_iff in H.
    destruct H as (d & E & Hd). exists d. split; [exact Hd|].
    apply inskey_eqb_canon. symmetry. exact E.
  - rewrite Ekeys. apply zrange_NoDup.
Qed.

(** *** The order on region labels *)

Lemma code_inj (x y : ascii) : code x = code y -> x = y.
Proof.
  unfold code. intros H. apply N2Z.inj in H.
  rewrite <- (ascii_N_embedding x), <- (ascii_N_embedding y), H. reflexivity.
Qed.

Lemma str_compare_antisym (a b : string) :
  str_compare b a = CompOpp (str_compare a b).
Proof.
  revert b. induction a as [|x a IH]; intros [|y b]; cbn; try reflexivity.
  rewrite (Z.compare_antisym (code x) (code y)).
  destruct (code x ?= code y); cbn; auto.
Qed.

Lemma str_le_total (a b : string) : str_le a b = false -> str_le b a = true.
Proof.
  unfold str_le. rewrite (str_compare_antisym a b).
  destruct (str_compare a b); cbn; congruence.
Qed.

Lemma str_le_trans (a b c : string) :
  str_le a b = true -> str_le b c = true -> str_le a c = true.
Proof.
  unfold str_le. revert b c.
  induction a as [|x a IH]; intros [|y b] [|z c]; cbn; try congruence.
  destruct (Z.compare_spec (code x) (code y)),
           (Z.compare_spec (code y) (code z)),
           (Z.compare_spec (code x) (code z));
    try lia; try congruence; apply IH.
Qed.

Lemma region_le_total (a b : RegionAttrs.t) :
  region_le a b = false -> region_le b a = true.
Proof. apply str_le_total. Qed.

(** *** The region dimension *)

(** The rows of the left join of the labels with the reference. *)
Lemma joined_rows (labels : list string) (providers : list Provider.t)
    (a : RegionAttrs.t) :
  In a (map attrs_of
          (merge_left String.eqb (fun s => s) Provider.region
             labels providers)) <->
  exists s, In s labels /\
    ((exists e, In e providers /\ Provider.region e = s /\
        a = RegionAttrs.Make s (Some (Provider.preferred_provider e))
              (Some (Provider.network_tier e)))
     \/ ((forall e, In e providers -> Provider.region e <> s) /\
         a = RegionAttrs.Make s None None)).
Proof.
  rewrite in_map_iff. split.
  - intros ([s o] & <- & H).
    apply (merge_left_In String.eqb (fun s : string => s) string_eqb_canon
             (fun s => s) Provider.region labels providers s o) in H.
    destruct H as (Hs & H). exists s. split; [exact Hs|].
    destruct o as [e|].
    + left. exists e. destruct H as (He & E). auto.
    + right. split; [|reflexivity].
      intros e He E. apply (H e He). symmetry. exact E.
  - intros (s & Hs & [(e & He & E & ->)|(Hn & ->)]).
    + exists (s, Some e). split; [reflexivity|].
      apply (merge_left_In String.eqb (fun s : string => s) string_eqb_canon
               (fun s => s) Provider.region labels providers s (Some e)).
      split; [exact Hs|]. split; [exact He|]. symmetry. exact E.
    + exists (s, None). split; [reflexivity|].
      apply (merge_left_In String.eqb (fun s : string => s) string_eqb_canon
               (fun s => s) Provider.region labels providers s None).
      split; [exact Hs|]. intros e He E. apply (Hn e He). symmetry. exact E.
Qed.

Lemma distinct_labels_In (insurance : list Raw.t) (s : string) :
  In s (drop_duplicates String.eqb (map Ins.region (transform insurance))) <->
  exists r, In r insurance /\ s = label r.
Proof.
  split.
  - intros H.
    apply (drop_duplicates_In String.eqb (fun s : string => s)
             string_eqb_canon) in H.
    unfold transform in H. rewrite map_map in H. apply in_map_iff in H.
    destruct H as (r & E & Hr). exists r. split; [exact Hr|].
    symmetry. exact E.
  - intros (r & Hr & ->).
    pose proof (drop_duplicates_cover String.eqb (fun s => s) string_eqb_canon
                  (map Ins.region (transform insurance)) (label r)) as H.
    rewrite map_id in H. apply H.
    unfold transform. rewrite map_map. apply in_map_iff.
    exists r. split; [reflexivity|exact Hr].
Qed.

(** What the region dimension holds, for both pipelines. *)
Lemma build_regions_rows (dedup : bool) (insurance : list Raw.t)
    (providers : list Provider.t) :
  providers <> [] ->
  exists dim,
    build_regions dedup (transform insurance) providers = Ok dim /\
    map RegionDim.region_key dim = Calendar.zrange 1 (List.length dim) /\
    Sorted (fun a b => region_le a b = true) (map RegionDim.attrs dim) /\
    (forall a,
       In a (map RegionDim.attrs dim) <->
       exists s, (exists r, In r insurance /\ s = label r) /\
         ((exists e, In e providers /\ Provider.region e = s /\
             a = RegionAttrs.Make s (Some (Provider.preferred_provider e))
                   (Some (Provider.network_tier e)))
          \/ ((forall e, In e providers -> Provider.region e <> s) /\
              a = RegionAttrs.Make s None None))).
Proof.
  intros Hne. unfold build_regions.
  destruct providers as [|p0 ps]; [congruence|].
  set (providers := p0 :: ps) in *. cbv zeta.
  set (labels := drop_duplicates String.eqb
                   (map Ins.region (transform insurance))).
  set (joined0 := map attrs_of
                    (merge_left String.eqb (fun s => s) Provider.region
                       labels providers)).
  set (joined := if dedup then drop_duplicates attrs_eqb joined0 else joined0).
  eexists. split; [reflexivity|].
  rewrite !map_map. cbn [RegionDim.region_key RegionDim.attrs].
  rewrite length_map, number_rows_length, number_rows_fst, number_rows_snd.
  split; [reflexivity|]. split.
  - apply sort_values_sorted, region_le_total.
  - intros a.
    assert (In a (sort_values region_le joined) <-> In a joined0) as ->.
    { split.
      - intros H. apply (Permutation_in _ (sort_values_perm region_le joined))
          in H.
        unfold joined in H. destruct dedup; [|exact H].
        apply (drop_duplicates_In attrs_eqb (fun x : RegionAttrs.t => x)
                 attrs_eqb_canon) in H. exact H.
      - intros H.
        apply (Permutation_in _
                 (Permutation_sym (sort_values_perm region_le joined))).
        unfold joined. destruct dedup; [|exact H].
        pose proof (drop_duplicates_cover attrs_eqb (fun x => x)
                      attrs_eqb_canon joined0 a H) as X.
        rewrite map_id in X. exact X. }
    unfold joined0. rewrite joined_rows. unfold labels.
    split; intros (s & Hs & H); exists s; (split; [|exact H]);
      apply distinct_labels_In; exact Hs.
Qed.

(** Every label has a row, matched or not. *)
Lemma build_regions_labels (dedup : bool) (insurance : list Raw.t)
    (providers : list Provider.t) (dim : list RegionDim.t) :
  build_regions dedup (transform insurance) providers = Ok dim ->
  forall r, In r insurance ->
    In (label r) (map (fun d => RegionAttrs.region (RegionDim.attrs d)) dim).
Proof.
  intros E r Hr.
  assert (providers <> []) as Hne by (intros ->; discriminate E).
  destruct (build_regions_rows dedup insurance providers Hne)
    as (dim' & E' & _ & _ & Rows).
  rewrite E in E'. injection E' as <-.
  rewrite <- (map_map RegionDim.attrs RegionAttrs.region).
  destruct (existsb (fun e => String.eqb (Provider.region e) (label r))
              providers) eqn:X.
  - apply existsb_exists in X. destruct X as (e & He & Ee).
    apply String.eqb_eq in Ee.
    apply in_map_iff.
    exists (RegionAttrs.Make (label r) (Some (Provider.preferred_provider e))
              (Some (Provider.network_tier e))).
    split; [reflexivity|]. apply Rows. exists (label r).
    split; [exists r; auto|]. left. exists e. auto.
  - apply in_map_iff. exists (RegionAttrs.Make (label r) None None).
    split; [reflexivity|]. apply Rows. exists (label r).
    split; [exists r; auto|]. right. split; [|reflexivity].
    intros e He Ee.
    assert (existsb (fun e => String.eqb (Provider.region e) (label r))
              providers = true) as Y
      by (apply existsb_exists; exists e; split;
          [exact He|apply String.eqb_eq, Ee]).
    congruence.
Qed.

(** In [etl_pipeline_mysql.py], a reference whose entries of one region
    are all the same entry gives one row per label. *)
Lemma build_regions_dedup_unique (insurance : list Raw.t)
    (providers : list Provider.t) (dim : list RegionDim.t) :
  consistent providers ->
  build_regions true (transform insurance) providers = Ok dim ->
  NoDup (map (fun d => RegionAttrs.region (RegionDim.attrs d)) dim).
Proof.
  intros Hc. unfold build_regions.
  destruct providers as [|p0 ps]; [discriminate|].
  set (providers := p0 :: ps) in *. cbv zeta.
  set (labels := drop_duplicates String.eqb
                   (map Ins.region (transform insurance))).
  set (joined0 := map attrs_of
                    (merge_left String.eqb (fun s => s) Provider.region
                       labels providers)).
  intros H. injection H as <-.
  rewrite map_map. cbn [RegionDim.attrs].
  rewrite <- (map_map snd RegionAttrs.region), number_rows_snd.
  apply (Permutation_NoDup
           (Permutation_map RegionAttrs.region
              (Permutation_sym
                 (sort_values_perm region_le
                    (drop_duplicates attrs_eqb joined0))))).
  apply NoDup_map_injective.
  - intros x y Hx Hy Exy.
    apply (drop_duplicates_In attrs_eqb (fun a : RegionAttrs.t => a)
             attrs_eqb_canon) in Hx, Hy.
    unfold joined0 in Hx, Hy. apply joined_rows in Hx, Hy.
    destruct Hx as (s & _ & [(e & He & Ee & ->)|(Hn & ->)]),
             Hy as (s' & _ & [(e' & He' & Ee' & ->)|(Hn' & ->)]);
      cbn in Exy.
    + rewrite (Hc e e' He He') by congruence. congruence.
    + exfalso. apply (Hn' e He). congruence.
    + exfalso. apply (Hn e' He'). congruence.
    + congruence.
  - pose proof (drop_duplicates_NoDup attrs_eqb (fun a : RegionAttrs.t => a)
                  attrs_eqb_canon joined0) as X.
    rewrite map_id in X. exact X.
Qed.

(** The insured dimension: its tuples and its keys. *)
Lemma insured_dim_cols (insured : list Ins.t) :
  map InsuredDim.cols (build_insured_dim insured) =
  drop_duplicates inskey_eqb (map key_of insured).
Proof.
  unfold build_insured_dim. rewrite map_map. cbn [InsuredDim.cols].
  apply number_rows_snd.
Qed.

Lemma insured_dim_keys (insured : list Ins.t) :
  map InsuredDim.insured_key (build_insured_dim insured) =
  Calendar.zrange 1 (List.length (build_insured_dim insured)).
Proof.
  unfold build_insured_dim.
  rewrite map_map, length_map, number_rows_length.
  cbn [InsuredDim.insured_key]. apply number_rows_fst.
Qed.

(** With one reference entry per region, the dimension has one row per
    distinct label. *)
Lemma build_regions_one_per_label (dedup : bool) (insurance : list Raw.t)
    (providers : list Provider.t) (dim : list RegionDim.t) :
  NoDup (map Provider.region providers) ->
  build_regions dedup (transform insurance) providers = Ok dim ->
  Permutation
    (map (fun d => RegionAttrs.region (RegionDim.attrs d)) dim)
    (drop_duplicates String.eqb (map label insurance)).
Proof.
  intros N. unfold build_regions.
  destruct providers as [|p0 ps]; [discriminate|].
  set (providers := p0 :: ps) in *. cbv zeta.
  set (labels := drop_duplicates String.eqb
                   (map Ins.region (transform insurance))).
  assert (labels = drop_duplicates String.eqb (map label insurance)) as El
    by (unfold labels, transform; rewrite map_map; reflexivity).
  set (joined0 := map attrs_of
                    (merge_left String.eqb (fun s => s) Provider.region
                       labels providers)).
  assert (map RegionAttrs.region joined0 = labels) as Ej.
  { unfold joined0.
    rewrite (merge_left_unique String.eqb (fun s : string => s)
               string_eqb_canon (fun s => s) Provider.region labels
               providers N).
    rewrite !map_map. cbn. apply map_id. }
  assert (NoDup labels) as Nl.
  { pose proof (drop_duplicates_NoDup String.eqb (fun s : string => s)
                  string_eqb_canon (map Ins.region (transform insurance)))
      as X. rewrite map_id in X. exact X. }
  assert ((if dedup then drop_duplicates attrs_eqb joined0 else joined0)
          = joined0) as Ed.
  { destruct dedup; [|reflexivity].
    apply (kept_from_id attrs_eqb (fun x : RegionAttrs.t => x)
             attrs_eqb_canon joined0 []).
    cbn [app]. rewrite map_id.
    apply (NoDup_map_inv RegionAttrs.region). rewrite Ej. exact Nl. }
  rewrite Ed. intros H. injection H as <-.
  rewrite map_map. cbn [RegionDim.attrs].
  rewrite <- (map_map snd RegionAttrs.region), number_rows_snd, <- El, <- Ej.
  apply Permutation_map, sort_values_perm.
Qed.

Lemma region_sorted_strongly (rows : list RegionAttrs.t) :
  Sorted (fun a b => region_le a b = true) rows ->
  StronglySorted (fun a b => str_le a b = true)
    (map RegionAttrs.region rows).
Proof.
  intros S. apply Sorted_StronglySorted.
  - intros a b c. apply str_le_trans.
  - induction S as [|a l S IH Hd]; cbn [map]; constructor; [exact IH|].
    destruct Hd; cbn [map]; constructor. assumption.
Qed.

(** C4, as the code has it: for every list of records and every non-empty
    reference, the region dimension is built without error; its labels are
    the trimmed and lowercased source labels; each row carries either the
    enrichment of a reference entry whose region is the row's label, or
    nulls when the reference has no such entry, and every such entry and
    every unmatched label has its row; the rows are sorted by label and
    numbered 1..N in that order; with one reference entry per region there
    is exactly one row per distinct label. *)
Theorem build_regions_left_join (dedup : bool) (insurance : list Raw.t)
    (providers : list Provider.t) :
  providers <> [] ->
  exists dim,
    build_regions dedup (transform insurance) providers = Ok dim /\
    map RegionDim.region_key dim = Calendar.zrange 1 (List.length dim) /\
    StronglySorted (fun a b => str_le a b = true)
      (map (fun d => RegionAttrs.region (RegionDim.attrs d)) dim) /\
    (forall s,
       In s (map (fun d => RegionAttrs.region (RegionDim.attrs d)) dim) <->
       exists r, In r insurance /\ s = label r) /\
    Forall (fun d =>
      let a := RegionDim.attrs d in
      match RegionAttrs.preferred_provider a, RegionAttrs.network_tier a with
      | Some p, Some t =>
          exists e, In e providers /\
            Provider.region e = RegionAttrs.region a /\
            Provider.preferred_provider e = p /\ Provider.network_tier e = t
      | None, None =>
          forall e, In e providers ->
            Provider.region e <> RegionAttrs.region a
      | _, _ => False
      end) dim /\
    (forall r e,
       In r insurance -> In e providers -> Provider.region e = label r ->
       In (RegionAttrs.Make (label r) (Some (Provider.preferred_provider e))
             (Some (Provider.network_tier e)))
          (map RegionDim.attrs dim)) /\
    (forall r,
       In r insurance ->
       (forall e, In e providers -> Provider.region e <> label r) ->
       In (RegionAttrs.Make (label r) None None) (map RegionDim.attrs dim)) /\
    (NoDup (map Provider.region providers) ->
     NoDup (map (fun d => RegionAttrs.region (RegionDim.attrs d)) dim) /\
     List.length dim = distinct_labels (map label insurance)).
Proof.
  intros Hne.
  destruct (build_regions_rows dedup insurance providers Hne)
    as (dim & E & Ek & Srt & Rows).
  exists dim. split; [exact E|]. split; [exact Ek|].
  split; [|split; [|split; [|split; [|split]]]].
  - rewrite <- (map_map RegionDim.attrs RegionAttrs.region).
    apply region_sorted_strongly, Srt.
  - intros s. rewrite <- (map_map RegionDim.attrs RegionAttrs.region).
    rewrite in_map_iff. split.
    + intros (a & <- & Ha). apply Rows in Ha.
      destruct Ha as (s & Hs & [(e & _ & _ & ->)|(_ & ->)]); exact Hs.
    + intros Hs.
      destruct (existsb (fun e => String.eqb (Provider.region e) s) providers)
        eqn:X.
      * apply existsb_exists in X. destruct X as (e & He & Ee).
        apply String.eqb_eq in Ee.
        exists (RegionAttrs.Make s (Some (Provider.preferred_provider e))
                  (Some (Provider.network_tier e))).
        split; [reflexivity|]. apply Rows. exists s. split; [exact Hs|].
        left. exists e. auto.
      * exists (RegionAttrs.Make s None None).
        split; [reflexivity|]. apply Rows. exists s. split; [exact Hs|].
        right. split; [|reflexivity]. intros e He Ee.
        assert (existsb (fun e => String.eqb (Provider.region e) s) providers
                = true) as Y
          by (apply existsb_exists; exists e; split;
              [exact He|apply String.eqb_eq, Ee]).
        congruence.
  - apply Forall_forall. intros d Hd. cbv zeta.
    assert (In (RegionDim.attrs d) (map RegionDim.attrs dim)) as Ha
      by (apply in_map, Hd).
    apply Rows in Ha.
    destruct Ha as (s & _ & [(e & He & Ee & ->)|(Hn & ->)]); cbn.
    + exists e. auto.
    + exact Hn.
  - intros r e Hr He Ee. apply Rows. exists (label r).
    split; [exists r; auto|]. left. exists e. auto.
  - intros r Hr Hn. apply Rows. exists (label r).
    split; [exists r; auto|]. right. auto.
  - intros N.
    pose proof (build_regions_one_per_label dedup insurance providers dim N E)
      as P.
    pose proof (drop_duplicates_NoDup String.eqb (fun s : string => s)
                  string_eqb_canon (map label insurance)) as Nl.
    rewrite map_id in Nl. split.
    + apply (Permutation_NoDup (Permutation_sym P)), Nl.
    + rewrite <- (length_map (fun d => RegionAttrs.region (RegionDim.attrs d))).
      rewrite (Permutation_length P). unfold distinct_labels.
      rewrite <- (map_id (map label insurance)) at 2.
      apply (drop_duplicates_count String.eqb (fun s : string => s)
               string_eqb_canon).
Qed.

Lemma build_regions_left_join_witness :
  exists dim,
    build_regions false (transform Scenario.records) Scenario.reference
      = Ok dim /\
    map RegionDim.region_key dim = Calendar.zrange 1 (List.length dim).
Proof.
  destruct (build_regions_left_join false Scenario.records Scenario.reference)
    as (dim & E & K & _).
  - discriminate.
  - exists dim. split; [exact E|exact K].
Defined.

(** C4 as stated fails on the empty reference: the frame built from no
    document has no region column to join on. *)
Lemma build_regions_empty_reference :
  build_regions false (transform Scenario.records) [] =
    Raise (KeyError "region") /\
  build_regions true (transform Scenario.records) [] =
    Raise (KeyError "region").
Proof. split; reflexivity. Qed.

(** C9: in the enrichment join only the source labels are normalised; the
    region of a reference entry is compared as it is written. For every
    source record the region dimension has a row with its trimmed and
    lowercased label, and for every row of the dimension, whose label is
    such a label, both enrichment attributes are non-null
    exactly when some reference entry has a region string equal to that
    label, and both are null exactly when none has. (The join raises only
    for the reference without entries.) *)
Theorem region_enrichment_verbatim (dedup : bool) (insurance : list Raw.t)
    (providers : list Provider.t) :
  match build_regions dedup (transform insurance) providers with
  | Ok dim =>
      (forall r, In r insurance ->
         In (label r)
            (map (fun d => RegionAttrs.region (RegionDim.attrs d)) dim)) /\
      Forall (fun d =>
        let a := RegionDim.attrs d in
        (exists r, In r insurance /\ RegionAttrs.region a = label r) /\
        ((RegionAttrs.preferred_provider a <> None /\
          RegionAttrs.network_tier a <> None) <->
         (exists e, In e providers /\
            Provider.region e = RegionAttrs.region a)) /\
        ((RegionAttrs.preferred_provider a = None /\
          RegionAttrs.network_tier a = None) <->
         (forall e, In e providers ->
            Provider.region e <> RegionAttrs.region a))) dim
  | Raise _ => providers = []
  end.
Proof.
  destruct providers as [|p0 ps]; [reflexivity|].
  destruct (build_regions_rows dedup insurance (p0 :: ps) ltac:(discriminate))
    as (dim & E & _ & _ & Rows).
  rewrite E.
  split; [apply (build_regions_labels dedup insurance (p0 :: ps) dim E)|].
  apply Forall_forall. intros d Hd. cbv zeta.
  assert (In (RegionDim.attrs d) (map RegionDim.attrs dim)) as Ha
    by (apply in_map, Hd).
  apply Rows in Ha.
  destruct Ha as (s & Hs & [(e & He & Ee & ->)|(Hn & ->)]);
    cbn [RegionAttrs.region RegionAttrs.preferred_provider
         RegionAttrs.network_tier].
  - split; [exact Hs|]. split; split.
    + intros _. exists e. auto.
    + intros _. split; discriminate.
    + intros (X & _). discriminate.
    + intros X. destruct (X e He Ee).
  - split; [exact Hs|]. split; split.
    + intros (X & _). congruence.
    + intros (e & He & Ee). destruct (Hn e He Ee).
    + intros _. exact Hn.
    + intros _. auto.
Qed.

(** A reference entry that differs from the label in case or in the spaces
    around it enriches nothing: the east gets nulls, the west its entry. *)
Example region_enrichment_other_spelling :
  build_regions false (transform Scenario.records) Scenario.reference_spelled
  = Ok [ RegionDim.Make (RegionAttrs.Make "east" None None) 1;
         RegionDim.Make
           (RegionAttrs.Make "west" (Some "Pacific Health") (Some "silver"))
           2 ].
Proof. reflexivity. Qed.

End DimensionFacts.

(** ** The fact builder and the two pipelines *)

Module PipelineFacts.
Import Py Datetime Calendar Dates DateRule Pandas Pipeline Keys.
Import CalendarFacts DateAssignFacts PandasFacts DimensionFacts.

Lemma plus_days_next (dt : datetime) (n : nat) :
  plus_days (next_day dt) n = next_day (plus_days dt n).
Proof. induction n as [|n IH]; cbn [plus_days]; [|rewrite IH]; reflexivity. Qed.

Lemma days_from_In (k : nat) :
  forall dt n, (n < k)%nat -> In (plus_days dt n) (days_from dt k).
Proof.
  induction k as [|k IH]; intros dt n H; [lia|].
  cbn [days_from]. destruct n as [|n]; [left; reflexivity|].
  right. cbn [plus_days]. rewrite <- plus_days_next. apply IH. lia.
Qed.

(** The date dimension of both pipelines: the 365 days of 2010. *)
Lemma dim_date_2010_rows :
  dim_date_2010 = Ok (map date_row (days_from (jan1 2010) 365)).
Proof. vm_compute. reflexivity. Qed.

(** Every assigned date key of 2010 is a key of the date dimension. *)
Lemma assigned_key_in_dim_date (i : Z) :
  In (assigned_key i 2010)
     (map date_key (map date_row (days_from (jan1 2010) 365))).
Proof.
  rewrite map_map. cbn [date_key date_row]. unfold assigned_key.
  apply (in_map strftime_Ymd_int), days_from_In.
  pose proof (day_offset_range i). lia.
Qed.

Lemma apply_date_keys (row_id : list Z) :
  apply (fun i => deterministc_date_for_row i 2010) row_id =
  Ok (map (fun i => assigned_key i 2010) row_id).
Proof.
  induction row_id as [|i l IH]; [reflexivity|].
  cbn [apply map]. rewrite date_for_row_ok, IH by (unfold MINYEAR, MAXYEAR; lia).
  reflexivity.
Qed.

Lemma combine_map_swap {A B C D : Type} (f : A -> C) (g : B -> D)
    (l1 : list A) (l2 : list B) :
  combine (map f l1) (map g l2) =
  map (fun p => (f (snd p), g (fst p))) (combine l2 l1).
Proof.
  revert l2. induction l1 as [|x l1 IH]; intros [|y l2]; try reflexivity.
  cbn [map combine fst snd]. f_equal. apply IH.
Qed.

Lemma Forall2_map_r {A B : Type} (P : A -> B -> Prop) (f : A -> B)
    (l : list A) :
  Forall (fun x => P x (f x)) l -> Forall2 P l (map f l).
Proof. induction 1; cbn [map]; constructor; assumption. Qed.

(** With distinct natural keys in both dimensions, the two joins pair
    every row of [insured] with one row of each dimension. *)
Lemma enrich_unique (insured : list Ins.t) (insured_dim : list InsuredDim.t)
    (regions : list RegionDim.t) :
  NoDup (map canon_key (map InsuredDim.cols insured_dim)) ->
  NoDup (map (fun d => RegionAttrs.region (RegionDim.attrs d)) regions) ->
  enrich insured insured_dim regions =
  map (fun i => (i, lookup_insured insured_dim i, lookup_region regions i))
    insured.
Proof.
  intros NI NR. unfold enrich.
  rewrite (merge_left_unique inskey_eqb canon_key inskey_eqb_canon key_of
             InsuredDim.cols insured insured_dim)
    by (rewrite map_map in NI; exact NI).
  rewrite (merge_left_unique String.eqb (fun s : string => s)
             string_eqb_canon (fun p => Ins.region (fst p)) fst)
    by (rewrite map_map; exact NR).
  rewrite map_map. reflexivity.
Qed.

Lemma lookup_insured_some (insurance : list Raw.t) (r : Raw.t) :
  In r insurance ->
  exists d,
    lookup_insured (build_insured_dim (transform insurance))
      (transform_row r) = Some d /\
    In d (build_insured_dim (transform insurance)) /\
    inskey_eqb (key_of (transform_row r)) (InsuredDim.cols d) = true.
Proof.
  intros Hr. unfold lookup_insured.
  destruct (find_key_some inskey_eqb canon_key inskey_eqb_canon
              InsuredDim.cols (build_insured_dim (transform insurance))
              (key_of (transform_row r))) as (d & F & Hd & E).
  - rewrite <- (map_map InsuredDim.cols canon_key), insured_dim_cols.
    apply (drop_duplicates_cover inskey_eqb canon_key inskey_eqb_canon).
    unfold transform. rewrite map_map.
    apply (in_map (fun x => key_of (transform_row x))). exact Hr.
  - exists d. split; [exact F|]. split; [exact Hd|].
    apply inskey_eqb_canon. exact E.
Qed.

Lemma lookup_region_some (dedup : bool) (insurance : list Raw.t)
    (providers : list Provider.t) (regions : list RegionDim.t) (r : Raw.t) :
  build_regions dedup (transform insurance) providers = Ok regions ->
  In r insurance ->
  exists g,
    lookup_region regions (transform_row r)
      = Some (RegionAttrs.region (RegionDim.attrs g), RegionDim.region_key g) /\
    In g regions /\ RegionAttrs.region (RegionDim.attrs g) = label r.
Proof.
  intros E Hr. unfold lookup_region.
  pose proof (build_regions_labels dedup insurance providers regions E r Hr)
    as L.
  destruct (find_key_some String.eqb (fun s : string => s) string_eqb_canon
              (@fst string Z)
              (map (fun g => (RegionAttrs.region (RegionDim.attrs g),
                              RegionDim.region_key g)) regions)
              (Ins.region (transform_row r))) as (p & F & Hp & Ep).
  - rewrite map_map. exact L.
  - apply in_map_iff in Hp. destruct Hp as (g & <- & Hg).
    exists g. split; [exact F|]. split; [exact Hg|].
    symmetry. exact Ep.
Qed.

Lemma then_enter {A : Type} (s : stage) (k : unit -> run A) :
  then_ (enter s) k = (s :: fst (k tt), snd (k tt)).
Proof. reflexivity. Qed.

Lemma then_lift_ok {A B : Type} (a : A) (k : A -> run B) :
  then_ (lift (Ok a)) k = k a.
Proof. unfold then_, lift. cbn. destruct (k a). reflexivity. Qed.

Lemma then_lift_raise {A B : Type} (e : exn) (k : A -> run B) :
  then_ (lift (Raise e)) k = ([], Raise e).
Proof. reflexivity. Qed.

(** The fact rows of [etl_pipeline_mysql.py] when no two rows of a
    dimension have the same natural key: one row per record, in order. *)
Lemma mysql_build_fact_rows (insurance : list Raw.t)
    (regions : list RegionDim.t) :
  NoDup (map (fun d => RegionAttrs.region (RegionDim.attrs d)) regions) ->
  Mysql.build_fact (transform insurance)
    (build_insured_dim (transform insurance)) regions =
  Ok (map (fun ir =>
            fact_row
              (transform_row (snd ir),
               lookup_insured (build_insured_dim (transform insurance))
                 (transform_row (snd ir)),
               lookup_region regions (transform_row (snd ir)))
              (assigned_key (fst ir) 2010))
        (number_rows insurance)).
Proof.
  intros NR. unfold Mysql.build_fact. cbv zeta.
  rewrite apply_date_keys. cbn [bind].
  rewrite enrich_unique.
  - rewrite length_map.
    set (dim := build_insured_dim (transform insurance)).
    unfold transform. rewrite map_map, length_map.
    rewrite combine_map_swap, map_map. reflexivity.
  - rewrite insured_dim_cols.
    apply (drop_duplicates_NoDup inskey_eqb canon_key inskey_eqb_canon).
  - exact NR.
Qed.

(** C1, as the code has it: in [etl_pipeline_mysql.py], for every list of
    records and every non-empty reference whose entries of one region are
    all the same entry, the run reaches the load stage with one fact row
    per record in source order; the records are numbered 1..N by position
    and the number drives the date key; every fact row carries the key of
    an insured dimension row with the record's natural-key tuple, the key
    of a region dimension row with the record's normalised label, and a
    date key of the date dimension. *)
Theorem mysql_facts_resolve (insurance : list Raw.t)
    (providers : list Provider.t) :
  providers <> [] -> consistent providers ->
  exists mart,
    Mysql.main insurance providers =
      ([Extracting; Transforming; BuildingFact; Loading], Ok mart) /\
    build_regions true (transform insurance) providers
      = Ok (Mart.dim_region mart) /\
    Mart.dim_insured mart = build_insured_dim (transform insurance) /\
    dim_date_2010 = Ok (Mart.dim_date mart) /\
    List.length (Mart.fact_claims mart) = List.length insurance /\
    map fst (number_rows insurance)
      = Calendar.zrange 1 (List.length insurance) /\
    map snd (number_rows insurance) = insurance /\
    Forall2 (fact_of_record mart) (number_rows insurance)
      (Mart.fact_claims mart).
Proof.
  intros Hne Hc.
  destruct (build_regions_rows true insurance providers Hne)
    as (regions & E & _).
  pose proof (build_regions_dedup_unique insurance providers regions Hc E)
    as NR.
  pose proof (mysql_build_fact_rows insurance regions NR) as F.
  eexists (Mart.Make _ _ regions _).
  split.
  { unfold Mysql.main. rewrite !then_enter.
    rewrite E, then_lift_ok, dim_date_2010_rows, then_lift_ok.
    rewrite then_enter, F, then_lift_ok, then_enter.
    cbn [fst snd ret]. reflexivity. }
  cbn [Mart.dim_region Mart.dim_insured Mart.dim_date Mart.fact_claims].
  split; [exact E|]. split; [reflexivity|].
  split; [apply dim_date_2010_rows|].
  split; [rewrite length_map; apply number_rows_length|].
  split; [apply number_rows_fst|]. split; [apply number_rows_snd|].
  apply Forall2_map_r, Forall_forall. intros [i r] Hir.
  assert (In r insurance) as Hr
    by (unfold number_rows in Hir; apply in_combine_r in Hir; exact Hir).
  unfold fact_of_record.
  cbn [fst snd fact_row Fact.charges Fact.date_key Fact.insured_key
       Fact.region_key Mart.dim_region Mart.dim_insured Mart.dim_date
       transform_row Ins.charges].
  split; [reflexivity|]. split; [reflexivity|].
  split; [apply assigned_key_in_dim_date|]. split.
  - destruct (lookup_insured_some insurance r Hr) as (d & L & Hd & Ed).
    exists d. split; [exact Hd|]. split; [|exact Ed].
    change (option_map InsuredDim.insured_key
              (lookup_insured (build_insured_dim (transform insurance))
                 (transform_row r)) = Some (InsuredDim.insured_key d)).
    rewrite L. reflexivity.
  - destruct (lookup_region_some true insurance providers regions r E Hr)
      as (g & L & Hg & Eg).
    exists g. split; [exact Hg|]. split; [|exact Eg].
    change (option_map snd (lookup_region regions (transform_row r))
            = Some (RegionDim.region_key g)).
    rewrite L. reflexivity.
Qed.

Lemma mysql_facts_resolve_witness :
  exists mart,
    Mysql.main Scenario.records Scenario.reference =
      ([Extracting; Transforming; BuildingFact; Loading], Ok mart) /\
    List.length (Mart.fact_claims mart) = 3%nat.
Proof.
  destruct (mysql_facts_resolve Scenario.records Scenario.reference)
    as (mart & E & _ & _ & _ & L & _).
  - discriminate.
  - intros p q Hp Hq.
    cbn in Hp, Hq.
    destruct Hp as [<-|[<-|[]]], Hq as [<-|[<-|[]]]; cbn;
      congruence.
  - exists mart. split; [exact E|exact L].
Defined.

(** C1 as stated fails when the reference has two different entries for
    one region: the records of that region get two fact rows each. *)
Lemma mysql_two_entries_more_facts :
  exists mart,
    snd (Mysql.main Scenario.records Scenario.reference_twice) = Ok mart /\
    List.length Scenario.records = 3%nat /\
    List.length (Mart.fact_claims mart) = 5%nat.
Proof. eexists. split; [vm_compute; reflexivity|]. split; reflexivity. Qed.

(** C10: in [etl_pipeline.py] no name [np] is bound, in the module or
    among the builtins, so the fact step raises [NameError] whatever it is
    given; every run ends with an exception and never enters the load
    stage, and a run that enters the fact step (any run with a non-empty
    reference) ends with that [NameError]. *)
Theorem sqlite_fact_step_name_error (insurance : list Raw.t)
    (providers : list Provider.t) :
  ~ In "np" (Sqlite.module_globals ++ builtins) /\
  (forall insured insured_dim regions,
     Sqlite.build_fact insured insured_dim regions = Raise (NameError "np")) /\
  (exists e, snd (Sqlite.main insurance providers) = Raise e) /\
  ~ In Loading (fst (Sqlite.main insurance providers)) /\
  (In BuildingFact (fst (Sqlite.main insurance providers)) ->
   snd (Sqlite.main insurance providers) = Raise (NameError "np")) /\
  (providers <> [] ->
   Sqlite.main insurance providers =
     ([Extracting; Transforming; BuildingFact], Raise (NameError "np"))).
Proof.
  assert (forall insured insured_dim regions,
            Sqlite.build_fact insured insured_dim regions
            = Raise (NameError "np")) as Hfact by reflexivity.
  assert (providers <> [] ->
          Sqlite.main insurance providers =
            ([Extracting; Transforming; BuildingFact],
             Raise (NameError "np"))) as Hmain.
  { intros Hne.
    destruct (build_regions_rows false insurance providers Hne)
      as (regions & E & _).
    unfold Sqlite.main. rewrite !then_enter.
    rewrite E, then_lift_ok, dim_date_2010_rows, then_lift_ok.
    rewrite then_enter, Hfact, then_lift_raise. reflexivity. }
  split.
  { intros H. cbn in H.
    repeat (destruct H as [H|H]; [discriminate H|]). exact H. }
  split; [exact Hfact|].
  destruct providers as [|p ps].
  - split; [exists (KeyError "region"); reflexivity|].
    split; [|split; [|congruence]].
    + cbn. intros [H|[H|[]]]; discriminate H.
    + cbn. intros [H|[H|[]]]; discriminate H.
  - rewrite Hmain by discriminate. cbn [fst snd].
    split; [exists (NameError "np"); reflexivity|].
    split; [|split; [reflexivity|reflexivity]].
    cbn. intros [H|[H|[H|[]]]]; discriminate H.
Qed.

(** C8 on the code: with the three records the two dimensions have two
    rows each (the first and third record share one insured row; the
    regions are east and west), but [etl_pipeline.py] stops in the fact
    step with [NameError] and builds no fact table. The sibling
    [etl_pipeline_mysql.py] builds three fact rows whose charges sum to
    7200. *)
Theorem scenario_sqlite_stops_before_facts :
  map InsuredDim.insured_key
    (build_insured_dim (transform Scenario.records)) = [1; 2] /\
  option_map (map (fun d => (RegionDim.region_key d,
                             RegionAttrs.region (RegionDim.attrs d))))
    (match build_regions false (transform Scenario.records)
             Scenario.reference with
     | Ok dim => Some dim
     | Raise _ => None
     end) = Some [(1, "east"); (2, "west")] /\
  Sqlite.main Scenario.records Scenario.reference =
    ([Extracting; Transforming; BuildingFact], Raise (NameError "np")) /\
  (exists mart,
     snd (Mysql.main Scenario.records Scenario.reference) = Ok mart /\
     List.length (Mart.dim_insured mart) = 2%nat /\
     List.length (Mart.dim_region mart) = 2%nat /\
     List.length (Mart.fact_claims mart) = 3%nat /\
     Scenario.total_charges (Mart.fact_claims mart) = Scenario.f7200).
Proof.
  split; [reflexivity|]. split; [reflexivity|].
  split; [vm_compute; reflexivity|].
  eexists. split; [vm_compute; reflexivity|].
  repeat split; vm_compute; reflexivity.
Qed.

(** The float constants of the scenario are the numbers they stand for. *)
Example scenario_constants :
  valid_binary 53 1024 Scenario.f7200 = true /\
  7916483719987200 = 7200 * 2 ^ 40 /\
  8796093022208000 = 1000 * 2 ^ 43 /\
  5497558138880000 = 5000 * 2 ^ 40 /\
  5277655813324800 = 1200 * 2 ^ 42 /\
  6192449487634432 = 22 * 2 ^ 48 /\
  8725724278030336 = 31 * 2 ^ 48.
Proof. repeat split; reflexivity. Qed.

End PipelineFacts.

(** ** Further properties of the classifier and of the date functions *)

Module MoreDateFacts.
Import Py Datetime Calendar Dates DateRule Classifier Notions.
Import ClassifierFacts CalendarFacts DateDimFacts DateAssignFacts.

(** X1: on every float, negative numbers, infinities and NaN included, the
    category is "Underweight" exactly below 18.5, "Normal" exactly on
    [18.5, 25), "Overweight" exactly on [25, 30), and "Obese" exactly from
    30 on or for NaN: a missing body-mass index is classified as obese. *)
Theorem bmi_category_all_floats (b : spec_float) :
  (bmi_category b = "Underweight" <-> SFltb b f18_5 = true) /\
  (bmi_category b = "Normal" <->
     SFleb f18_5 b = true /\ SFltb b f25 = true) /\
  (bmi_category b = "Overweight" <->
     SFleb f25 b = true /\ SFltb b f30 = true) /\
  (bmi_category b = "Obese" <-> SFleb f30 b = true \/ b = S754_nan).
Proof.
  destruct b as [s|s| |s m e].
  - cbn. repeat split; intros; try reflexivity; try discriminate;
      try (destruct H; discriminate).
  - destruct s; cbn; repeat split; intros; try reflexivity;
      try discriminate; try (destruct H; discriminate); auto.
  - cbn. repeat split; intros; try reflexivity; try discriminate;
      try (destruct H; discriminate); auto.
  - destruct s.
    + cbn. repeat split; intros; try reflexivity; try discriminate;
        try (destruct H; discriminate).
    + destruct (SFltb_thresholds m e) as [H12 H23].
      unfold bmi_category.
      rewrite !(SFleb_negb_SFltb (S754_finite false m e)) by discriminate.
      destruct (SFltb (S754_finite false m e) f18_5),
               (SFltb (S754_finite false m e) f25),
               (SFltb (S754_finite false m e) f30);
        cbn [negb]; repeat split; intros;
        try reflexivity; try discriminate; auto;
        try (destruct H; discriminate);
        try (specialize (H12 eq_refl); discriminate);
        try (specialize (H23 eq_refl); discriminate).
Qed.

(** The value of [make_date_dim] on two calendar dates. *)
Lemma make_date_dim_value (start_dt end_dt : datetime) :
  valid start_dt -> valid end_dt -> end_dt <> max_date ->
  make_date_dim (isoformat start_dt) (isoformat end_dt) =
  Some (Ok (map date_row
              (days_from start_dt
                 (Z.to_nat (days_between start_dt end_dt + 1))))).
Proof.
  intros Vs Ve Hmax. unfold make_date_dim.
  rewrite !fromisoformat_isoformat by assumption.
  unfold make_date_dim_from.
  destruct (le start_dt end_dt) eqn:L.
  - apply le_iff_toordinal in L; auto.
    rewrite (date_loop_run (Z.to_nat (days_between start_dt end_dt + 1)))
      by (auto; unfold days_between; lia).
    reflexivity.
  - assert (toordinal end_dt < toordinal start_dt) as Hlt.
    { destruct (Z.lt_ge_cases (toordinal end_dt) (toordinal start_dt));
        [assumption|].
      assert (le start_dt end_dt = true)
        by (apply le_iff_toordinal; auto; lia).
      congruence. }
    replace (Z.to_nat (days_between start_dt end_dt + 1)) with 0%nat
      by (unfold days_between; lia).
    cbn. rewrite L. reflexivity.
Qed.

Lemma days_from_nth (k : nat) :
  forall dt i, (i < k)%nat ->
    nth_error (days_from dt k) i = Some (plus_days dt i).
Proof.
  induction k as [|k IH]; intros dt i H; [lia|].
  destruct i as [|i]; [reflexivity|].
  cbn [days_from nth_error plus_days].
  rewrite IH by lia. rewrite PipelineFacts.plus_days_next. reflexivity.
Qed.

(** Counting days forward stays among the calendar dates as long as the
    ordinal stays in range. *)
Lemma plus_days_ordinal (dt : datetime) (n : nat) :
  valid dt -> toordinal dt + Z.of_nat n <= _MAXORDINAL ->
  valid (plus_days dt n) /\
  toordinal (plus_days dt n) = toordinal dt + Z.of_nat n.
Proof.
  intros V. induction n as [|n IH]; intros H.
  - cbn [plus_days]. split; [assumption|lia].
  - destruct (IH ltac:(lia)) as (Vn & On). cbn [plus_days].
    assert (plus_days dt n <> max_date) as Hm
      by (apply not_max_of_ordinal; [assumption|lia]).
    split; [apply valid_next_day; assumption|].
    rewrite toordinal_next_day by assumption. lia.
Qed.

Lemma isoweekday_next_day (dt : datetime) :
  valid dt -> isoweekday (next_day dt) = isoweekday dt mod 7 + 1.
Proof.
  intros V. unfold isoweekday. rewrite toordinal_next_day by assumption.
  pose proof (Z.mod_pos_bound (toordinal dt) 7 ltac:(lia)) as B.
  assert ((toordinal dt + 1) mod 7 =
          if toordinal dt mod 7 =? 6 then 0 else toordinal dt mod 7 + 1) as E.
  { destruct (Z.eqb_spec (toordinal dt mod 7) 6);
      Z.div_mod_to_equations; lia. }
  rewrite E.
  destruct (Z.eqb_spec (toordinal dt mod 7) 0) as [R|R].
  - rewrite R. reflexivity.
  - destruct (Z.eqb_spec (toordinal dt mod 7) 6) as [S6|S6].
    + rewrite S6. reflexivity.
    + destruct (Z.eqb_spec (toordinal dt mod 7 + 1) 0); [lia|].
      rewrite (Z.mod_small (toordinal dt mod 7)) by lia. reflexivity.
Qed.

(** X2: in the frame [make_date_dim] returns, the day of the week of every
    row is between 1 (Monday) and 7 (Sunday), names the row's day name,
    and from one row to the next it advances by one, 7 being followed
    by 1. *)
Theorem make_date_dim_week_cycle (start_dt end_dt : datetime)
    (rows : list DateRow) :
  valid start_dt -> valid end_dt -> end_dt <> max_date ->
  make_date_dim (isoformat start_dt) (isoformat end_dt) = Some (Ok rows) ->
  Forall (fun r =>
    1 <= day_of_week r <= 7 /\
    nth_error day_names (Z.to_nat (day_of_week r - 1)) = Some (day_name r))
    rows /\
  (forall i r r',
     nth_error rows i = Some r -> nth_error rows (S i) = Some r' ->
     day_of_week r' = day_of_week r mod 7 + 1).
Proof.
  intros Vs Ve Hmax E.
  rewrite (make_date_dim_value _ _ Vs Ve Hmax) in E. injection E as <-.
  set (k := Z.to_nat (days_between start_dt end_dt + 1)).
  split.
  - apply Forall_forall. intros r Hr. apply in_map_iff in Hr.
    destruct Hr as (d & <- & _).
    cbn [day_of_week day_name date_row]. unfold isoweekday, strftime_A.
    pose proof (weekday_range d) as W.
    assert (toordinal d mod 7 = (weekday d + 1) mod 7) as I.
    { unfold weekday. rewrite Zplus_mod_idemp_l.
      replace (toordinal d + 6 + 1) with (toordinal d + 1 * 7) by lia.
      rewrite Z.mod_add by lia. reflexivity. }
    rewrite I.
    assert (weekday d = 0 \/ weekday d = 1 \/ weekday d = 2 \/
            weekday d = 3 \/ weekday d = 4 \/ weekday d = 5 \/
            weekday d = 6) as C by lia.
    repeat (destruct C as [C|C]); rewrite C; cbn; split; (lia || reflexivity).
  - intros i r r' Hi Hi'.
    rewrite nth_error_map in Hi, Hi'.
    assert (S i < k)%nat as Hk.
    { rewrite <- (days_from_length k start_dt). apply nth_error_Some.
      destruct (nth_error (days_from start_dt k) (S i)); [|discriminate].
      discriminate. }
    rewrite days_from_nth in Hi, Hi' by lia.
    cbn [option_map] in Hi, Hi'. injection Hi as <-. injection Hi' as <-.
    cbn [day_of_week date_row plus_days].
    apply isoweekday_next_day.
    apply plus_days_ordinal; [assumption|].
    pose proof (toordinal_bounds end_dt Ve). unfold k, days_between in Hk. lia.
Qed.

Ltac prove_valid :=
  unfold valid, MINYEAR, MAXYEAR; cbn [year month day];
  repeat split; vm_compute; discriminate.

Lemma make_date_dim_week_cycle_witness :
  day_of_week (date_row (Datetime 2010 1 4)) =
  day_of_week (date_row (Datetime 2010 1 3)) mod 7 + 1.
Proof.
  assert (valid (Datetime 2010 1 3)) as V1 by prove_valid.
  assert (valid (Datetime 2010 1 5)) as V2 by prove_valid.
  assert (Datetime 2010 1 5 <> max_date) as Hm by discriminate.
  assert (make_date_dim (isoformat (Datetime 2010 1 3))
            (isoformat (Datetime 2010 1 5)) =
          Some (Ok (map date_row
                      [Datetime 2010 1 3; Datetime 2010 1 4;
                       Datetime 2010 1 5]))) as E
    by (vm_compute; reflexivity).
  apply (proj2 (make_date_dim_week_cycle _ _ _ V1 V2 Hm E) 0%nat);
    reflexivity.
Defined.

(** Every row of the frame is the row of a calendar date. *)
Lemma make_date_dim_rows_dates (start_dt end_dt : datetime)
    (rows : list DateRow) :
  valid start_dt -> valid end_dt -> end_dt <> max_date ->
  make_date_dim (isoformat start_dt) (isoformat end_dt) = Some (Ok rows) ->
  forall r, In r rows -> exists dt, valid dt /\ r = date_row dt.
Proof.
  intros Vs Ve Hmax E r Hr.
  rewrite (make_date_dim_value _ _ Vs Ve Hmax) in E. injection E as <-.
  apply in_map_iff in Hr. destruct Hr as (dt & <- & Hd).
  exists dt. split; [|reflexivity].
  apply In_nth_error in Hd. destruct Hd as (i & Hi).
  assert (i < Z.to_nat (days_between start_dt end_dt + 1))%nat as Hk.
  { rewrite <- (days_from_length
                  (Z.to_nat (days_between start_dt end_dt + 1)) start_dt).
    apply nth_error_Some. congruence. }
  rewrite days_from_nth in Hi by assumption. injection Hi as <-.
  apply plus_days_ordinal; [assumption|].
  pose proof (toordinal_bounds end_dt Ve). unfold days_between in Hk. lia.
Qed.

(** X3: the fields of every row of the frame agree: [full_date] parses
    back to a date whose key is [date_key]; the key splits by division
    into the year, the month and the day of the row; the quarter is
    between 1 and 4 and holds the month; the month name is the name of the
    month number. *)
Theorem make_date_dim_row_fields (start_dt end_dt : datetime)
    (rows : list DateRow) :
  valid start_dt -> valid end_dt -> end_dt <> max_date ->
  make_date_dim (isoformat start_dt) (isoformat end_dt) = Some (Ok rows) ->
  Forall (fun r =>
    exists dt,
      fromisoformat (full_date r) = Ok dt /\
      strftime_Ymd_int dt = date_key r /\
      date_key r / 10000 = calendar_year r /\
      date_key r / 100 mod 100 = month_of_year r /\
      date_key r mod 100 = day dt /\
      1 <= calendar_quarter r <= 4 /\
      3 * calendar_quarter r - 2 <= month_of_year r <= 3 * calendar_quarter r /\
      nth_error month_names (Z.to_nat (month_of_year r - 1))
        = Some (month_name r)) rows.
Proof.
  intros Vs Ve Hmax E. apply Forall_forall. intros r Hr.
  destruct (make_date_dim_rows_dates _ _ _ Vs Ve Hmax E r Hr)
    as (dt & V & ->).
  exists dt. pose proof V as (Hy & Hm & Hd).
  pose proof (days_in_month_bounds (year dt) (month dt) Hm) as Hb.
  unfold MINYEAR, MAXYEAR in Hy.
  cbn [full_date date_key calendar_year month_of_year calendar_quarter
       month_name date_row].
  split; [apply fromisoformat_isoformat, V|]. split; [reflexivity|].
  unfold strftime_Ymd_int, strftime_B.
  split; [Z.div_mod_to_equations; lia|].
  split; [Z.div_mod_to_equations; lia|].
  split; [Z.div_mod_to_equations; lia|].
  split; [Z.div_mod_to_equations; lia|].
  split; [Z.div_mod_to_equations; lia|].
  assert (month dt = 1 \/ month dt = 2 \/ month dt = 3 \/ month dt = 4 \/
          month dt = 5 \/ month dt = 6 \/ month dt = 7 \/ month dt = 8 \/
          month dt = 9 \/ month dt = 10 \/ month dt = 11 \/ month dt = 12)
    as C by lia.
  repeat (destruct C as [C|C]); rewrite C; reflexivity.
Qed.

Lemma make_date_dim_row_fields_witness :
  Forall (fun r => date_key r / 10000 = calendar_year r)
    (map date_row [Datetime 2010 1 3; Datetime 2010 1 4; Datetime 2010 1 5]).
Proof.
  assert (valid (Datetime 2010 1 3)) as V1 by prove_valid.
  assert (valid (Datetime 2010 1 5)) as V2 by prove_valid.
  assert (Datetime 2010 1 5 <> max_date) as Hm by discriminate.
  assert (make_date_dim (isoformat (Datetime 2010 1 3))
            (isoformat (Datetime 2010 1 5)) =
          Some (Ok (map date_row
                      [Datetime 2010 1 3; Datetime 2010 1 4;
                       Datetime 2010 1 5]))) as E
    by (vm_compute; reflexivity).
  eapply Forall_impl; [|exact (make_date_dim_row_fields _ _ _ V1 V2 Hm E)].
  intros r (dt & _ & _ & H & _). exact H.
Defined.

Lemma days_from_app (n : nat) :
  forall dt m,
    days_from dt (n + m) = days_from dt n ++ days_from (plus_days dt n) m.
Proof.
  induction n as [|n IH]; intros dt m; [reflexivity|].
  cbn [Nat.add days_from app plus_days]. f_equal.
  rewrite IH, PipelineFacts.plus_days_next. reflexivity.
Qed.

(** X4: two adjacent ranges make the whole range: for calendar dates
    [a <= b <= c] with [c] before 9999-12-31, the frame from [a] to [c] is
    the frame from [a] to [b] followed by the frame from the day after [b]
    to [c]. *)
Theorem make_date_dim_adjacent (a b c : datetime) :
  valid a -> valid b -> valid c -> c <> max_date ->
  le a b = true -> le b c = true ->
  exists r1 r2,
    make_date_dim (isoformat a) (isoformat b) = Some (Ok r1) /\
    make_date_dim (isoformat (next_day b)) (isoformat c) = Some (Ok r2) /\
    make_date_dim (isoformat a) (isoformat c) = Some (Ok (r1 ++ r2)).
Proof.
  intros Va Vb Vc Hmax Lab Lbc.
  apply le_iff_toordinal in Lab, Lbc; auto.
  pose proof (ordinal_below_max c Vc Hmax) as Hc.
  assert (b <> max_date) as Hb by (apply not_max_of_ordinal; auto; lia).
  pose proof (valid_next_day b Vb Hb) as Vn.
  pose proof (toordinal_next_day b Vb) as On.
  rewrite (make_date_dim_value a b Va Vb Hb).
  rewrite (make_date_dim_value (next_day b) c Vn Vc Hmax).
  rewrite (make_date_dim_value a c Va Vc Hmax).
  do 2 eexists. split; [reflexivity|]. split; [reflexivity|].
  rewrite <- map_app. do 3 f_equal.
  set (k1 := Z.to_nat (days_between a b + 1)).
  set (k2 := Z.to_nat (days_between (next_day b) c + 1)).
  replace (Z.to_nat (days_between a c + 1)) with (k1 + k2)%nat
    by (unfold k1, k2, days_between; lia).
  rewrite days_from_app. f_equal. f_equal.
  assert (k1 = S (Z.to_nat (days_between a b))) as ->
    by (unfold k1, days_between; lia).
  cbn [plus_days]. f_equal.
  destruct (plus_days_ordinal a (Z.to_nat (days_between a b)) Va)
    as (Vp & Op); [unfold days_between; lia|].
  apply toordinal_inj; auto. rewrite Op. unfold days_between. lia.
Qed.

Lemma make_date_dim_adjacent_witness :
  exists r1 r2,
    make_date_dim "2010-01-30" "2010-01-31" = Some (Ok r1) /\
    make_date_dim "2010-02-01" "2010-02-02" = Some (Ok r2) /\
    make_date_dim "2010-01-30" "2010-02-02" = Some (Ok (r1 ++ r2)).
Proof.
  assert (valid (Datetime 2010 1 30)) as Va by prove_valid.
  assert (valid (Datetime 2010 1 31)) as Vb by prove_valid.
  assert (valid (Datetime 2010 2 2)) as Vc by prove_valid.
  exact (make_date_dim_adjacent (Datetime 2010 1 30) (Datetime 2010 1 31)
           (Datetime 2010 2 2) Va Vb Vc ltac:(discriminate) eq_refl eq_refl).
Defined.

(** Parsing the spelling of three numbers leaves the range checks of the
    constructor to decide. *)
Lemma fromisoformat_digits (y m d : Z) :
  0 <= y <= 9999 -> 0 <= m <= 99 -> 0 <= d <= 99 ->
  fromisoformat (isoformat (Datetime y m d)) = new y m d.
Proof.
  intros Hy Hm Hd.
  destruct (digits_zfill4 y ltac:(lia)) as (y1 & y2 & y3 & y4 & Ey & Dy).
  destruct (digits_zfill2 m ltac:(lia)) as (m1 & m2 & Em & Dm).
  destruct (digits_zfill2 d ltac:(lia)) as (d1 & d2 & Ed & Dd).
  unfold fromisoformat, isoformat. cbn [year month day].
  rewrite Ey, Em, Ed. cbn [append list_ascii_of_string].
  change (code "-" =? 45) with true. cbn [andb].
  rewrite Dy, Dm, Dd. reflexivity.
Qed.

Lemma new_invalid (y m d : Z) :
  ~ valid (Datetime y m d) -> new y m d = Raise ValueError.
Proof.
  intros N. unfold new.
  destruct ((MINYEAR <=? y) && (y <=? MAXYEAR)) eqn:Ey; [|reflexivity].
  destruct ((1 <=? m) && (m <=? 12)) eqn:Em; [|reflexivity].
  destruct ((1 <=? d) && (d <=? _days_in_month y m)) eqn:Ed; [|reflexivity].
  exfalso. apply N. unfold valid. cbn [year month day].
  apply andb_true_iff in Ey, Em, Ed. rewrite !Z.leb_le in Ey, Em, Ed. lia.
Qed.

(** X5: a start or an end spelled YYYY-MM-DD that names no calendar date
    (year 0000, month 00 or 13, a day the month does not have) makes
    [make_date_dim] raise [ValueError]; no frame is built. *)
Theorem make_date_dim_impossible_date (y m d : Z) :
  0 <= y <= 9999 -> 0 <= m <= 99 -> 0 <= d <= 99 ->
  ~ valid (Datetime y m d) ->
  (forall end_ : string,
     make_date_dim (isoformat (Datetime y m d)) end_
       = Some (Raise ValueError)) /\
  (forall start_dt : datetime,
     valid start_dt ->
     make_date_dim (isoformat start_dt) (isoformat (Datetime y m d))
       = Some (Raise ValueError)).
Proof.
  intros Hy Hm Hd N.
  pose proof (fromisoformat_digits y m d Hy Hm Hd) as F.
  rewrite (new_invalid y m d N) in F.
  split.
  - intros end_. unfold make_date_dim. rewrite F. reflexivity.
  - intros start_dt V. unfold make_date_dim.
    rewrite (fromisoformat_isoformat start_dt V), F. reflexivity.
Qed.

Lemma make_date_dim_impossible_date_witness :
  make_date_dim "2010-02-30" "2010-12-31" = Some (Raise ValueError) /\
  make_date_dim "2010-01-01" "2010-13-01" = Some (Raise ValueError).
Proof.
  assert (~ valid (Datetime 2010 2 30)) as N1.
  { unfold valid. cbn [year month day].
    change (_days_in_month 2010 2) with 28. lia. }
  assert (~ valid (Datetime 2010 13 1)) as N2.
  { unfold valid. cbn [year month day]. lia. }
  assert (valid (Datetime 2010 1 1)) as V by prove_valid.
  split.
  - exact (proj1 (make_date_dim_impossible_date 2010 2 30 ltac:(lia)
                    ltac:(lia) ltac:(lia) N1) "2010-12-31").
  - exact (proj2 (make_date_dim_impossible_date 2010 13 1 ltac:(lia)
                    ltac:(lia) ltac:(lia) N2) (Datetime 2010 1 1) V).
Defined.

Lemma valid_dec31 (y : Z) : MINYEAR <= y <= MAXYEAR -> valid (dec31 y).
Proof.
  intros H. unfold valid, dec31. cbn [year month day].
  change (_days_in_month y 12) with 31. lia.
Qed.

Lemma days_in_year (y : Z) :
  days_between (jan1 y) (dec31 y) + 1 = 365 + (if _is_leap y then 1 else 0).
Proof.
  unfold days_between. rewrite toordinal_jan1.
  unfold toordinal, dec31, _ymd2ord. cbn [year month day].
  unfold _days_before_month. destruct (_is_leap y); table_calc; lia.
Qed.

(** X6: for every year from 1 to 9998 and every row identifier, the date
    key [deterministc_date_for_row] returns is the key of a row of the
    date dimension [make_date_dim] builds for that year, which has 365
    rows, or 366 in a leap year. *)
Theorem assigned_key_in_year_dim (row_id y : Z) :
  1 <= y <= 9998 ->
  exists rows k,
    year_dim y = Some (Ok rows) /\
    Z.of_nat (List.length rows) = 365 + (if _is_leap y then 1 else 0) /\
    deterministc_date_for_row row_id y = Ok k /\
    In k (map date_key rows).
Proof.
  intros Hy.
  assert (MINYEAR <= y <= MAXYEAR) as Hy' by (unfold MINYEAR, MAXYEAR; lia).
  assert (dec31 y <> max_date) as Hmax
    by (unfold dec31, max_date; intros E; injection E; lia).
  unfold year_dim.
  rewrite (make_date_dim_value _ _ (valid_jan1 y Hy') (valid_dec31 y Hy') Hmax).
  rewrite days_in_year.
  do 2 eexists. split; [reflexivity|].
  rewrite length_map, days_from_length.
  split; [destruct (_is_leap y); lia|].
  split; [apply date_for_row_ok, Hy'|].
  rewrite map_map. cbn [date_key date_row]. unfold assigned_key.
  apply (in_map strftime_Ymd_int), PipelineFacts.days_from_In.
  pose proof (day_offset_range row_id). destruct (_is_leap y); lia.
Qed.

Lemma assigned_key_in_year_dim_witness :
  exists rows k,
    year_dim 2012 = Some (Ok rows) /\
    Z.of_nat (List.length rows) = 366 /\
    deterministc_date_for_row 2 2012 = Ok k /\
    In k (map date_key rows).
Proof. exact (assigned_key_in_year_dim 2 2012 ltac:(lia)). Defined.

Lemma month_day_before_march :
  forallb (fun n =>
    let '(m1, d1) := month_day true n in
    let '(m2, d2) := month_day false n in
    (m1 =? m2) && (d1 =? d2)) (zrange 0 59) = true.
Proof. vm_compute. reflexivity. Qed.

(** X7: the date key is the year followed by a month and a day that depend
    on the row identifier and on whether the year is a leap year only: in
    two years of the same kind, and in any two years when the day offset
    is below 59 (before March), a row gets the same month and day. *)
Theorem assigned_month_day (row_id y : Z) :
  MINYEAR <= y <= MAXYEAR ->
  exists m d,
    month_day (_is_leap y) (day_offset row_id) = (m, d) /\
    1 <= m <= 12 /\ 1 <= d <= 31 /\
    deterministc_date_for_row row_id y = Ok (y * 10000 + m * 100 + d) /\
    (forall y',
       MINYEAR <= y' <= MAXYEAR ->
       _is_leap y' = _is_leap y \/ day_offset row_id < 59 ->
       deterministc_date_for_row row_id y'
         = Ok (y' * 10000 + m * 100 + d)).
Proof.
  assert (forall z, MINYEAR <= z <= MAXYEAR ->
            exists m d,
              month_day (_is_leap z) (day_offset row_id) = (m, d) /\
              1 <= m <= 12 /\ 1 <= d <= 31 /\
              deterministc_date_for_row row_id z
                = Ok (z * 10000 + m * 100 + d)) as Key.
  { intros z Hz.
    destruct (assigned_day row_id z Hz) as (V & Y & O).
    set (dt := plus_days (jan1 z) (Z.to_nat (day_offset row_id))) in *.
    pose proof V as (_ & Hm & Hd).
    pose proof (days_in_month_bounds (year dt) (month dt) Hm) as Hb.
    pose proof (day_offset_range row_id) as Hoff.
    assert (_days_before_month (year dt) (month dt) + day dt - 1
            = day_offset row_id) as Epos.
    { rewrite toordinal_jan1 in O. unfold toordinal, _ymd2ord in O.
      rewrite Y in *. lia. }
    pose proof (month_day_ok (year dt) (month dt) (day dt) Hm Hd) as MD.
    rewrite Epos, Y in MD. specialize (MD ltac:(lia)).
    exists (month dt), (day dt).
    split; [exact MD|]. split; [exact Hm|]. split; [lia|].
    rewrite (date_for_row_ok row_id z Hz). unfold assigned_key.
    fold dt. unfold strftime_Ymd_int. rewrite Y. reflexivity. }
  intros Hy. destruct (Key y Hy) as (m & d & MD & Hm & Hd & E).
  exists m, d. split; [exact MD|]. split; [exact Hm|]. split; [exact Hd|].
  split; [exact E|].
  intros y' Hy' Hsame.
  destruct (Key y' Hy') as (m' & d' & MD' & _ & _ & E').
  assert (month_day (_is_leap y') (day_offset row_id)
          = month_day (_is_leap y) (day_offset row_id)) as Esame.
  { destruct Hsame as [->|Hlt]; [reflexivity|].
    assert (month_day true (day_offset row_id)
            = month_day false (day_offset row_id)) as TF.
    { pose proof month_day_before_march as T.
      rewrite forallb_forall in T.
      pose proof (day_offset_range row_id) as Hoff.
      specialize (T (day_offset row_id) ltac:(apply zrange_In; cbn; lia)).
      cbv zeta in T.
      destruct (month_day true (day_offset row_id)) as [m1 d1],
               (month_day false (day_offset row_id)) as [m2 d2].
      apply andb_true_iff in T. destruct T as [T1 T2].
      apply Z.eqb_eq in T1, T2. congruence. }
    destruct (_is_leap y'), (_is_leap y); congruence. }
  rewrite Esame, MD in MD'. injection MD' as <- <-. exact E'.
Qed.

Lemma assigned_month_day_witness :
  deterministc_date_for_row 1 2011 = Ok 20110131.
Proof.
  destruct (assigned_month_day 1 2010) as (m & d & MD & _ & _ & _ & Hy').
  - unfold MINYEAR, MAXYEAR. lia.
  - vm_compute in MD. injection MD as <- <-.
    apply Hy'; [unfold MINYEAR, MAXYEAR; lia|]. left. reflexivity.
Defined.

End MoreDateFacts.

(** ** Further properties of the dimensions and of the fact builder *)

Module MoreDimensionFacts.
Import Py Pandas Pipeline Keys Notions Classifier.
Import ClassifierFacts PandasFacts DimensionFacts.

Lemma lower_char_idem (c : ascii) : lower_char (lower_char c) = lower_char c.
Proof. destruct c as [[] [] [] [] [] [] [] []]; reflexivity. Qed.

Lemma is_space_lower_char (c : ascii) : is_space (lower_char c) = is_space c.
Proof. destruct c as [[] [] [] [] [] [] [] []]; reflexivity. Qed.

Lemma lower_idem (s : string) : lower (lower s) = lower s.
Proof.
  induction s as [|c s IH]; [reflexivity|].
  cbn [lower]. rewrite lower_char_idem, IH. reflexivity.
Qed.

Lemma lstrip_lower (s : string) : lstrip (lower s) = lower (lstrip s).
Proof.
  induction s as [|c s IH]; [reflexivity|].
  cbn [lower lstrip]. rewrite is_space_lower_char.
  destruct (is_space c); [exact IH|reflexivity].
Qed.

Lemma rstrip_lower (s : string) : rstrip (lower s) = lower (rstrip s).
Proof.
  induction s as [|c s IH]; [reflexivity|].
  cbn [lower rstrip]. rewrite IH, is_space_lower_char.
  destruct (rstrip s); cbn [lower]; [|reflexivity].
  destruct (is_space c); reflexivity.
Qed.

Lemma strip_lower (s : string) : strip (lower s) = lower (strip s).
Proof. unfold strip. rewrite lstrip_lower, rstrip_lower. reflexivity. Qed.

(** What [lstrip] returns is empty or begins with a character that is not
    white space. *)
Lemma lstrip_head (s : string) :
  match lstrip s with
  | EmptyString => True
  | String c _ => is_space c = false
  end.
Proof.
  induction s as [|c s IH]; [exact I|].
  cbn [lstrip]. destruct (is_space c) eqn:E; [exact IH|exact E].
Qed.

Lemma rstrip_keeps_head (c : ascii) (s : string) :
  is_space c = false -> rstrip (String c s) = String c (rstrip s).
Proof.
  intros E. cbn [rstrip]. destruct (rstrip s); [rewrite E|]; reflexivity.
Qed.

Lemma rstrip_idem (s : string) : rstrip (rstrip s) = rstrip s.
Proof.
  induction s as [|c s IH]; [reflexivity|].
  cbn [rstrip]. destruct (rstrip s) as [|k ks] eqn:R.
  - destruct (is_space c) eqn:E; [reflexivity|].
    cbn [rstrip]. rewrite E. reflexivity.
  - change (rstrip (String c (String k ks))) with
      (match rstrip (String k ks) with
       | EmptyString =>
           if is_space c then EmptyString else String c EmptyString
       | kept => String c kept
       end).
    rewrite IH. reflexivity.
Qed.

Lemma strip_idem (s : string) : strip (strip s) = strip s.
Proof.
  unfold strip. pose proof (lstrip_head s) as H.
  destruct (lstrip s) as [|c t]; [reflexivity|].
  rewrite (rstrip_keeps_head c t H). cbn [lstrip]. rewrite H.
  rewrite <- (rstrip_keeps_head c t H). apply rstrip_idem.
Qed.

(** X8: the region of a transformed record is in normal form: stripping it
    or lowercasing it changes nothing, so a record whose source region is
    already such a label keeps it as it is. *)
Theorem region_normal_form (r : Raw.t) :
  let l := Ins.region (transform_row r) in
  strip l = l /\ lower l = l /\
  (forall r' : Raw.t,
     Raw.region r' = l -> Ins.region (transform_row r') = l).
Proof.
  cbv zeta. cbn [Ins.region transform_row].
  assert (strip (lower (strip (Raw.region r))) = lower (strip (Raw.region r)))
    as S by (rewrite strip_lower, strip_idem; reflexivity).
  split; [exact S|]. split; [apply lower_idem|].
  intros r' ->. rewrite S. apply lower_idem.
Qed.

Section KeptFrom.
Context {A : Type}.
Variable eqb : A -> A -> bool.

Lemma kept_from_app (l : list A) :
  forall prev l',
    kept_from eqb prev (l ++ l') =
    kept_from eqb prev l ++ kept_from eqb (prev ++ l) l'.
Proof.
  induction l as [|x l IH]; intros prev l'.
  - cbn [app]. rewrite app_nil_r. reflexivity.
  - cbn [app]. rewrite !kept_from_cons, IH, <- app_assoc. cbn [app].
    destruct (existsb (eqb x) prev); reflexivity.
Qed.

Lemma kept_from_map {B : Type} (eqb' : B -> B -> bool) (f : B -> A) :
  (forall a b, eqb (f a) (f b) = eqb' a b) ->
  forall rows prev,
    kept_from eqb (map f prev) (map f rows) =
    map f (kept_from eqb' prev rows).
Proof.
  intros H. induction rows as [|x rows IH]; intros prev; [reflexivity|].
  cbn [map]. rewrite !kept_from_cons.
  assert (existsb (eqb (f x)) (map f prev) = existsb (eqb' x) prev) as ->.
  { induction prev as [|p prev IHp]; [reflexivity|].
    cbn [map existsb]. rewrite H, IHp. reflexivity. }
  change [f x] with (map f [x]). rewrite <- map_app, IH.
  destruct (existsb (eqb' x) prev); reflexivity.
Qed.
End KeptFrom.

Lemma zrange_app (lo : Z) (n m : nat) :
  Calendar.zrange lo (n + m) =
  Calendar.zrange lo n ++ Calendar.zrange (lo + Z.of_nat n) m.
Proof.
  unfold Calendar.zrange. rewrite seq_app, map_app. f_equal.
  cbn [Nat.add]. rewrite <- (Nat.add_0_r n) at 1.
  generalize 0%nat as s. induction m as [|m IH]; intros s; [reflexivity|].
  cbn [seq map]. f_equal; [lia|].
  rewrite <- Nat.add_succ_r. apply IH.
Qed.

Lemma combine_app_same {A B : Type} (l1 : list A) (l1' : list B) :
  forall l2 l2',
    List.length l1 = List.length l1' ->
    combine (l1 ++ l2) (l1' ++ l2') = combine l1 l1' ++ combine l2 l2'.
Proof.
  revert l1'. induction l1 as [|x l1 IH]; intros [|y l1'] l2 l2' H;
    try discriminate; [reflexivity|].
  cbn [app combine]. f_equal. apply IH. injection H. auto.
Qed.

Lemma number_rows_app {A : Type} (a b : list A) :
  number_rows (a ++ b) =
  number_rows a
  ++ combine (Calendar.zrange (1 + Z.of_nat (List.length a)) (List.length b)) b.
Proof.
  unfold number_rows. rewrite length_app, zrange_app.
  rewrite combine_app_same by (rewrite zrange_length; reflexivity).
  reflexivity.
Qed.

(** X9: records appended to the source never change the insured rows
    already numbered: the dimension of the longer source is the dimension
    of the shorter one followed by rows with larger keys, one for each new
    natural-key tuple of the appended records. *)
Theorem insured_dim_append (l l' : list Raw.t) :
  exists tail,
    build_insured_dim (transform (l ++ l')) =
      build_insured_dim (transform l) ++ tail /\
    Forall (fun d =>
      Z.of_nat (List.length (build_insured_dim (transform l)))
        < InsuredDim.insured_key d /\
      (forall r, In r l ->
         inskey_eqb (key_of (transform_row r)) (InsuredDim.cols d) = false) /\
      (exists r', In r' l' /\ InsuredDim.cols d = key_of (transform_row r')))
      tail.
Proof.
  set (K := map key_of (transform l)).
  set (K' := map key_of (transform l')).
  exists (map (fun p => InsuredDim.Make (snd p) (fst p))
            (combine
               (Calendar.zrange
                  (1 + Z.of_nat (List.length (kept_from inskey_eqb [] K)))
                  (List.length (kept_from inskey_eqb K K')))
               (kept_from inskey_eqb K K'))).
  split.
  - unfold build_insured_dim, transform. rewrite !map_app.
    fold (transform l) (transform l'). fold K K'.
    unfold drop_duplicates. rewrite kept_from_app. cbn [app].
    rewrite number_rows_app, map_app. reflexivity.
  - apply Forall_forall. intros d Hd. apply in_map_iff in Hd.
    destruct Hd as ([k c] & <- & Hp). cbn [InsuredDim.insured_key
      InsuredDim.cols fst snd].
    pose proof (in_combine_l _ _ _ _ Hp) as Hk.
    pose proof (in_combine_r _ _ _ _ Hp) as Hc.
    apply zrange_In_iff in Hk.
    destruct (kept_from_In inskey_eqb canon_key inskey_eqb_canon K' K c Hc)
      as (Hin & Hnot).
    split; [|split].
    + unfold build_insured_dim.
      rewrite length_map, number_rows_length. fold K.
      unfold drop_duplicates. lia.
    + intros r Hr.
      destruct (inskey_eqb (key_of (transform_row r)) c) eqn:E;
        [|reflexivity].
      exfalso. apply Hnot. apply inskey_eqb_canon in E. rewrite <- E.
      apply in_map. unfold K, transform. rewrite map_map.
      apply (in_map (fun x => key_of (transform_row x))). exact Hr.
    + unfold K', transform in Hin. rewrite map_map in Hin.
      apply in_map_iff in Hin. destruct Hin as (r' & E & Hr').
      exists r'. split; [exact Hr'|]. symmetry. exact E.
Qed.

(** The category of a float cell depends on its value only. *)
Lemma bmi_category_cell (x y : spec_float) :
  float_cell_eqb x y = true -> bmi_category x = bmi_category y.
Proof.
  intros H. apply float_cell_eqb_canon in H.
  destruct x as [sx|sx| |sx mx ex], y as [sy|sy| |sy my ey];
    cbn [canon_float] in H; try discriminate H; try reflexivity;
    try (injection H as <-; reflexivity).
  injection H as <- <- <-. reflexivity.
Qed.

Lemma source_key_decides (a b : Raw.t) :
  inskey_eqb (key_of (transform_row a)) (key_of (transform_row b))
  = source_key_eqb a b.
Proof.
  unfold inskey_eqb, source_key_eqb, key_of, transform_row.
  cbn [InsKey.age InsKey.age_band InsKey.sex InsKey.smoker InsKey.bmi
       InsKey.bmi_category InsKey.children Ins.age Ins.age_band Ins.sex
       Ins.smoker Ins.bmi Ins.bmi_category Ins.children].
  destruct (Z.eqb_spec (Raw.age a) (Raw.age b)) as [Ea|]; [|reflexivity].
  rewrite Ea, String.eqb_refl. cbn [andb].
  destruct (String.eqb (Raw.sex a) (Raw.sex b)); [|reflexivity].
  destruct (String.eqb (Raw.smoker a) (Raw.smoker b)); [|reflexivity].
  cbn [andb].
  destruct (float_cell_eqb (Raw.bmi a) (Raw.bmi b)) eqn:Eb; [|reflexivity].
  rewrite (bmi_category_cell _ _ Eb), String.eqb_refl. reflexivity.
Qed.

(** X10: the two derived columns never split or merge insured rows: two
    records have the same natural-key tuple exactly when they agree on
    age, sex, smoker, bmi and children, and the insured dimension is the
    list of tuples of the first records of each such group. *)
Theorem insured_dim_source_columns (insurance : list Raw.t) :
  (forall a b : Raw.t,
     inskey_eqb (key_of (transform_row a)) (key_of (transform_row b))
     = source_key_eqb a b) /\
  map InsuredDim.cols (build_insured_dim (transform insurance)) =
    map (fun r => key_of (transform_row r))
      (drop_duplicates source_key_eqb insurance) /\
  List.length (build_insured_dim (transform insurance)) =
    List.length (drop_duplicates source_key_eqb insurance).
Proof.
  assert (map InsuredDim.cols (build_insured_dim (transform insurance)) =
          map (fun r => key_of (transform_row r))
            (drop_duplicates source_key_eqb insurance)) as E.
  { rewrite insured_dim_cols. unfold transform. rewrite map_map.
    unfold drop_duplicates.
    apply (kept_from_map inskey_eqb source_key_eqb
             (fun r => key_of (transform_row r)) source_key_decides
             insurance []). }
  split; [exact source_key_decides|]. split; [exact E|].
  rewrite <- (length_map InsuredDim.cols), E, length_map. reflexivity.
Qed.

(** *** The region dimension of the two pipelines *)

Lemma build_regions_value (dedup : bool) (insured : list Ins.t)
    (providers : list Provider.t) :
  providers <> [] ->
  build_regions dedup insured providers =
  Ok (map (fun p => RegionDim.Make (snd p) (fst p))
        (number_rows
           (sort_values region_le
              (if dedup
               then drop_duplicates attrs_eqb (joined insured providers)
               else joined insured providers)))).
Proof. destruct providers; [congruence|reflexivity]. Qed.

Lemma region_dim_attrs (rows : list RegionAttrs.t) :
  map RegionDim.attrs
    (map (fun p => RegionDim.Make (snd p) (fst p)) (number_rows rows))
  = rows.
Proof. rewrite map_map. cbn [RegionDim.attrs]. apply number_rows_snd. Qed.

(** X11: for every non-empty reference, the region dimension of
    [etl_pipeline_mysql.py] never holds the same attribute row twice, holds
    exactly the attribute rows the dimension of [etl_pipeline.py] holds,
    and is not longer. *)
Theorem regions_mysql_without_repeats (insured : list Ins.t)
    (providers : list Provider.t) :
  providers <> [] ->
  exists dm ds,
    build_regions true insured providers = Ok dm /\
    build_regions false insured providers = Ok ds /\
    NoDup (map RegionDim.attrs dm) /\
    (forall a, In a (map RegionDim.attrs dm) <->
               In a (map RegionDim.attrs ds)) /\
    (List.length dm <= List.length ds)%nat.
Proof.
  intros Hne. rewrite !(build_regions_value _ _ _ Hne).
  do 2 eexists. split; [reflexivity|]. split; [reflexivity|].
  rewrite !region_dim_attrs.
  set (J := joined insured providers).
  pose proof (sort_values_perm region_le J) as PJ.
  pose proof (sort_values_perm region_le (drop_duplicates attrs_eqb J)) as PD.
  assert (NoDup (drop_duplicates attrs_eqb J)) as ND.
  { pose proof (drop_duplicates_NoDup attrs_eqb (fun a : RegionAttrs.t => a)
                  attrs_eqb_canon J) as X.
    rewrite map_id in X. exact X. }
  assert (forall a, In a (drop_duplicates attrs_eqb J) <-> In a J) as M.
  { intros a. split.
    - apply (drop_duplicates_In attrs_eqb (fun a : RegionAttrs.t => a)
               attrs_eqb_canon).
    - intros H.
      pose proof (drop_duplicates_cover attrs_eqb (fun a : RegionAttrs.t => a)
                    attrs_eqb_canon J a H) as X.
      rewrite map_id in X. exact X. }
  split; [apply (Permutation_NoDup (Permutation_sym PD)), ND|]. split.
  - intros a. split; intros H.
    + apply (Permutation_in _ (Permutation_sym PJ)), M,
        (Permutation_in _ PD), H.
    + apply (Permutation_in _ (Permutation_sym PD)), M,
        (Permutation_in _ PJ), H.
  - rewrite !length_map, !number_rows_length.
    rewrite (Permutation_length PD), (Permutation_length PJ).
    apply NoDup_incl_length; [exact ND|]. intros a. apply M.
Qed.

Lemma regions_mysql_without_repeats_witness :
  exists dm ds,
    build_regions true (transform Scenario.records) Scenario.reference_twice
      = Ok dm /\
    build_regions false (transform Scenario.records) Scenario.reference_twice
      = Ok ds /\
    (List.length dm <= List.length ds)%nat.
Proof.
  destruct (regions_mysql_without_repeats (transform Scenario.records)
              Scenario.reference_twice) as (dm & ds & E1 & E2 & _ & _ & L).
  - discriminate.
  - exists dm, ds. auto.
Defined.

(** With one reference entry per region, the join pairs every distinct
    label with the entry of its region, or with nulls. *)
Lemma joined_unique (insured : list Ins.t) (providers : list Provider.t) :
  NoDup (map Provider.region providers) ->
  joined insured providers =
  map (enrich_label providers)
    (drop_duplicates String.eqb (map Ins.region insured)) /\
  NoDup (map RegionAttrs.region (joined insured providers)).
Proof.
  intros N. unfold joined.
  rewrite (merge_left_unique String.eqb (fun s : string => s)
             string_eqb_canon (fun s => s) Provider.region _ providers N).
  rewrite !map_map. split; [reflexivity|].
  cbn [attrs_of RegionAttrs.region fst]. rewrite map_id.
  pose proof (drop_duplicates_NoDup String.eqb (fun s : string => s)
                string_eqb_canon (map Ins.region insured)) as X.
  rewrite map_id in X. exact X.
Qed.

Lemma build_regions_unique_reference (insured : list Ins.t)
    (providers : list Provider.t) :
  NoDup (map Provider.region providers) ->
  build_regions true insured providers =
  build_regions false insured providers.
Proof.
  intros N. destruct providers as [|p ps]; [reflexivity|].
  rewrite !build_regions_value by discriminate.
  destruct (joined_unique insured (p :: ps) N) as (_ & NJ).
  unfold drop_duplicates.
  rewrite (kept_from_id attrs_eqb (fun a : RegionAttrs.t => a)
             attrs_eqb_canon (joined insured (p :: ps)) []);
    [reflexivity|].
  cbn [app]. rewrite map_id.
  apply (NoDup_map_inv RegionAttrs.region). exact NJ.
Qed.

(** X12: when no two reference entries have the same region, the two
    pipelines build the same region dimension from the same records (and
    both raise [KeyError] for the empty reference), so the
    [drop_duplicates()] that only [etl_pipeline_mysql.py] applies to the
    joined frame changes nothing. *)
Theorem regions_variants_agree (insurance : list Raw.t)
    (providers : list Provider.t) :
  NoDup (map Provider.region providers) ->
  build_regions true (transform insurance) providers =
  build_regions false (transform insurance) providers.
Proof. apply build_regions_unique_reference. Qed.

Lemma regions_variants_agree_witness :
  build_regions true (transform Scenario.records) Scenario.reference =
  build_regions false (transform Scenario.records) Scenario.reference.
Proof.
  apply (regions_variants_agree Scenario.records).
  cbn. repeat constructor; cbn; intuition discriminate.
Defined.

Lemma str_compare_eq (a b : string) : str_compare a b = Eq -> a = b.
Proof.
  revert b. induction a as [|x a IH]; intros [|y b]; cbn;
    try discriminate; [reflexivity|].
  destruct (Z.compare_spec (code x) (code y)) as [E|E|E]; try discriminate.
  intros H. rewrite (code_inj x y E), (IH b H). reflexivity.
Qed.

Lemma str_le_antisym (a b : string) :
  str_le a b = true -> str_le b a = true -> a = b.
Proof.
  unfold str_le. rewrite (str_compare_antisym a b).
  intros H1 H2. apply str_compare_eq.
  destruct (str_compare a b); cbn in *; congruence.
Qed.

(** Two sorted lists of labels with the same elements are the same list. *)
Lemma sorted_labels_unique (l : list string) :
  forall l',
    StronglySorted (fun a b => str_le a b = true) l ->
    StronglySorted (fun a b => str_le a b = true) l' ->
    Permutation l l' -> l = l'.
Proof.
  induction l as [|a t IH]; intros l' S S' P.
  - apply Permutation_nil in P. congruence.
  - destruct l' as [|a' t'];
      [apply Permutation_sym, Permutation_nil in P; discriminate|].
    inversion S as [|? ? St Fa]; subst.
    inversion S' as [|? ? St' Fa']; subst.
    rewrite Forall_forall in Fa, Fa'.
    assert (a = a') as <-.
    { assert (In a' (a :: t)) as H1
        by (apply (Permutation_in _ (Permutation_sym P)); left; reflexivity).
      assert (In a (a' :: t')) as H2
        by (apply (Permutation_in _ P); left; reflexivity).
      destruct H1 as [H1|H1]; [exact H1|].
      destruct H2 as [H2|H2]; [symmetry; exact H2|].
      apply str_le_antisym; auto. }
    f_equal. apply IH; auto. apply (Permutation_cons_inv P).
Qed.

(** Rows with pairwise distinct labels are determined by their labels. *)
Lemma rows_of_labels (l : list RegionAttrs.t) :
  forall l',
    map RegionAttrs.region l = map RegionAttrs.region l' ->
    incl l' l -> NoDup (map RegionAttrs.region l) -> l = l'.
Proof.
  induction l as [|a t IH]; intros [|a' t'] E I N; try discriminate;
    [reflexivity|].
  cbn [map] in E, N. injection E as Ea Et.
  inversion N as [|? ? Hn N']; subst.
  assert (a' = a) as ->.
  { destruct (I a' (or_introl eq_refl)) as [H|H]; [symmetry; exact H|].
    exfalso. apply Hn. rewrite Ea. apply in_map. exact H. }
  f_equal. apply IH; auto.
  intros x Hx. destruct (I x (or_intror Hx)) as [H|H]; [|exact H].
  exfalso. subst x. apply Hn. rewrite Et. apply in_map. exact Hx.
Qed.

(** X13: with one reference entry per region, the region dimension does
    not depend on the order of the source records: any rearrangement of
    the records gives the same rows with the same keys. *)
Theorem regions_order_independent (dedup : bool)
    (insurance insurance' : list Raw.t) (providers : list Provider.t) :
  Permutation insurance insurance' ->
  NoDup (map Provider.region providers) ->
  build_regions dedup (transform insurance) providers =
  build_regions dedup (transform insurance') providers.
Proof.
  intros P N.
  assert (forall l, build_regions dedup l providers
                    = build_regions false l providers) as F.
  { intros l. destruct dedup; [apply build_regions_unique_reference, N|reflexivity]. }
  rewrite !F. destruct providers as [|p ps]; [reflexivity|].
  rewrite !build_regions_value by discriminate. do 3 f_equal.
  set (providers := p :: ps) in *.
  destruct (joined_unique (transform insurance) providers N) as (J & NJ).
  destruct (joined_unique (transform insurance') providers N) as (J' & NJ').
  set (L := drop_duplicates String.eqb (map Ins.region (transform insurance)))
    in *.
  set (L' := drop_duplicates String.eqb
               (map Ins.region (transform insurance'))) in *.
  assert (Permutation L L') as PL.
  { apply NoDup_Permutation.
    - pose proof (drop_duplicates_NoDup String.eqb (fun s : string => s)
                    string_eqb_canon (map Ins.region (transform insurance)))
        as X. rewrite map_id in X. exact X.
    - pose proof (drop_duplicates_NoDup String.eqb (fun s : string => s)
                    string_eqb_canon (map Ins.region (transform insurance')))
        as X. rewrite map_id in X. exact X.
    - intros s. unfold L, L'. rewrite !distinct_labels_In.
      split; intros (r & Hr & E); exists r; (split; [|exact E]).
      + apply (Permutation_in _ P), Hr.
      + apply (Permutation_in _ (Permutation_sym P)), Hr. }
  assert (Permutation (sort_values region_le (joined (transform insurance)
                                                providers))
            (sort_values region_le (joined (transform insurance') providers)))
    as PS.
  { rewrite !sort_values_perm, J, J'. apply Permutation_map, PL. }
  apply rows_of_labels.
  - apply sorted_labels_unique.
    + apply region_sorted_strongly, sort_values_sorted, region_le_total.
    + apply region_sorted_strongly, sort_values_sorted, region_le_total.
    + apply Permutation_map, PS.
  - intros x Hx. apply (Permutation_in _ (Permutation_sym PS)), Hx.
  - apply (Permutation_NoDup
             (Permutation_map RegionAttrs.region
                (Permutation_sym (sort_values_perm region_le _)))).
    exact NJ.
Qed.

Lemma regions_order_independent_witness :
  build_regions false (transform Scenario.records) Scenario.reference =
  build_regions false (transform (rev Scenario.records)) Scenario.reference.
Proof.
  apply regions_order_independent.
  - apply Permutation_rev.
  - cbn. repeat constructor; cbn; intuition discriminate.
Defined.

End MoreDimensionFacts.

(** ** Further properties of the fact step and of the schema scripts *)

Module MorePipelineFacts.
Import Py Datetime Calendar Dates DateRule Pandas Pipeline Keys Notions Ddl.
Import CalendarFacts DateAssignFacts PandasFacts DimensionFacts PipelineFacts.







(** *** The statements of the schema script *)

Lemma occurs_app (c : ascii) (a b : string) :
  occurs c (a ++ b) = occurs c a || occurs c b.
Proof.
  induction a as [|x a IH]; [reflexivity|].
  cbn [String.append occurs]. rewrite IH, orb_assoc. reflexivity.
Qed.

Lemma occurs_lstrip (c : ascii) (s : string) :
  occurs c s = false -> occurs c (lstrip s) = false.
Proof.
  induction s as [|x s IH]; [reflexivity|]. intros H. cbn [lstrip].
  destruct (is_space x); [|exact H].
  cbn [occurs] in H. apply orb_false_iff in H. apply IH, H.
Qed.

Lemma occurs_rstrip (c : ascii) (s : string) :
  occurs c s = false -> occurs c (rstrip s) = false.
Proof.
  induction s as [|x s IH]; [reflexivity|]. intros H.
  cbn [occurs] in H. apply orb_false_iff in H. destruct H as (Hx & Hs).
  specialize (IH Hs). cbn [rstrip].
  destruct (rstrip s) as [|y k].
  - destruct (is_space x); [reflexivity|]. cbn [occurs]. rewrite Hx.
    reflexivity.
  - cbn [occurs] in *. rewrite Hx, IH. reflexivity.
Qed.

(** No piece of a split holds the separator. *)
Lemma split_on_pieces (sep : ascii) (s : string) :
  Forall (fun p => occurs sep p = false) (split_on sep s).
Proof.
  induction s as [|c s IH]; [repeat constructor|].
  cbn [split_on]. destruct (Ascii.eqb c sep) eqn:E.
  - constructor; [reflexivity|exact IH].
  - destruct (split_on sep s) as [|p ps].
    + repeat constructor. cbn [occurs]. rewrite E. reflexivity.
    + inversion IH as [|? ? Hp Hps]; subst. constructor; [|exact Hps].
      cbn [occurs]. rewrite E, Hp. reflexivity.
Qed.

(** X15: whatever the schema file holds, every statement step 7 of
    [etl_pipeline_mysql.py] executes is non-empty, has no white space at
    either end, and holds no semicolon: a semicolon inside a quoted text
    or a comment of the file cuts the statement there as well. *)
Theorem statements_clean (ddl : string) :
  Forall (fun st => st <> "" /\ strip st = st /\ occurs ";" st = false)
    (statements ddl).
Proof.
  apply Forall_forall. intros st H. unfold statements in H.
  apply in_map_iff in H. destruct H as (s & <- & H).
  apply filter_In in H. destruct H as (Hs & T).
  split; [|split].
  - intros E. rewrite E in T. discriminate.
  - apply MoreDimensionFacts.strip_idem.
  - pose proof (split_on_pieces ";" ddl) as P. rewrite Forall_forall in P.
    apply occurs_rstrip, occurs_lstrip, P, Hs.
Qed.

Lemma split_on_none (sep : ascii) (a : string) :
  occurs sep a = false -> split_on sep a = [a].
Proof.
  induction a as [|c a IH]; [reflexivity|]. intros H.
  cbn [occurs] in H. apply orb_false_iff in H. destruct H as (Hc & Ha).
  cbn [split_on]. rewrite Hc, (IH Ha). reflexivity.
Qed.

Lemma split_on_app (sep : ascii) (a b : string) :
  occurs sep a = false ->
  split_on sep (a ++ String sep b) = a :: split_on sep b.
Proof.
  induction a as [|c a IH]; intros H.
  - cbn [String.append split_on]. rewrite Ascii.eqb_refl. reflexivity.
  - cbn [occurs] in H. apply orb_false_iff in H. destruct H as (Hc & Ha).
    cbn [String.append split_on]. rewrite Hc, (IH Ha). reflexivity.
Qed.

Lemma append_assoc (a b c : string) :
  (a ++ (b ++ c) = (a ++ b) ++ c)%string.
Proof.
  induction a as [|x a IH]; [reflexivity|].
  cbn [String.append]. rewrite IH. reflexivity.
Qed.

Lemma statements_after (stmts : list string) :
  Forall (fun st => st <> "" /\ strip st = st /\ occurs ";" st = false)
    stmts ->
  forall pre,
    occurs ";" pre = false ->
    (forall s, strip (pre ++ s) = strip s) ->
    statements (pre ++ script_of stmts) = stmts.
Proof.
  induction 1 as [|st rest (Hne & Hst & Hno) _ IH]; intros pre Hp Hs.
  - cbn [script_of]. unfold statements.
    rewrite split_on_none
      by (rewrite occurs_app, Hp; reflexivity).
    cbn [filter]. rewrite Hs. reflexivity.
  - cbn [script_of]. unfold statements.
    rewrite append_assoc.
    rewrite split_on_app by (rewrite occurs_app, Hp, Hno; reflexivity).
    cbn [filter]. rewrite Hs, Hst.
    destruct st as [|c st]; [congruence|]. cbn [truthy map].
    rewrite Hs, Hst. f_equal.
    apply (IH (String (chr 10) EmptyString)); [reflexivity|].
    intros s. reflexivity.
Qed.

(** X16: a schema script that writes each statement followed by a
    semicolon and a line feed is read back by step 7 of
    [etl_pipeline_mysql.py] as exactly those statements, in order,
    provided each statement is non-empty, has no white space at either
    end and holds no semicolon. *)
Theorem statements_of_script (stmts : list string) :
  Forall (fun st => st <> "" /\ strip st = st /\ occurs ";" st = false)
    stmts ->
  statements (script_of stmts) = stmts.
Proof.
  intros H. apply (statements_after stmts H EmptyString); [reflexivity|].
  intros s. reflexivity.
Qed.

Lemma statements_of_script_witness :
  statements (script_of ["CREATE TABLE a (x INT)"; "DROP TABLE b"]) =
  ["CREATE TABLE a (x INT)"; "DROP TABLE b"].
Proof.
  apply statements_of_script.
  repeat constructor; try discriminate; vm_compute; reflexivity.
Defined.

(** *** build_classicmodels_sqlite *)

Ltac case_world w :=
  destruct w as [ex co pr rd es cm qu cs cl];
  destruct ex, co, pr, rd, es, cm, qu, cs, cl.

(** X17: [build_classicmodels_sqlite] closes the connection exactly when
    the SQL file exists and both [connect] and the foreign-key pragma
    succeed, and then closing is its last action and happens once,
    whatever fails in between; when the pragma fails, the connection that
    was opened is never closed; without the SQL file no connection is
    opened. *)
Theorem classicmodels_connection_closed (w : Classicmodels.world) :
  (In Classicmodels.Close (fst (Classicmodels.build_classicmodels_sqlite w))
   <-> Classicmodels.sql_exists w = true /\ Classicmodels.connect w = None /\
       Classicmodels.pragma w = None) /\
  (count_occ Classicmodels.action_eq_dec
     (fst (Classicmodels.build_classicmodels_sqlite w)) Classicmodels.Close
   <= 1)%nat /\
  (In Classicmodels.Close (fst (Classicmodels.build_classicmodels_sqlite w))
   -> last (fst (Classicmodels.build_classicmodels_sqlite w))
        Classicmodels.Connect = Classicmodels.Close) /\
  (In Classicmodels.Connect (fst (Classicmodels.build_classicmodels_sqlite w))
   <-> Classicmodels.sql_exists w = true).
Proof.
  case_world w; vm_compute; repeat split; intros;
    try discriminate; try lia; try tauto;
    repeat match goal with
           | H : _ /\ _ |- _ => destruct H
           | H : _ \/ _ |- _ => destruct H
           end; try discriminate; try tauto.
Qed.

(** X18: the extraction of the offices is best effort: a failure of the
    query or of writing the CSV file never leaves
    [build_classicmodels_sqlite], which returns normally exactly when the
    SQL file is missing or connect, pragma, reading and running the
    script, commit and close all succeed; the CSV file is written only
    after the script ran, the commit succeeded and the query returned
    rows. *)
Theorem classicmodels_best_effort (w : Classicmodels.world) :
  (snd (Classicmodels.build_classicmodels_sqlite w) = None <->
   Classicmodels.sql_exists w = false \/
   (Classicmodels.connect w = None /\ Classicmodels.pragma w = None /\
    Classicmodels.read_script w = None /\
    Classicmodels.executescript w = None /\
    Classicmodels.commit w = None /\ Classicmodels.close w = None)) /\
  (In Classicmodels.WriteCsv
     (fst (Classicmodels.build_classicmodels_sqlite w)) <->
   Classicmodels.sql_exists w = true /\
   Classicmodels.connect w = None /\ Classicmodels.pragma w = None /\
   Classicmodels.read_script w = None /\
   Classicmodels.executescript w = None /\
   Classicmodels.commit w = None /\
   exists rows, Classicmodels.query w = inr rows).
Proof.
  case_world w; cbn; repeat split; intros;
    repeat match goal with
           | H : _ /\ _ |- _ => destruct H
           | H : _ \/ _ |- _ => destruct H
           | H : exists _, _ |- _ => destruct H
           end; try discriminate; try tauto; eauto 10.
Qed.

End MorePipelineFacts.
